(** * Flagsmith: the flag resolution engine of the Django API

    A shallow embedding of the business logic in
    [api/environments/identities/models.py], [api/environments/models.py],
    [api/environments/permissions/permissions.py] and
    [api/edge_api/identities/views.py].

    Conventions used throughout:
    - a Django model instance is a record; a nullable column is an [option];
    - primary keys, priorities, versions and timestamps are integers ([Z]);
    - a queryset is the list of its rows in the order the database yields them;
    - a [Q] object is the predicate on rows it denotes;
    - a Python [dict] whose iteration order is observable is an association
      list in insertion order; a [dict] used as a plain map is a [gmap];
    - code that can raise returns a sum [exn + A]. *)

From Stdlib Require Import ZArith Bool.
From stdpp Require Import base option list relations strings pretty gmap fin_maps.

Local Open Scope Z_scope.

(** ** Data model *)

Module RequestOrigin.
(** Modelled from the spec: [core/request_origin.py] is not part of the
    sources at hand; the enumeration is given the two members that
    [Environment.trait_persistence_allowed] names. *)
Inductive t : Set := CLIENT | SERVER.

#[global] Instance eq_dec : EqDecision t.
Proof. solve_decision. Defined.
End RequestOrigin.

Module Request.
(** A [rest_framework] request, reduced to what the code below reads.
    [originated_from] is an attribute that the SDK authentication sets;
    it is absent ([None]) on requests authenticated in another way. *)
Record t : Type := mk {
  originated_from : option RequestOrigin.t
}.
End Request.

Module Organisation.
Record t : Type := mk {
  id : Z;
  persist_trait_data : bool
}.
End Organisation.

Module Project.
Record t : Type := mk {
  id : Z;
  organisation : Organisation.t;
  hide_disabled_flags : bool;
  enable_dynamo_db : bool
}.
End Project.

Module Segment.
Record t : Type := mk {
  id : Z;
  name : string
}.
End Segment.

Module FeatureSegment.
Record t : Type := mk {
  id : Z;
  feature_id : Z;
  segment_id : Z;
  environment_id : Z;
  priority : Z
}.

(** The row with the primary key that an [INSERT] assigned. *)
Definition with_id (pk : Z) (row : t) : t :=
  mk pk (feature_id row) (segment_id row) (environment_id row) (priority row).
End FeatureSegment.

Module FeatureState.
Record t : Type := mk {
  id : Z;
  feature_id : Z;
  environment_id : Z;
  identity_id : option Z;
  feature_segment : option FeatureSegment.t;
  enabled : bool;
  feature_state_value : option string;
  live_from : option Z;
  version : option Z
}.

(** The row with the primary key that an [INSERT] assigned. *)
Definition with_id (pk : Z) (row : t) : t :=
  mk pk (feature_id row) (environment_id row) (identity_id row)
     (feature_segment row) (enabled row) (feature_state_value row)
     (live_from row) (version row).
End FeatureState.

(** A [Q] object over feature states is the row predicate it denotes;
    [&] and [|] are pointwise conjunction and disjunction. *)
Definition Q : Type := FeatureState.t → bool.
Definition Q_and (q1 q2 : Q) : Q := λ row, q1 row && q2 row.
Definition Q_or (q1 q2 : Q) : Q := λ row, q1 row || q2 row.
Infix "&&&" := Q_and (at level 40, left associativity).
Infix "|||" := Q_or (at level 50, left associativity).

(** Python's [str] on an integer: its decimal numeral, with a leading
    minus sign when negative. *)
Definition str (n : Z) : string := pretty n.

(** ** Exceptions and queries of the other methods *)

(** The exceptions that the methods below raise or let through. *)
Inductive error : Set :=
| StopIteration
| DoesNotExist
| MultipleObjectsReturned
| IndexError
| RuntimeError (message : string)
| ValueError (message : string)
| AttributeError (message : string)
| GithubError (message : string)
| PermissionDenied (message : string).

#[global] Instance error_ret : MRet (sum error) := λ A x, inr x.
#[global] Instance error_bind : MBind (sum error) := λ A B f m,
  match m with
  | inl e => inl e
  | inr x => f x
  end.

(** [QuerySet.get()]: the only row, [DoesNotExist] when there is none and
    [MultipleObjectsReturned] when there are several. *)
Definition queryset_get {A : Type} (rows : list A) : error + A :=
  match rows with
  | [] => inl DoesNotExist
  | [row] => inr row
  | _ => inl MultipleObjectsReturned
  end.

(** [QuerySet.exists()] *)
Definition queryset_exists {A : Type} (rows : list A) : bool :=
  match rows with
  | [] => false
  | _ => true
  end.

(** The truth value of an optional integer: [None] and [0] are falsy. *)
Definition truthy_int (n : option Z) : bool :=
  match n with
  | Some n => bool_decide (n ≠ 0)
  | None => false
  end.

Module EnvironmentAPIKey.
Record t : Type := mk {
  id : Z;
  environment_id : Z;
  key : string;
  name : string;
  expires_at : option Z;
  active : bool
}.

(** [now] is [timezone.now()]. A [datetime] is truthy, so [not
    self.expires_at] holds for [None] only. *)
Definition is_valid (self : t) (now : Z) : bool :=
  active self
  && match expires_at self with
     | None => true
     | Some expires_at => bool_decide (now < expires_at)
     end.
End EnvironmentAPIKey.

(** ** [Environment] *)

Module Environment.
Record t : Type := mk {
  id : Z;
  name : string;
  api_key : string;
  project : Project.t;
  allow_client_traits : bool;
  hide_disabled_flags : option bool;
  use_mv_v2_evaluation : bool;
  hide_sensitive_data : bool
}.

(** [getattr(request, "originated_from", RequestOrigin.CLIENT)] *)
Definition request_origin (request : Request.t) : RequestOrigin.t :=
  default RequestOrigin.CLIENT (Request.originated_from request).

Definition trait_persistence_allowed (self : t) (request : Request.t) : bool :=
  allow_client_traits self
  || bool_decide (request_origin request = RequestOrigin.SERVER).

Definition get_hide_disabled_flags (self : t) : bool :=
  match hide_disabled_flags self with
  | Some b => b
  | None => Project.hide_disabled_flags (project self)
  end.

(** The tables that [clone] reads and writes. *)
Record Db : Type := mkDb {
  environments : list t;
  feature_segments : list FeatureSegment.t;
  feature_states : list FeatureState.t
}.

(** The primary key that the database gives to the next inserted row. *)
Definition fresh_id (ids : list Z) : Z := 1 + foldr Z.max 0 ids.

(** [save()] of an instance whose [id] is [None]: an [INSERT] that
    assigns the primary key. *)
Definition with_id (pk : Z) (row : t) : t :=
  mk pk (name row) (api_key row) (project row) (allow_client_traits row)
     (hide_disabled_flags row) (use_mv_v2_evaluation row)
     (hide_sensitive_data row).

Definition save_environment (row : t) (db : Db) : t * Db :=
  let row := with_id (fresh_id (id <$> environments db)) row in
  (row, mkDb (environments db ++ [row]) (feature_segments db)
             (feature_states db)).

Definition save_feature_segment (row : FeatureSegment.t) (db : Db) : Db :=
  let row :=
    FeatureSegment.with_id
      (fresh_id (FeatureSegment.id <$> feature_segments db)) row in
  mkDb (environments db) (feature_segments db ++ [row]) (feature_states db).

Definition save_feature_state (row : FeatureState.t) (db : Db) : Db :=
  let row :=
    FeatureState.with_id
      (fresh_id (FeatureState.id <$> feature_states db)) row in
  mkDb (environments db) (feature_segments db) (feature_states db ++ [row]).

(** [self.feature_segments.all()] *)
Definition self_feature_segments (self : t) (db : Db)
  : list FeatureSegment.t :=
  filter (λ row, FeatureSegment.environment_id row = id self)
         (feature_segments db).

(** [self.feature_states] *)
Definition self_feature_states (self : t) (db : Db) : list FeatureState.t :=
  filter (λ row, FeatureState.environment_id row = id self)
         (feature_states db).

Section clone.
(** The value that [create_hash()] draws in this call. *)
Variable create_hash : string.

(** [FeatureSegment.clone] and [FeatureState.clone] are defined in
    [features/models.py]. Each builds a copy of its receiver for the
    given environment and saves it; the copy it builds, which may
    depend on the rows already saved, is left open here. *)
Variable FeatureSegment_clone
  : Db → FeatureSegment.t → t → FeatureSegment.t.
Variable FeatureState_clone
  : Db → FeatureState.t → t → option Z → FeatureState.t.

Definition clone (self : t) (name : string) (api_key : option string)
    (db : Db) : t * Db :=
  let clone :=
    mk (id self) name
       match api_key with
       | Some key => if decide (key = "") then create_hash else key
       | None => create_hash
       end
       (project self) (allow_client_traits self)
       (hide_disabled_flags self) (use_mv_v2_evaluation self)
       (hide_sensitive_data self) in
  let '(clone, db) := save_environment clone db in
  let db :=
    foldl (λ db feature_segment,
             save_feature_segment
               (FeatureSegment_clone db feature_segment clone) db)
          db (self_feature_segments self db) in
  (* Since identities are closely tied to the enviroment
     it does not make much sense to clone them, hence
     only clone feature states without identities *)
  let db :=
    foldl (λ db feature_state,
             save_feature_state
               (FeatureState_clone db feature_state clone
                  (FeatureState.live_from feature_state)) db)
          db
          (filter (λ row, FeatureState.identity_id row = None)
                  (self_feature_states self db)) in
  (clone, db).

(** [row] is what [source.clone(clone)] saved, for a feature segment and
    for a feature state. *)
Definition cloned_feature_segment (clone : t)
    (source row : FeatureSegment.t) : Prop :=
  ∃ db pk, row = FeatureSegment.with_id pk (FeatureSegment_clone db source clone).

Definition cloned_feature_state (clone : t)
    (source row : FeatureState.t) : Prop :=
  ∃ db pk,
    row = FeatureState.with_id pk
            (FeatureState_clone db source clone
               (FeatureState.live_from source)).
End clone.

(** *** The environment cache *)

(** The rows of
    [cls.objects.filter(Q(api_key=api_key) | Q(api_keys__key=api_key)).distinct()]:
    the environments with that client key or with a server key equal to it. *)
Definition with_api_key (key : string) (environments : list t)
    (api_keys : list EnvironmentAPIKey.t) : list t :=
  filter (λ row,
            api_key row = key
            ∨ Exists (λ k,
                        EnvironmentAPIKey.environment_id k = id row
                        ∧ EnvironmentAPIKey.key k = key)
                     api_keys)
         environments.

(** [environment_cache] maps an API key to an environment; entries are
    read as long as they are there, their timeout is not modelled.
    [environments] and [api_keys] are the rows of the two tables; [key] is
    the argument [api_key]. *)
Definition get_from_cache (key : option string)
    (environment_cache : gmap string t) (environments : list t)
    (api_keys : list EnvironmentAPIKey.t)
  : (error + option t) * gmap string t :=
  match key with
  | None => (inr None, environment_cache)
  | Some key =>
      if decide (key = "") then (inr None, environment_cache)
      else
        match environment_cache !! key with
        | Some environment => (inr (Some environment), environment_cache)
        | None =>
            match queryset_get (with_api_key key environments api_keys) with
            | inr environment =>
                (inr (Some environment),
                 <[key := environment]> environment_cache)
            | inl DoesNotExist => (inr None, environment_cache)
            | inl e => (inl e, environment_cache)
            end
        end
  end.

(** [environment_segments_cache] maps an environment id to a list of
    segments. [overridden_segments] is what the query
    [Segment.objects.filter(feature_segments__feature_states__environment=self)]
    yields at the time of the call. *)
Definition get_segments_from_cache (self : t)
    (environment_segments_cache : gmap Z (list Segment.t))
    (overridden_segments : list Segment.t)
  : list Segment.t * gmap Z (list Segment.t) :=
  match environment_segments_cache !! id self with
  | Some (segment :: segments) =>
      (segment :: segments, environment_segments_cache)
  | _ =>
      (overridden_segments,
       <[id self := overridden_segments]> environment_segments_cache)
  end.

(** *** [get_feature_state] *)

(** The keyword arguments that [get_feature_state] passes to [filter]. *)
Inductive lookup : Type :=
| feature_segment_id (value : option Z)
| identity_id (value : option Z).

Definition lookup_holds (row : FeatureState.t) (l : lookup) : Prop :=
  match l with
  | feature_segment_id value =>
      FeatureSegment.id <$> FeatureState.feature_segment row = value
  | identity_id value => FeatureState.identity_id row = value
  end.

#[global] Instance lookup_holds_dec row l : Decision (lookup_holds row l).
Proof. destruct l; simpl; apply _. Defined.

(** [filter_kwargs] is [None] when the caller passes nothing; an empty
    dictionary is falsy as well. *)
Definition get_feature_state (self : t) (feature_id : Z)
    (filter_kwargs : option (list lookup)) (feature_states : list FeatureState.t)
  : error + FeatureState.t :=
  let filter_kwargs :=
    match filter_kwargs with
    | None | Some [] => [feature_segment_id None; identity_id None]
    | Some filter_kwargs => filter_kwargs
    end in
  match
    filter (λ fs, FeatureState.feature_id fs = feature_id)
      (filter (λ row,
                 FeatureState.environment_id row = id self
                 ∧ Forall (lookup_holds row) filter_kwargs)
              feature_states)
  with
  | fs :: _ => inr fs
  | [] => inl StopIteration
  end.

(** *** [write_environments_to_dynamodb] *)

(** [is_enabled] is [environment_wrapper.is_enabled]; [written] collects
    the arguments of [environment_wrapper.write_environments].
    [filter_for_document_builder] filters as [filter] does. *)
Definition write_environments_to_dynamodb (environment_id project_id : option Z)
    (environments : list t) (is_enabled : bool) (written : list (list t))
  : (error + ()) * list (list t) :=
  let environments :=
    if truthy_int environment_id
    then filter (λ row, Some (id row) = environment_id) environments
    else filter (λ row, Some (Project.id (project row)) = project_id)
                environments in
  match environments with
  | [] => (inr (), written)
  | first :: rest =>
      let first_project := project first in
      if bool_decide
           (Forall (λ environment,
                      Project.id (project environment)
                      = Project.id first_project) rest)
      then
        if Project.enable_dynamo_db first_project && is_enabled
        then (inr (), written ++ [environments])
        else (inr (), written)
      else
        (inl (RuntimeError
                "Environments must all belong to the same project."),
         written)
  end.

(** *** [get_environment_document] *)

Section environment_document.
(** A document is a dictionary, here the list of its items;
    [map_environment_to_document] is the flag engine's mapper and
    [CACHE_ENVIRONMENT_DOCUMENT_SECONDS] the setting of that name. *)
Context {V : Type}.
Variable map_environment_to_document : t → list (string * V).
Variable CACHE_ENVIRONMENT_DOCUMENT_SECONDS : Z.

Definition _get_environment_document_from_db (key : string)
    (environments : list t) : error + list (string * V) :=
  environment ← queryset_get (filter (λ row, api_key row = key) environments);
  mret (map_environment_to_document environment).

(** An empty document in the cache counts as none. *)
Definition _get_environment_document_from_cache (key : string)
    (environment_document_cache : gmap string (list (string * V)))
    (environments : list t)
  : (error + list (string * V)) * gmap string (list (string * V)) :=
  match environment_document_cache !! key with
  | Some (item :: items) => (inr (item :: items), environment_document_cache)
  | _ =>
      match _get_environment_document_from_db key environments with
      | inl e => (inl e, environment_document_cache)
      | inr environment_document =>
          (inr environment_document,
           <[key := environment_document]> environment_document_cache)
      end
  end.

Definition get_environment_document (key : string)
    (environment_document_cache : gmap string (list (string * V)))
    (environments : list t)
  : (error + list (string * V)) * gmap string (list (string * V)) :=
  if bool_decide (CACHE_ENVIRONMENT_DOCUMENT_SECONDS > 0)
  then _get_environment_document_from_cache key environment_document_cache
         environments
  else (_get_environment_document_from_db key environments,
        environment_document_cache).
End environment_document.
End Environment.

(** ** Identity migration state *)

(** The truth value of an optional string: [None] and the empty string
    are falsy. *)
Definition truthy_str (s : option string) : bool :=
  match s with
  | Some s => bool_decide (s ≠ "")
  | None => false
  end.

Module ProjectIdentityMigrationStatus.
Inductive t : Type :=
  | MIGRATION_SCHEDULED
  | MIGRATION_COMPLETED
  | MIGRATION_IN_PROGRESS
  | MIGRATION_NOT_STARTED
  | NOT_APPLICABLE.

(** How far a migration has come. *)
Definition progress (status : t) : nat :=
  match status with
  | NOT_APPLICABLE => 0
  | MIGRATION_NOT_STARTED => 1
  | MIGRATION_SCHEDULED => 2
  | MIGRATION_IN_PROGRESS => 3
  | MIGRATION_COMPLETED => 4
  end.
End ProjectIdentityMigrationStatus.

Module DynamoProjectMetadata.
Import ProjectIdentityMigrationStatus.

Record t : Type := mk {
  id : Z;
  migration_start_time : option string;
  migration_end_time : option string;
  triggered_at : option string
}.

(** [project_metadata_table], keyed on [id]. An item is what [asdict]
    gives, and the class builds the object back from the fields of the
    item, so the table holds the objects themselves. *)
Abbreviation Table := (gmap Z t).

Definition get_or_new (project_id : Z) (project_metadata_table : Table) : t :=
  match project_metadata_table !! project_id with
  | Some document => document
  | None => mk project_id None None None
  end.

Definition identity_migration_status (self : t) : ProjectIdentityMigrationStatus.t :=
  if negb (truthy_str (migration_start_time self)) then
    if truthy_str (triggered_at self) then MIGRATION_SCHEDULED
    else MIGRATION_NOT_STARTED
  else if negb (truthy_str (migration_end_time self)) then
    MIGRATION_IN_PROGRESS
  else MIGRATION_COMPLETED.

Definition _save (self : t) (project_metadata_table : Table) : Table :=
  <[id self := self]> project_metadata_table.

(** [now] is [datetime.now().isoformat()]. Each method gives the object
    as it has become and the table after [_save]. *)
Definition trigger_identity_migration (self : t) (now : string)
    (project_metadata_table : Table) : error + t * Table :=
  if truthy_str (triggered_at self)
  then inl (AttributeError "Migration has already been triggered.")
  else
    let self :=
      mk (id self) (migration_start_time self) (migration_end_time self)
         (Some now) in
    inr (self, _save self project_metadata_table).

Definition start_identity_migration (self : t) (now : string)
    (project_metadata_table : Table) : error + t * Table :=
  if truthy_str (migration_start_time self)
  then inl (AttributeError "Migration has already been started.")
  else
    let self :=
      mk (id self) (Some now) (migration_end_time self) (triggered_at self) in
    inr (self, _save self project_metadata_table).

Definition finish_identity_migration (self : t) (now : string)
    (project_metadata_table : Table) : error + t * Table :=
  if truthy_str (migration_end_time self)
  then inl (AttributeError "Migration has already been finished.")
  else
    let self :=
      mk (id self) (migration_start_time self) (Some now) (triggered_at self) in
    inr (self, _save self project_metadata_table).
End DynamoProjectMetadata.

(** ** Traits *)

Module Trait.
(** The [Trait] model lives in [environments/identities/traits/models.py].
    A row is its key, its owner and its value columns ([value_type] and
    the typed column), kept abstract as [D]. *)
Record t (D : Type) : Type := mk {
  trait_key : string;
  identity_id : Z;
  value_data : D
}.
Arguments mk {D} _ _ _.
Arguments trait_key {D} _.
Arguments identity_id {D} _.
Arguments value_data {D} _.
End Trait.

(** One validated item of a request's trait list:
    [{"trait_key": ..., "trait_value": ...}], the value being [None] when
    the request sends [null]. *)
Module TraitDataItem.
Record t (V : Type) : Type := mk {
  trait_key : string;
  trait_value : option V
}.
Arguments mk {V} _ _.
Arguments trait_key {V} _.
Arguments trait_value {V} _.
End TraitDataItem.

(** Exceptions that the modelled code can raise. *)
Inductive exn : Set :=
| KeyError (key : string)
| IntegrityError (key : string)
| TraitPersistenceError
| NotFound
| ValidationError.

(** An insertion-ordered [dict] keyed on integers, as Python iterates it:
    assigning to a present key keeps the key's position, assigning to an
    absent key appends. *)
Module PyDict.
Section dict.
Context {A : Type}.

Definition t : Type := list (Z * A).

Fixpoint get (d : t) (k : Z) : option A :=
  match d with
  | [] => None
  | (k', v) :: d' => if decide (k = k') then Some v else get d' k
  end.

Fixpoint set (d : t) (k : Z) (v : A) : t :=
  match d with
  | [] => [(k, v)]
  | (k', v') :: d' =>
      if decide (k = k') then (k, v) :: d' else (k', v') :: set d' k v
  end.

Definition keys (d : t) : list Z := d.*1.
Definition values (d : t) : list A := d.*2.
End dict.
Arguments t : clear implicits.
End PyDict.

(** The error monad of code that can raise. *)
#[global] Instance exn_ret : MRet (sum exn) := λ A x, inr x.
#[global] Instance exn_bind : MBind (sum exn) := λ A B f m,
  match m with
  | inl e => inl e
  | inr x => f x
  end.

Definition raise {A : Type} (e : exn) : exn + A := inl e.

(** ** The priority of a feature state *)

Module Priority.
(** The scope of a feature state. A row that carries an identity ranks
    as an identity override whatever else it carries. *)
Inductive override : Type :=
| EnvironmentDefault
| SegmentOverride (feature_segment : FeatureSegment.t)
| IdentityOverride.

Definition override_of (s : FeatureState.t) : override :=
  match FeatureState.identity_id s, FeatureState.feature_segment s with
  | Some _, _ => IdentityOverride
  | None, Some feature_segment => SegmentOverride feature_segment
  | None, None => EnvironmentDefault
  end.

(** Modelled from the spec: [FeatureState.__gt__] is defined in
    [features/models.py], which is not part of the sources at hand. The
    comparison is the order of section 4.5: identity override highest,
    then segment overrides by ascending [FeatureSegment] priority, ties
    on the priority broken by descending [FeatureSegment] id, then the
    environment default. Two identity overrides, and two environment
    defaults, compare equal. *)
Definition gt (self other : FeatureState.t) : bool :=
  match override_of self, override_of other with
  | IdentityOverride, IdentityOverride => false
  | IdentityOverride, _ => true
  | SegmentOverride a, SegmentOverride b =>
      (FeatureSegment.priority a <? FeatureSegment.priority b)
      || ((FeatureSegment.priority a =? FeatureSegment.priority b)
          && (FeatureSegment.id b <? FeatureSegment.id a))
  | SegmentOverride _, EnvironmentDefault => true
  | _, _ => false
  end.

(** The ordering that the resolver's contract names: the tier of the
    override, and among segment overrides the lower priority integer
    first. [tier] and [outranks] are only used to state that contract. *)
Definition tier (s : FeatureState.t) : Z :=
  match override_of s with
  | IdentityOverride => 2
  | SegmentOverride _ => 1
  | EnvironmentDefault => 0
  end.

(** [outranks a b]: [a] is strictly above [b] in that ordering. *)
Definition outranks (a b : FeatureState.t) : Prop :=
  tier b < tier a
  ∨ ∃ fa fb, override_of a = SegmentOverride fa
             ∧ override_of b = SegmentOverride fb
             ∧ FeatureSegment.priority fa < FeatureSegment.priority fb.
End Priority.

(** ** [Identity] *)

Module Identity.
Record t : Type := mk {
  id : Z;
  identifier : string;
  environment : Environment.t
}.

Definition composite_key (self : t) : string :=
  Environment.api_key (environment self) +:+ "_" +:+ identifier self.

Definition get_hash_key (self : t) (use_mv_v2_evaluation : bool) : string :=
  if use_mv_v2_evaluation then composite_key self else str (id self).

(** What one call reads from the database and the caches: the
    [FeatureState] table, the segments that
    [Environment.get_segments_from_cache] and
    [Project.get_segments_from_cache] return, and the identity's stored
    traits, one row per trait key. *)
Record Db (D : Type) : Type := mkDb {
  feature_states : list FeatureState.t;
  environment_segments : list Segment.t;
  project_segments : list Segment.t;
  identity_traits : gmap string D
}.
Arguments mkDb {D} _ _ _ _.
Arguments feature_states {D} _.
Arguments environment_segments {D} _.
Arguments project_segments {D} _.
Arguments identity_traits {D} _.

Section methods.
Context {V D : Type}.

(** [Segment.does_identity_match] ([segments/models.py]), the rule
    tree evaluator; the resolver only filters with it. *)
Variable does_identity_match : Segment.t → t → list (Trait.t D) → bool.

(** [flag > current_flag], that is [FeatureState.__gt__]. *)
Variable gt : FeatureState.t → FeatureState.t → bool.

(** [Trait.generate_trait_value_data], from a Python value ([None]
    included) to the value columns of a trait. *)
Variable generate_trait_value_data : option V → D.

(** [current_trait.trait_value == trait_value] *)
Variable trait_value_eq : D → option V → bool.

(** The columns of a trait object after [setattr] of every item of a
    generated value data. *)
Variable setattrs : D → D → D.

(** A row after the columns listed in [Trait.BULK_UPDATE_FIELDS] are
    written from a trait object. *)
Variable write_bulk_update_fields : D → D → D.

(** [self.identity_traits.all()] *)
Definition identity_traits_all (self : t) (table : gmap string D)
  : list (Trait.t D) :=
  (λ kd : string * D, Trait.mk kd.1 (id self) kd.2) <$> map_to_list table.

Definition get_segments (self : t) (db : Db D)
    (traits : option (list (Trait.t D))) (overrides_only : bool)
  : list Segment.t :=
  let traits :=
    match traits with
    | None => identity_traits_all self (identity_traits db)
    | Some traits => traits
    end in
  let all_segments :=
    if overrides_only then environment_segments db
    else project_segments db in
  filter (λ segment, does_identity_match segment self traits = true)
         all_segments.

(** *** The query of [get_all_feature_states] *)

Definition belongs_to_environment_query (self : t) : Q := λ row,
  bool_decide (FeatureState.environment_id row
               = Environment.id (environment self)).

Definition overridden_for_identity_query (self : t) : Q := λ row,
  bool_decide (FeatureState.identity_id row = Some (id self)).

Definition overridden_for_segment_query (self : t)
    (segments : list Segment.t) : Q := λ row,
  match FeatureState.feature_segment row with
  | Some feature_segment =>
      bool_decide (FeatureSegment.segment_id feature_segment
                   ∈ Segment.id <$> segments)
      && bool_decide (FeatureSegment.environment_id feature_segment
                      = Environment.id (environment self))
  | None => false
  end.

Definition environment_default_query : Q := λ row,
  bool_decide (FeatureState.identity_id row = None)
  && bool_decide (FeatureState.feature_segment row = None).

Definition only_live_versions_query (now : Z) : Q := λ row,
  match FeatureState.live_from row with
  | Some live_from => bool_decide (live_from ≤ now)
  | None => false
  end
  && bool_decide (FeatureState.version row ≠ None).

(** [additional_filters] is [None] when the caller passes nothing or an
    empty [Q()], both of which are falsy. *)
Definition full_query (self : t) (segments : list Segment.t) (now : Z)
    (additional_filters : option Q) : Q :=
  let full_query :=
    only_live_versions_query now
    &&& belongs_to_environment_query self
    &&& (overridden_for_identity_query self
         ||| overridden_for_segment_query self segments
         ||| environment_default_query) in
  match additional_filters with
  | Some additional_filters => full_query &&& additional_filters
  | None => full_query
  end.

Definition all_flags (self : t) (db : Db D) (now : Z)
    (traits : option (list (Trait.t D))) (additional_filters : option Q)
  : list FeatureState.t :=
  let segments := get_segments self db traits true in
  filter (λ row, full_query self segments now additional_filters row = true)
         (feature_states db).

(** The candidate rows in the words of the resolver's contract: live,
    versioned rows of the identity's environment that are an override for
    this identity, an override for a matching segment in this environment,
    or an environment default. *)
Definition candidate (self : t) (db : Db D) (now : Z)
    (traits : option (list (Trait.t D))) (row : FeatureState.t) : Prop :=
  row ∈ feature_states db
  ∧ (∃ live_from,
       FeatureState.live_from row = Some live_from ∧ live_from ≤ now)
  ∧ FeatureState.version row ≠ None
  ∧ FeatureState.environment_id row = Environment.id (environment self)
  ∧ (FeatureState.identity_id row = Some (id self)
     ∨ (∃ feature_segment segment,
          FeatureState.feature_segment row = Some feature_segment
          ∧ segment ∈ get_segments self db traits true
          ∧ Segment.id segment = FeatureSegment.segment_id feature_segment
          ∧ FeatureSegment.environment_id feature_segment
            = Environment.id (environment self))
     ∨ (FeatureState.identity_id row = None
        ∧ FeatureState.feature_segment row = None)).

(** *** The loop of [get_all_feature_states] *)

(** One iteration of [for flag in all_flags]. *)
Definition keep_highest_priority (identity_flags : PyDict.t FeatureState.t)
    (flag : FeatureState.t) : PyDict.t FeatureState.t :=
  match PyDict.get identity_flags (FeatureState.feature_id flag) with
  | None => PyDict.set identity_flags (FeatureState.feature_id flag) flag
  | Some current_flag =>
      if gt flag current_flag
      then PyDict.set identity_flags (FeatureState.feature_id flag) flag
      else identity_flags
  end.

Definition identity_flags (all_flags : list FeatureState.t)
  : PyDict.t FeatureState.t :=
  foldl keep_highest_priority [] all_flags.

(** What the dictionary satisfies after the rows [rows] were visited: it
    is keyed on the feature of its values, holds visited rows only, and
    has an entry for the feature of every visited row. *)
Record visited (rows : list FeatureState.t)
    (d : PyDict.t FeatureState.t) : Prop := mkVisited {
  visited_NoDup : NoDup (PyDict.keys d);
  visited_entry k v :
    PyDict.get d k = Some v → FeatureState.feature_id v = k ∧ v ∈ rows;
  visited_covered c :
    c ∈ rows → is_Some (PyDict.get d (FeatureState.feature_id c))
}.

(** The entry of a feature is a row that no visited row of the feature
    is greater than. *)
Definition highest (rows : list FeatureState.t)
    (d : PyDict.t FeatureState.t) : Prop :=
  ∀ k v c, PyDict.get d k = Some v → c ∈ rows →
           FeatureState.feature_id c = k → gt c v = false.

(** The two [return] statements. *)
Definition returned_flags (hide_disabled_flags : bool)
    (identity_flags : PyDict.t FeatureState.t) : list FeatureState.t :=
  if hide_disabled_flags
  then filter (λ value, FeatureState.enabled value = true)
              (PyDict.values identity_flags)
  else PyDict.values identity_flags.

Definition get_all_feature_states (self : t) (db : Db D) (now : Z)
    (traits : option (list (Trait.t D))) (additional_filters : option Q)
  : list FeatureState.t :=
  returned_flags
    (Environment.get_hide_disabled_flags (environment self))
    (identity_flags (all_flags self db now traits additional_filters)).

(** The same loop as a transition system on configurations (the
    dictionary built so far, the rows still to visit): one transition
    per iteration, one rule per branch of the loop body. *)
Inductive loop_step
  : PyDict.t FeatureState.t * list FeatureState.t
    → PyDict.t FeatureState.t * list FeatureState.t → Prop :=
| step_first_flag identity_flags flag rest :
    PyDict.get identity_flags (FeatureState.feature_id flag) = None →
    loop_step (identity_flags, flag :: rest)
      (PyDict.set identity_flags (FeatureState.feature_id flag) flag, rest)
| step_higher_flag identity_flags flag current_flag rest :
    PyDict.get identity_flags (FeatureState.feature_id flag)
      = Some current_flag →
    gt flag current_flag = true →
    loop_step (identity_flags, flag :: rest)
      (PyDict.set identity_flags (FeatureState.feature_id flag) flag, rest)
| step_not_higher_flag identity_flags flag current_flag rest :
    PyDict.get identity_flags (FeatureState.feature_id flag)
      = Some current_flag →
    gt flag current_flag = false →
    loop_step (identity_flags, flag :: rest) (identity_flags, rest).

(** An invocation on the rows [all_flags] that returns [output]: the
    loop runs from the empty dictionary until no row is left, then one
    of the two [return] statements is taken. *)
Definition invocation (hide_disabled_flags : bool)
    (all_flags output : list FeatureState.t) : Prop :=
  ∃ identity_flags,
    rtc loop_step ([], all_flags) (identity_flags, [])
    ∧ output = returned_flags hide_disabled_flags identity_flags.

(** *** Traits *)

(** [Trait.objects.bulk_create(objs, ignore_conflicts=...)] on the rows
    of one identity: the rows are inserted in order; a row whose key is
    taken is skipped when conflicts are ignored and raises
    [IntegrityError] otherwise. *)
Fixpoint bulk_create (ignore_conflicts : bool) (objs : list (Trait.t D))
    (table : gmap string D) : exn + gmap string D :=
  match objs with
  | [] => mret table
  | obj :: objs =>
      match table !! Trait.trait_key obj with
      | None =>
          bulk_create ignore_conflicts objs
            (<[Trait.trait_key obj := Trait.value_data obj]> table)
      | Some _ =>
          if ignore_conflicts
          then bulk_create ignore_conflicts objs table
          else raise (IntegrityError (Trait.trait_key obj))
      end
  end.

Definition generate_traits (self : t)
    (trait_data_items : list (TraitDataItem.t V)) (persist : bool)
    (table : gmap string D) : exn + (list (Trait.t D) * gmap string D) :=
  (* Remove traits having Null(None) values *)
  let trait_data_items :=
    filter (λ trait, TraitDataItem.trait_value trait ≠ None)
           trait_data_items in
  let trait_models :=
    (λ trait_data_item,
       let trait_key := TraitDataItem.trait_key trait_data_item in
       let trait_value := TraitDataItem.trait_value trait_data_item in
       Trait.mk trait_key (id self) (generate_trait_value_data trait_value))
    <$> trait_data_items in
  table ← (if persist then bulk_create false trait_models table
           else mret table);
  mret (trait_models, table).

(** The local variables of [update_traits]. [current_traits] holds the
    trait objects, which the loop mutates in place; [updated_traits]
    holds references to them, here their keys. *)
Record update_state : Type := mkUpdate {
  current_traits : gmap string D;
  keys_to_delete : list string;
  new_traits : list (Trait.t D);
  updated_traits : list string
}.

(** [current_traits[trait_key]] *)
Definition getitem (d : gmap string D) (key : string) : exn + D :=
  match d !! key with
  | Some value => mret value
  | None => raise (KeyError key)
  end.

(** One iteration of [for trait_data_item in trait_data_items]. *)
Definition update_traits_item (self : t) (st : update_state)
    (trait_data_item : TraitDataItem.t V) : exn + update_state :=
  let trait_key := TraitDataItem.trait_key trait_data_item in
  let trait_value := TraitDataItem.trait_value trait_data_item in
  match trait_value with
  | None =>
      mret (mkUpdate (current_traits st)
              (keys_to_delete st ++ [trait_key])
              (new_traits st) (updated_traits st))
  | Some _ =>
      let trait_value_data := generate_trait_value_data trait_value in
      if decide (is_Some (current_traits st !! trait_key)) then
        current_trait ← getitem (current_traits st) trait_key;
        if trait_value_eq current_trait trait_value then mret st
        else
          mret (mkUpdate
                  (<[trait_key := setattrs current_trait trait_value_data]>
                     (current_traits st))
                  (keys_to_delete st) (new_traits st)
                  (updated_traits st ++ [trait_key]))
      else
        mret (mkUpdate (current_traits st) (keys_to_delete st)
                (new_traits st
                 ++ [Trait.mk trait_key (id self) trait_value_data])
                (updated_traits st))
  end.

Fixpoint update_traits_loop (self : t) (st : update_state)
    (trait_data_items : list (TraitDataItem.t V)) : exn + update_state :=
  match trait_data_items with
  | [] => mret st
  | trait_data_item :: trait_data_items =>
      st ← update_traits_item self st trait_data_item;
      update_traits_loop self st trait_data_items
  end.

(** The keys that a list of items nulls: what the loop appends to
    [keys_to_delete]. *)
Definition nulled_keys (trait_data_items : list (TraitDataItem.t V))
  : list string :=
  TraitDataItem.trait_key
  <$> filter (λ item, TraitDataItem.trait_value item = None)
             trait_data_items.

(** [self.identity_traits.filter(trait_key__in=keys).delete()] *)
Definition delete_keys (keys : list string) (table : gmap string D)
  : gmap string D :=
  filter (λ kd : string * D, kd.1 ∉ keys) table.

(** [Trait.objects.bulk_update(objs, fields=Trait.BULK_UPDATE_FIELDS)]:
    an [UPDATE] per object, keyed on the row; an object whose row is
    gone updates nothing. *)
Definition bulk_update (objects : gmap string D) (objs : list string)
    (table : gmap string D) : gmap string D :=
  foldl (λ table key,
           match objects !! key, table !! key with
           | Some obj, Some row =>
               <[key := write_bulk_update_fields row obj]> table
           | _, _ => table
           end) table objs.

(** Returns the returned queryset and the trait table after the call. *)
Definition update_traits (self : t)
    (trait_data_items : list (TraitDataItem.t V)) (table : gmap string D)
  : exn + (list (Trait.t D) * gmap string D) :=
  st ← update_traits_loop self (mkUpdate table [] [] []) trait_data_items;
  let table :=
    if decide (keys_to_delete st = []) then table
    else delete_keys (keys_to_delete st) table in
  let table := bulk_update (current_traits st) (updated_traits st) table in
  table ← bulk_create true (new_traits st) table;
  mret (identity_traits_all self table, table).
End methods.
End Identity.

(** ** Trait persistence policy *)

Module TraitPersistencePermissions.
Definition message : string :=
  "Organisation is not authorised to store traits.".

(** [request.environment] is the argument. *)
Definition has_permission (environment : Environment.t) : bool :=
  Organisation.persist_trait_data
    (Project.organisation (Environment.project environment)).

Definition has_object_permission : bool := false.
End TraitPersistencePermissions.

Module EdgeIdentityViewSet.
(** A [rest_framework] response: its data and its status code. *)
Record Response (Data : Type) : Type := mkResponse {
  data : Data;
  status : Z
}.
Arguments mkResponse {Data} _ _.
Arguments data {Data} _.
Arguments status {Data} _.

Definition HTTP_200_OK : Z := 200.

(** The double quote. *)
Definition quote : Ascii.ascii := Ascii.ascii_of_nat 34.

(** [s.startswith(c)] and [s.endswith(c)] for a string [c] of one
    character, and [s.replace] of [c] by the empty string. *)
Definition startswith (c : Ascii.ascii) (s : string) : bool :=
  match s with
  | String a _ => bool_decide (a = c)
  | EmptyString => false
  end.

Fixpoint endswith (c : Ascii.ascii) (s : string) : bool :=
  match s with
  | EmptyString => false
  | String a EmptyString => bool_decide (a = c)
  | String _ s => endswith c s
  end.

Fixpoint remove (c : Ascii.ascii) (s : string) : string :=
  match s with
  | EmptyString => EmptyString
  | String a s => if decide (a = c) then remove c s else String a (remove c s)
  end.

(** The keys of [dynamo_identifier_search_functions]. *)
Inductive search_function : Type := EQUAL | BEGINS_WITH.

(** The condition that the function of a key builds:
    [Key("identifier").eq(value)] holds of the identifiers equal to
    [value], [Key("identifier").begins_with(value)] of those that start
    with it. *)
Definition search_condition (function : search_function) (value : string)
    (identifier : string) : bool :=
  match function with
  | EQUAL => bool_decide (identifier = value)
  | BEGINS_WITH => String.prefix value identifier
  end.

Definition _get_search_function_and_value (search_query : string)
  : search_function * string :=
  if startswith quote search_query && endswith quote search_query
  then (EQUAL, remove quote search_query)
  else (BEGINS_WITH, search_query).

Section update_traits.
(** The identity document stored in DynamoDB, the engine's identity
    and trait models, and the JSON body of a request. *)
Context {Document IdentityModel TraitModel Data : Type}.

(** [build_identity_model] and [build_identity_dict] of the flag
    engine. *)
Variable build_identity_model : Document → IdentityModel.
Variable build_identity_dict : IdentityModel → Document.

(** [trait_schema.load], [None] when it raises
    [marshmallow.ValidationError], and [trait_schema.dump]. *)
Variable trait_schema_load : Data → option TraitModel.
Variable trait_schema_dump : TraitModel → Data.

(** The engine's [identity.update_traits]: the identity after the
    update and whether any trait changed. *)
Variable identity_update_traits
  : IdentityModel → list TraitModel → IdentityModel * bool.

(** [object] is what [self.get_object()] yields: the stored document,
    or the 404 it raises. [dynamo] is the list of documents written
    with [put_item] so far. The view reads [request.data] only. *)
Definition update_traits (environment : Environment.t)
    (request : Request.t) (request_data : Data)
    (object : exn + Document) (dynamo : list Document)
  : (exn + Response Data) * list Document :=
  if negb (Organisation.persist_trait_data
             (Project.organisation (Environment.project environment)))
  then (raise TraitPersistenceError, dynamo)
  else
    match object with
    | inl e => (raise e, dynamo)
    | inr document =>
        let identity_model := build_identity_model document in
        match trait_schema_load request_data with
        | None => (raise ValidationError, dynamo)
        | Some trait =>
            let '(identity_model, traits_updated) :=
              identity_update_traits identity_model [trait] in
            let dynamo :=
              if traits_updated
              then dynamo ++ [build_identity_dict identity_model]
              else dynamo in
            (inr (mkResponse (trait_schema_dump trait) HTTP_200_OK),
             dynamo)
        end
    end.
End update_traits.

(** Trait persistence is disallowed for a request, in the words of the
    error taxonomy: the organisation does not persist traits, or client
    traits are off in the environment and the request did not come with a
    server key. *)
Definition trait_persistence_disallowed (environment : Environment.t)
    (request : Request.t) : Prop :=
  Organisation.persist_trait_data
    (Project.organisation (Environment.project environment)) = false
  ∨ Environment.trait_persistence_allowed environment request = false.
End EdgeIdentityViewSet.


(** ** Python strings *)

(** A Python [str] whose characters matter one by one is the list of its
    code points. *)
Module Str.
Definition t : Type := list Z.

(** The code points of a text in ASCII. *)
Definition of_string (s : string) : t :=
  (λ c, Z.of_nat (Ascii.nat_of_ascii c)) <$> String.list_ascii_of_string s.

Definition SPACE : Z := 32.
Definition AMPERSAND : Z := 38.
Definition EQUALS : Z := 61.

(** [str.isspace] of one character: the characters that [str.strip]
    removes when it is called without an argument. *)
Definition isspace (c : Z) : bool :=
  bool_decide
    (9 ≤ c ≤ 13 ∨ 28 ≤ c ≤ 32 ∨ c = 133 ∨ c = 160 ∨ c = 5760
     ∨ 8192 ≤ c ≤ 8202 ∨ c = 8232 ∨ c = 8233 ∨ c = 8239 ∨ c = 8287
     ∨ c = 12288).

Fixpoint lstrip (s : t) : t :=
  match s with
  | [] => []
  | c :: s' => if isspace c then lstrip s' else s
  end.

Definition rstrip (s : t) : t := reverse (lstrip (reverse s)).

Definition strip (s : t) : t := rstrip (lstrip s).

(** [s.split(sep)] for a separator of one character. *)
Fixpoint split (sep : Z) (s : t) : list t :=
  match s with
  | [] => [[]]
  | c :: s =>
      if decide (c = sep) then [] :: split sep s
      else
        match split sep s with
        | part :: parts => (c :: part) :: parts
        | [] => [[c]]
        end
  end.

(** [sep.join(parts)] for a separator of one character. *)
Fixpoint join (sep : Z) (parts : list t) : t :=
  match parts with
  | [] => []
  | [part] => part
  | part :: parts => part ++ sep :: join sep parts
  end.
End Str.

(** ** GitHub helpers *)

Module github_helpers.
(** [dict] of a list of lists: each must have two elements, a key and a
    value, or [ValueError] is raised, here [None]; a later item of a key
    replaces an earlier one. *)
Fixpoint dict (items : list (list Str.t)) (d : gmap Str.t Str.t)
  : option (gmap Str.t Str.t) :=
  match items with
  | [] => Some d
  | [key; value] :: items => dict items (<[key := value]> d)
  | _ => None
  end.

Definition convert_response_data_to_dictionary (text : Str.t)
  : error + gmap Str.t Str.t :=
  match dict (Str.split Str.EQUALS <$> Str.split Str.AMPERSAND text) ∅ with
  | Some d => inr d
  | None => inl (GithubError "Malformed data received from Github")
  end.

Definition get_first_and_last_name (full_name : Str.t) : list Str.t :=
  if decide (full_name = []) then [[]; []]
  else
    let names := Str.split Str.SPACE (Str.strip full_name) in
    if decide (length names = 2%nat) then names else [full_name; []].

(** What [convert_response_data_to_dictionary] is meant to read: the
    pairs of a key and a value, each written [key=value], put together
    with [&]. *)
Definition encode (pairs : list (Str.t * Str.t)) : Str.t :=
  Str.join Str.AMPERSAND ((λ pair, pair.1 ++ Str.EQUALS :: pair.2) <$> pairs).
End github_helpers.

(** ** Users and permissions *)

Module UserOrganisation.
Record t : Type := mk {
  user_id : Z;
  organisation_id : Z;
  role : string
}.
End UserOrganisation.

(** A row of [UserProjectPermission] or [UserEnvironmentPermission], and
    of their group counterparts: [subject_id] is the user or the group,
    [object_id] the project or the environment, [permissions] the keys of
    the permissions attached to the row. *)
Module PermissionRow.
Record t : Type := mk {
  subject_id : Z;
  object_id : Z;
  admin : bool;
  permissions : list string
}.
End PermissionRow.

Module UserPermissionGroupMembership.
Record t : Type := mk {
  userpermissiongroup_id : Z;
  ffadminuser_id : Z;
  group_admin : bool
}.
End UserPermissionGroupMembership.

Module OrganisationRole.
(** [OrganisationRole.ADMIN.name] *)
Definition ADMIN : string := "ADMIN".
End OrganisationRole.

Module FFAdminUser.
Record t : Type := mk {
  id : Z;
  email : string;
  is_anonymous : bool
}.

(** The tables that the permission checks read. *)
Record Db : Type := mkDb {
  user_organisations : list UserOrganisation.t;
  user_project_permissions : list PermissionRow.t;
  group_project_permissions : list PermissionRow.t;
  user_environment_permissions : list PermissionRow.t;
  group_environment_permissions : list PermissionRow.t;
  memberships : list UserPermissionGroupMembership.t
}.

(** [group__users=self] *)
Definition in_group (self : t) (db : Db) (group_id : Z) : Prop :=
  Exists (λ m,
            UserPermissionGroupMembership.userpermissiongroup_id m = group_id
            ∧ UserPermissionGroupMembership.ffadminuser_id m = id self)
         (memberships db).

#[global] Instance in_group_dec self db group_id
  : Decision (in_group self db group_id).
Proof. unfold in_group. apply _. Defined.

(** [self.userorganisation_set] *)
Definition userorganisation_set (self : t) (db : Db)
  : list UserOrganisation.t :=
  filter (λ row, UserOrganisation.user_id row = id self)
         (user_organisations db).

(** [get_user_organisation] and [get_user_organisation_by_id] run the
    same query; [DoesNotExist] is caught and gives [None]. *)
Definition get_user_organisation_by_id (self : t) (organisation_id : Z)
    (db : Db) : error + option UserOrganisation.t :=
  match
    queryset_get
      (filter (λ row, UserOrganisation.organisation_id row = organisation_id)
              (userorganisation_set self db))
  with
  | inr user_organisation => inr (Some user_organisation)
  | inl DoesNotExist => inr None
  | inl e => inl e
  end.

Definition get_user_organisation (self : t) (organisation : Organisation.t)
    (db : Db) : error + option UserOrganisation.t :=
  get_user_organisation_by_id self (Organisation.id organisation) db.

Definition get_organisation_role (self : t) (organisation : Organisation.t)
    (db : Db) : error + option string :=
  user_organisation ← get_user_organisation self organisation db;
  mret (option_map UserOrganisation.role user_organisation).

(** The result is the truth value of what the method returns. With
    [organisation_id] the variable [role] holds a [UserOrganisation], or
    [None]; a model instance does not compare equal to a string. *)
Definition is_organisation_admin (self : t)
    (organisation : option Organisation.t) (organisation_id : option Z)
    (db : Db) : error + bool :=
  if negb (bool_decide (organisation ≠ None) || truthy_int organisation_id)
     || (bool_decide (organisation ≠ None) && truthy_int organisation_id)
  then
    inl (ValueError
           "Must provide exactly one of organisation or organisation_id")
  else
    match organisation, organisation_id with
    | Some organisation, _ =>
        role ← get_organisation_role self organisation db;
        mret match role with
             | Some role =>
                 bool_decide (role ≠ "")
                 && bool_decide (role = OrganisationRole.ADMIN)
             | None => false
             end
    | None, Some organisation_id =>
        role ← get_user_organisation_by_id self organisation_id db;
        mret false
    | None, None => mret false
    end.

Definition is_project_admin (self : t) (project : Project.t)
    (allow_org_admin : bool) (db : Db) : error + bool :=
  organisation_admin ←
    (if allow_org_admin
     then is_organisation_admin self (Some (Project.organisation project))
            None db
     else mret false);
  if organisation_admin : bool then mret true
  else
    mret
      (queryset_exists
         (filter (λ row,
                    PermissionRow.admin row = true
                    ∧ PermissionRow.subject_id row = id self
                    ∧ PermissionRow.object_id row = Project.id project)
                 (user_project_permissions db))
       || queryset_exists
            (filter (λ row,
                       in_group self db (PermissionRow.subject_id row)
                       ∧ PermissionRow.admin row = true
                       ∧ PermissionRow.object_id row = Project.id project)
                    (group_project_permissions db))).

Definition is_environment_admin (self : t) (environment : Environment.t)
    (allow_project_admin allow_organisation_admin : bool) (db : Db)
  : error + bool :=
  organisation_admin ←
    (if allow_organisation_admin
     then is_organisation_admin self
            (Some (Project.organisation (Environment.project environment)))
            None db
     else mret false);
  if organisation_admin : bool then mret true
  else
    project_admin ←
      (if allow_project_admin
       then is_project_admin self (Environment.project environment) false db
       else mret false);
    if project_admin : bool then mret true
    else
      mret
        (queryset_exists
           (filter (λ row,
                      PermissionRow.admin row = true
                      ∧ PermissionRow.subject_id row = id self
                      ∧ PermissionRow.object_id row
                        = Environment.id environment)
                   (user_environment_permissions db))
         || queryset_exists
              (filter (λ row,
                         in_group self db (PermissionRow.subject_id row)
                         ∧ PermissionRow.admin row = true
                         ∧ PermissionRow.object_id row
                           = Environment.id environment)
                      (group_environment_permissions db))).

(** [permission_key] is a permission key, a string. *)
Definition _is_environment_admin_or_has_permission (self : t)
    (environment : Environment.t) (permission_key : string) (db : Db) : bool :=
  queryset_exists
    (filter (λ row,
               (PermissionRow.object_id row = Environment.id environment
                ∧ PermissionRow.subject_id row = id self)
               ∧ (permission_key ∈ PermissionRow.permissions row
                  ∨ PermissionRow.admin row = true))
            (user_environment_permissions db))
  || queryset_exists
       (filter (λ row,
                  (PermissionRow.object_id row = Environment.id environment
                   ∧ in_group self db (PermissionRow.subject_id row))
                  ∧ (permission_key ∈ PermissionRow.permissions row
                     ∨ PermissionRow.admin row = true))
               (group_environment_permissions db)).

Definition has_environment_permission (self : t) (permission : string)
    (environment : Environment.t) (db : Db) : error + bool :=
  project_admin ←
    is_project_admin self (Environment.project environment) true db;
  if project_admin : bool then mret true
  else
    mret (_is_environment_admin_or_has_permission self environment
            permission db).

Definition belongs_to (self : t) (organisation_id : Z) (db : Db) : bool :=
  bool_decide
    (organisation_id
     ∈ UserOrganisation.organisation_id <$> userorganisation_set self db).

(** [first_name] and [last_name] are the fields of these names. *)
Definition get_full_name (first_name last_name : Str.t) : option Str.t :=
  if decide (first_name = []) then None
  else Some (Str.strip (Str.join Str.SPACE [first_name; last_name])).
End FFAdminUser.

(** A view, reduced to what the permission classes read: its action, its
    [detail] flag and the [environment_api_key] of its URL. *)
Module View.
Record t : Type := mk {
  action : string;
  detail : bool;
  environment_api_key : option string
}.
End View.

(** [Environment.objects.get(api_key=...)]; a missing keyword argument
    is [None] and matches no row. *)
Definition get_environment_by_api_key (api_key : option string)
    (environments : list Environment.t) : error + Environment.t :=
  queryset_get
    (filter (λ row, Some (Environment.api_key row) = api_key) environments).

Module EnvironmentPermissions.
Definition has_object_permission (user : FFAdminUser.t) (view : View.t)
    (obj : Environment.t) (db : FFAdminUser.Db) : error + bool :=
  if FFAdminUser.is_anonymous user then mret false
  else if decide (View.action view = "clone")
  then FFAdminUser.is_project_admin user (Environment.project obj) true db
  else
    environment_admin ← FFAdminUser.is_environment_admin user obj true true db;
    mret (environment_admin
          || bool_decide (View.action view ∈ ["user_permissions"])).
End EnvironmentPermissions.

Module IdentityPermissions.
Definition has_permission (user : FFAdminUser.t) (view : View.t)
    (environments : list Environment.t) (db : FFAdminUser.Db)
  : error + bool :=
  if decide (View.action view = "create") then
    match
      get_environment_by_api_key (View.environment_api_key view) environments
    with
    | inr environment =>
        environment_admin ←
          FFAdminUser.is_environment_admin user environment true true db;
        if environment_admin : bool then mret (View.detail view)
        else mret false
    | inl DoesNotExist => mret false
    | inl e => inl e
    end
  else mret (View.detail view).

(** [obj] is an identity; [environment] is [obj.environment]. *)
Definition has_object_permission (user : FFAdminUser.t)
    (environment : Environment.t) (db : FFAdminUser.Db) : error + bool :=
  organisation_admin ←
    FFAdminUser.is_organisation_admin user
      (Some (Project.organisation (Environment.project environment))) None db;
  if organisation_admin : bool then mret true
  else FFAdminUser.is_environment_admin user environment true true db.
End IdentityPermissions.

Module NestedEnvironmentPermissions.
Section permissions.
(** [VIEW_ENVIRONMENT] of [environments/permissions/constants.py]. *)
Variable VIEW_ENVIRONMENT : string.

(** [__init__]: the map that the instance keeps. *)
Definition init (action_permission_map : option (gmap string string))
  : gmap string string :=
  let action_permission_map := default ∅ action_permission_map in
  match action_permission_map !! "list" with
  | Some _ => action_permission_map
  | None => <["list" := VIEW_ENVIRONMENT]> action_permission_map
  end.

Definition has_permission (action_permission_map : gmap string string)
    (user : FFAdminUser.t) (view : View.t)
    (environments : list Environment.t) (db : FFAdminUser.Db)
  : error + bool :=
  match
    get_environment_by_api_key (View.environment_api_key view) environments
  with
  | inl DoesNotExist => mret false
  | inl e => inl e
  | inr environment =>
      match action_permission_map !! View.action view with
      | Some permission =>
          FFAdminUser.has_environment_permission user permission environment
            db
      | None =>
          if decide (View.action view = "create")
          then FFAdminUser.is_environment_admin user environment true true db
          else mret (View.detail view)
      end
  end.

(** [environment] is [self.get_environment_from_object_callable(obj)]. *)
Definition has_object_permission (action_permission_map : gmap string string)
    (user : FFAdminUser.t) (view : View.t) (environment : Environment.t)
    (db : FFAdminUser.Db) : error + bool :=
  match action_permission_map !! View.action view with
  | Some permission =>
      FFAdminUser.has_environment_permission user permission environment db
  | None => FFAdminUser.is_environment_admin user environment true true db
  end.
End permissions.
End NestedEnvironmentPermissions.

Module EnvironmentAdminPermission.
Definition has_permission (user : FFAdminUser.t) (view : View.t)
    (environments : list Environment.t) (db : FFAdminUser.Db)
  : error + bool :=
  match
    get_environment_by_api_key (View.environment_api_key view) environments
  with
  | inr environment =>
      FFAdminUser.is_environment_admin user environment true true db
  | inl DoesNotExist => mret false
  | inl e => inl e
  end.
End EnvironmentAdminPermission.

(** ** Order of first occurrence *)

(** The distinct elements of a list, in the order in which each occurs
    first. *)
Fixpoint first_occurrences (l : list Z) : list Z :=
  match l with
  | [] => []
  | x :: l => x :: filter (λ y, y ≠ x) (first_occurrences l)
  end.

(** ** Test data

    The records of the test suite's [setUp]: an organisation, a project,
    an environment and the identity ["user1"], with one feature and its
    environment default, a segment override and an identity override. *)

Module Fixture.
Definition organisation : Organisation.t := Organisation.mk 1 true.
Definition project : Project.t := Project.mk 1 organisation false true.

Definition environment : Environment.t :=
  Environment.mk 1 "Test Environment" "env-key" project true None true false.

(** The same environment with [hide_disabled_flags] set to true. *)
Definition environment_hiding : Environment.t :=
  Environment.mk 1 "Test Environment" "env-key" project true (Some true) true
    false.

(** The same environment with [allow_client_traits] set to false. *)
Definition environment_server_traits_only : Environment.t :=
  Environment.mk 1 "Test Environment" "env-key" project false None true false.

Definition identity : Identity.t := Identity.mk 7 "user1" environment.
Definition identity_hiding : Identity.t :=
  Identity.mk 7 "user1" environment_hiding.

Definition segment : Segment.t := Segment.mk 3 "Test Segment".

(** The identity matches [segment] and nothing else. *)
Definition does_identity_match (segment : Segment.t) (identity : Identity.t)
    (traits : list (Trait.t Z)) : bool :=
  bool_decide (Segment.id segment = 3).

Definition feature_segment : FeatureSegment.t := FeatureSegment.mk 11 1 3 1 2.

Definition environment_default : FeatureState.t :=
  FeatureState.mk 100 1 1 None None false (Some "default") (Some 0) (Some 1).
Definition segment_override : FeatureState.t :=
  FeatureState.mk 101 1 1 None (Some feature_segment) true (Some "segment")
    (Some 0) (Some 1).
Definition identity_override : FeatureState.t :=
  FeatureState.mk 102 1 1 (Some 7) None true (Some "identity") (Some 0)
    (Some 1).

Definition db : Identity.Db Z :=
  Identity.mkDb [environment_default; segment_override; identity_override]
    [segment] [segment] ∅.

(** A database in which the feature has its environment default only. *)
Definition db_default_only : Identity.Db Z :=
  Identity.mkDb [environment_default] [] [] ∅.

(** A filter as the SDK views pass it: it leaves out the rows of feature 1. *)
Definition additional_filters : Q := λ row,
  bool_decide (FeatureState.feature_id row ≠ 1).

(** The tables of the environment: the three feature states above. *)
Definition environment_db : Environment.Db :=
  Environment.mkDb [environment] [feature_segment]
    [environment_default; segment_override; identity_override].

(** Copies as [FeatureSegment.clone] and [FeatureState.clone] build them:
    the receiver with the environment replaced, a feature state at
    version 1, live from the given time and attached to the environment's
    own feature segment. *)
Definition FeatureSegment_clone (db : Environment.Db)
    (self : FeatureSegment.t) (environment : Environment.t)
  : FeatureSegment.t :=
  FeatureSegment.mk (FeatureSegment.id self) (FeatureSegment.feature_id self)
    (FeatureSegment.segment_id self) (Environment.id environment)
    (FeatureSegment.priority self).

Definition FeatureState_clone (db : Environment.Db) (self : FeatureState.t)
    (env : Environment.t) (live_from : option Z) : FeatureState.t :=
  FeatureState.mk (FeatureState.id self) (FeatureState.feature_id self)
    (Environment.id env) (FeatureState.identity_id self)
    (feature_segment ← FeatureState.feature_segment self;
     head (filter (λ row,
                     FeatureSegment.environment_id row = Environment.id env
                     ∧ FeatureSegment.feature_id row
                       = FeatureSegment.feature_id feature_segment
                     ∧ FeatureSegment.segment_id row
                       = FeatureSegment.segment_id feature_segment)
                  (Environment.feature_segments db)))
    (FeatureState.enabled self) (FeatureState.feature_state_value self)
    live_from (Some 1).

(** The trait table of the tests of null trait values, a trait's value
    columns being its value. *)
Definition identity_traits : gmap string (option Z) :=
  <["trait_key_1" := Some 1]> (<["trait_key_2" := Some 2]> ∅).

Definition trait_value_eq (current : option Z) (value : option Z) : bool :=
  bool_decide (current = value).

(** An environment of an organisation that does not persist traits. *)
Definition environment_without_persistence : Environment.t :=
  Environment.mk 2 "Other Environment" "other-key"
    (Project.mk 2 (Organisation.mk 2 false) false true) true None true false.

(** Edge identities: a document is the list of the identity's traits, a
    trait is a key and a value, and the engine's update puts the new trait
    in front. *)
Definition edge_document : list (string * Z) := [("plan", 1)].

Definition identity_update_traits (identity : list (string * Z))
    (traits : list (string * Z)) : list (string * Z) * bool :=
  (traits ++ identity, true).

(** A comparison under which all rows compare equal. *)
Definition gt_never (self other : FeatureState.t) : bool := false.

Definition now : Z := 10.

(** Users: an organisation administrator, a member who holds
    [VIEW_IDENTITIES] on the environment through a group, and a member
    without any permission. *)
Definition admin_user : FFAdminUser.t :=
  FFAdminUser.mk 1 "admin@example.com" false.
Definition group_user : FFAdminUser.t :=
  FFAdminUser.mk 2 "user@example.com" false.
Definition plain_user : FFAdminUser.t :=
  FFAdminUser.mk 3 "other@example.com" false.

Definition permissions_db : FFAdminUser.Db :=
  FFAdminUser.mkDb
    [UserOrganisation.mk 1 1 "ADMIN"; UserOrganisation.mk 2 1 "USER";
     UserOrganisation.mk 3 1 "USER"]
    [] []
    []
    [PermissionRow.mk 7 1 false ["VIEW_IDENTITIES"]]
    [UserPermissionGroupMembership.mk 7 2 false].
End Fixture.

(** * Properties *)

(** ** Hash key *)

Example str_examples : str 42 = "42" ∧ str 0 = "0" ∧ str (-7) = "-7".
Proof. by vm_compute. Qed.

Lemma str_inj (m n : Z) : str m = str n → m = n.
Proof. apply (inj pretty). Qed.

(** C6. The multivariate hash key of an identity is its composite key, the
    environment's API key and the identifier joined by an underscore, when
    [use_mv_v2_evaluation] is true, and the decimal string of its numeric
    id when it is false. *)
Theorem get_hash_key_by_evaluation_mode (self : Identity.t) :
  Identity.get_hash_key self true
  = Environment.api_key (Identity.environment self) +:+ "_"
    +:+ Identity.identifier self
  ∧ Identity.get_hash_key self false = str (Identity.id self).
Proof. done. Qed.

(** ** Trait persistence for client and server keys *)

Lemma trait_persistence_allowed_false (self : Environment.t)
    (request : Request.t) :
  Environment.trait_persistence_allowed self request = false
  ↔ Environment.allow_client_traits self = false
    ∧ Environment.request_origin request ≠ RequestOrigin.SERVER.
Proof.
  unfold Environment.trait_persistence_allowed.
  rewrite orb_false_iff, bool_decide_eq_false. done.
Qed.

(** C10. [trait_persistence_allowed] is true for every request that
    originated from the server, whatever [allow_client_traits] is; it is
    false exactly when [allow_client_traits] is false and the request did
    not originate from the server (a request without the attribute counts
    as a client request). *)
Theorem trait_persistence_allowed_by_origin (self : Environment.t)
    (request : Request.t) :
  (Request.originated_from request = Some RequestOrigin.SERVER →
   Environment.trait_persistence_allowed self request = true)
  ∧ (Environment.trait_persistence_allowed self request = false →
     Environment.allow_client_traits self = false
     ∧ Request.originated_from request ≠ Some RequestOrigin.SERVER)
  ∧ (Environment.allow_client_traits self = false →
     Request.originated_from request ≠ Some RequestOrigin.SERVER →
     Environment.trait_persistence_allowed self request = false).
Proof.
  destruct request as [[[]|]]; unfold Environment.trait_persistence_allowed;
    simpl; destruct (Environment.allow_client_traits self); simpl;
    repeat split; try done.
Qed.

(** ** The insertion-ordered dictionary *)

Section PyDict_facts.
Context {A : Type}.
Implicit Types (d : PyDict.t A) (k : Z) (v : A).

Lemma PyDict_get_set_eq d k v : PyDict.get (PyDict.set d k v) k = Some v.
Proof.
  induction d as [|[k' v'] d IH]; simpl.
  - by rewrite decide_True.
  - destruct (decide (k = k')) as [->|Hne]; simpl.
    + by rewrite decide_True.
    + by rewrite decide_False.
Qed.

Lemma PyDict_get_set_ne d k k' v :
  k ≠ k' → PyDict.get (PyDict.set d k v) k' = PyDict.get d k'.
Proof.
  intros Hne. induction d as [|[k0 v0] d IH]; simpl.
  - by rewrite decide_False.
  - destruct (decide (k = k0)) as [->|Hk]; simpl.
    + by rewrite !decide_False.
    + by rewrite IH.
Qed.

Lemma PyDict_get_None d k : PyDict.get d k = None ↔ k ∉ PyDict.keys d.
Proof.
  unfold PyDict.keys. induction d as [|[k' v'] d IH]; simpl.
  - split; [intros _; apply not_elem_of_nil | done].
  - rewrite not_elem_of_cons. destruct (decide (k = k')) as [->|Hne].
    + split; [done | by intros [? _]].
    + rewrite IH. split; [done | by intros [_ ?]].
Qed.

Lemma PyDict_get_Some_elem_of d k v :
  PyDict.get d k = Some v → (k, v) ∈ d.
Proof.
  induction d as [|[k' v'] d IH]; simpl; [done|].
  destruct (decide (k = k')) as [->|Hne].
  - intros [= ->]. apply elem_of_cons; by left.
  - intros Hget. apply elem_of_cons; right; auto.
Qed.

Lemma PyDict_elem_of_get d k v :
  NoDup (PyDict.keys d) → (k, v) ∈ d → PyDict.get d k = Some v.
Proof.
  unfold PyDict.keys. induction d as [|[k' v'] d IH]; simpl.
  - intros _ Hin. by apply elem_of_nil in Hin.
  - rewrite NoDup_cons. intros [Hk' Hnd] Hin.
    apply elem_of_cons in Hin as [[= -> ->]|Hin].
    + by rewrite decide_True.
    + rewrite decide_False; [by apply IH|].
      intros ->. apply Hk'. apply list_elem_of_fmap. by exists (k', v).
Qed.

Lemma PyDict_keys_set_present d k v :
  k ∈ PyDict.keys d → PyDict.keys (PyDict.set d k v) = PyDict.keys d.
Proof.
  unfold PyDict.keys. induction d as [|[k' v'] d IH]; simpl.
  - intros Hin. by apply elem_of_nil in Hin.
  - intros Hin. destruct (decide (k = k')) as [->|Hne]; simpl; [done|].
    f_equal. apply IH. apply elem_of_cons in Hin as [|]; done.
Qed.

Lemma PyDict_keys_set_absent d k v :
  k ∉ PyDict.keys d → PyDict.keys (PyDict.set d k v) = PyDict.keys d ++ [k].
Proof.
  unfold PyDict.keys. induction d as [|[k' v'] d IH]; simpl; [done|].
  rewrite not_elem_of_cons. intros [Hne Hnin].
  rewrite decide_False by done. simpl. f_equal. by apply IH.
Qed.

Lemma PyDict_NoDup_keys_set d k v :
  NoDup (PyDict.keys d) → NoDup (PyDict.keys (PyDict.set d k v)).
Proof.
  intros Hnd. destruct (decide (k ∈ PyDict.keys d)) as [Hin|Hnin].
  - by rewrite PyDict_keys_set_present.
  - rewrite PyDict_keys_set_absent by done.
    apply NoDup_app. split_and!; [done| |apply NoDup_singleton].
    intros x Hx Hx'. apply list_elem_of_singleton in Hx' as ->. done.
Qed.

Lemma PyDict_elem_of_values d v :
  v ∈ PyDict.values d → ∃ k, (k, v) ∈ d.
Proof.
  unfold PyDict.values. intros ([k v'] & -> & Hin)%list_elem_of_fmap.
  by exists k.
Qed.

Lemma PyDict_get_Some_values d k v :
  PyDict.get d k = Some v → v ∈ PyDict.values d.
Proof.
  intros Hget%PyDict_get_Some_elem_of. unfold PyDict.values.
  apply list_elem_of_fmap. by exists (k, v).
Qed.
End PyDict_facts.

(** ** The loop of the resolver *)

Section resolver_facts.
Variable gt : FeatureState.t → FeatureState.t → bool.
Implicit Types (d : PyDict.t FeatureState.t) (flag : FeatureState.t).
Implicit Types (rows : list FeatureState.t).

Lemma identity_flags_snoc rows flag :
  Identity.identity_flags gt (rows ++ [flag])
  = Identity.keep_highest_priority gt (Identity.identity_flags gt rows) flag.
Proof. unfold Identity.identity_flags. by rewrite foldl_app. Qed.

Lemma visited_set rows d flag :
  Identity.visited rows d →
  Identity.visited (rows ++ [flag])
    (PyDict.set d (FeatureState.feature_id flag) flag).
Proof.
  intros [Hnd Hentry Hcov]. split.
  - by apply PyDict_NoDup_keys_set.
  - intros k v.
    destruct (decide (FeatureState.feature_id flag = k)) as [<-|Hne].
    + rewrite PyDict_get_set_eq. intros [= <-]. split; [done|].
      apply elem_of_app; right. by apply list_elem_of_singleton.
    + rewrite PyDict_get_set_ne by done. intros [? ?]%Hentry.
      split; [done|]. apply elem_of_app; by left.
  - intros c Hc.
    destruct (decide (FeatureState.feature_id flag
                      = FeatureState.feature_id c)) as [<-|Hne].
    + rewrite PyDict_get_set_eq. by eexists.
    + rewrite PyDict_get_set_ne by done.
      apply elem_of_app in Hc as [Hc|Hc]; [by apply Hcov|].
      apply list_elem_of_singleton in Hc as ->. done.
Qed.

Lemma visited_keep rows d flag current_flag :
  PyDict.get d (FeatureState.feature_id flag) = Some current_flag →
  Identity.visited rows d → Identity.visited (rows ++ [flag]) d.
Proof.
  intros Hget [Hnd Hentry Hcov]. split; [done| |].
  - intros k v [? ?]%Hentry. split; [done|]. apply elem_of_app; by left.
  - intros c [Hc|Hc]%elem_of_app; [by apply Hcov|].
    apply list_elem_of_singleton in Hc as ->. by eexists.
Qed.

Lemma visited_keep_highest_priority rows d flag :
  Identity.visited rows d →
  Identity.visited (rows ++ [flag]) (Identity.keep_highest_priority gt d flag).
Proof.
  intros Hv. unfold Identity.keep_highest_priority.
  destruct (PyDict.get d (FeatureState.feature_id flag)) as [cur|] eqn:Hget.
  - destruct (gt flag cur); [by apply visited_set|by eapply visited_keep].
  - by apply visited_set.
Qed.

Lemma visited_identity_flags rows :
  Identity.visited rows (Identity.identity_flags gt rows).
Proof.
  induction rows as [|flag rows IH] using rev_ind.
  - split; [apply NoDup_nil_2|done|].
    intros c Hc. by apply elem_of_nil in Hc.
  - rewrite identity_flags_snoc. by apply visited_keep_highest_priority.
Qed.

Lemma visited_values_get rows d v :
  Identity.visited rows d → v ∈ PyDict.values d →
  PyDict.get d (FeatureState.feature_id v) = Some v.
Proof.
  intros Hv [k Hin]%PyDict_elem_of_values.
  pose proof (PyDict_elem_of_get d k v (Identity.visited_NoDup _ _ Hv) Hin) as Hget.
  destruct (Identity.visited_entry _ _ Hv _ _ Hget) as [-> _]. done.
Qed.

Lemma visited_feature_ids rows d :
  Identity.visited rows d → FeatureState.feature_id <$> PyDict.values d = PyDict.keys d.
Proof.
  intros Hv. unfold PyDict.values, PyDict.keys.
  rewrite <-list_fmap_compose. apply list_fmap_ext.
  intros i [k v] Hkv. simpl.
  assert ((k, v) ∈ d) as Hin by (by eapply list_elem_of_lookup_2).
  pose proof (PyDict_elem_of_get d k v (Identity.visited_NoDup _ _ Hv) Hin) as Hget.
  by destruct (Identity.visited_entry _ _ Hv _ _ Hget).
Qed.

(** The values of the dictionary have pairwise distinct features, and so
    has every list returned from it. *)
Lemma returned_flags_NoDup rows d hide :
  Identity.visited rows d →
  NoDup (FeatureState.feature_id <$> Identity.returned_flags hide d).
Proof.
  intros Hv.
  assert (NoDup (FeatureState.feature_id <$> PyDict.values d)) as Hnd.
  { erewrite visited_feature_ids by done. by eapply Identity.visited_NoDup. }
  destruct hide; simpl; [|done].
  refine (sublist_NoDup _ _ Hnd _).
  apply fmap_sublist, sublist_filter.
Qed.

Lemma returned_flags_elem_of d hide (s : FeatureState.t) :
  s ∈ Identity.returned_flags hide d
  ↔ s ∈ PyDict.values d ∧ (hide = true → FeatureState.enabled s = true).
Proof.
  destruct hide; simpl.
  - rewrite list_elem_of_filter. split; [intros [? ?]|intros [? Hen]]; auto.
  - split; [intros ?; split; [done|intros [=]]|by intros [? _]].
Qed.

(** The loop as a transition system computes [identity_flags]. *)
Lemma loop_step_fun d flag rest :
  Identity.loop_step gt (d, flag :: rest)
    (Identity.keep_highest_priority gt d flag, rest).
Proof.
  unfold Identity.keep_highest_priority.
  destruct (PyDict.get d (FeatureState.feature_id flag)) as [cur|] eqn:Hget.
  - destruct (gt flag cur) eqn:Hgt.
    + by eapply Identity.step_higher_flag.
    + by eapply Identity.step_not_higher_flag.
  - by apply Identity.step_first_flag.
Qed.

Lemma loop_step_inv d flag rest c :
  Identity.loop_step gt (d, flag :: rest) c →
  c = (Identity.keep_highest_priority gt d flag, rest).
Proof.
  unfold Identity.keep_highest_priority.
  inversion 1 as [? ? ? Hget|? ? cur ? Hget Hgt|? ? cur ? Hget Hgt]; subst;
    rewrite Hget; [done| |]; by rewrite Hgt.
Qed.

Lemma loop_step_nil d c : ¬ Identity.loop_step gt (d, []) c.
Proof. inversion 1. Qed.

Lemma loop_run d rows :
  rtc (Identity.loop_step gt) (d, rows)
    (foldl (Identity.keep_highest_priority gt) d rows, []).
Proof.
  revert d. induction rows as [|flag rows IH]; intros d; simpl.
  - apply rtc_refl.
  - eapply rtc_l; [apply loop_step_fun|apply IH].
Qed.

Lemma loop_run_inv d rows d' :
  rtc (Identity.loop_step gt) (d, rows) (d', []) →
  d' = foldl (Identity.keep_highest_priority gt) d rows.
Proof.
  revert d. induction rows as [|flag rows IH]; intros d Hrun; simpl.
  - apply rtc_inv in Hrun as [[= ->]|(c & Hstep & _)]; [done|].
    by apply loop_step_nil in Hstep.
  - apply rtc_inv in Hrun as [[=]|(c & Hstep & Hrun)].
    apply loop_step_inv in Hstep as ->. by apply IH.
Qed.

(** When [gt] is a strict order, the entry of a feature is a visited row
    that no visited row of the feature is greater than. *)
Section highest.
Hypothesis gt_irrefl : ∀ a, gt a a = false.
Hypothesis gt_trans : ∀ a b c, gt a b = true → gt b c = true → gt a c = true.

Lemma highest_set rows d flag :
  Identity.visited rows d → Identity.highest gt rows d →
  (∀ cur, PyDict.get d (FeatureState.feature_id flag) = Some cur →
          gt flag cur = true) →
  Identity.highest gt (rows ++ [flag]) (PyDict.set d (FeatureState.feature_id flag) flag).
Proof.
  intros Hv Hhi Hcur k v c Hget Hc Hk.
  destruct (decide (FeatureState.feature_id flag = k)) as [<-|Hne].
  - rewrite PyDict_get_set_eq in Hget. injection Hget as <-.
    apply elem_of_app in Hc as [Hc|Hc].
    + destruct (Identity.visited_covered _ _ Hv c Hc) as [cur Hd].
      rewrite Hk in Hd.
      destruct (gt c flag) eqn:Hgt; [|done].
      rewrite <-(Hhi _ cur c Hd Hc Hk).
      symmetry. eapply gt_trans; [exact Hgt|by apply Hcur].
    + apply list_elem_of_singleton in Hc as ->. apply gt_irrefl.
  - rewrite PyDict_get_set_ne in Hget by done.
    apply elem_of_app in Hc as [Hc|Hc]; [by eapply Hhi|].
    apply list_elem_of_singleton in Hc as ->. done.
Qed.

Lemma highest_keep_highest_priority rows d flag :
  Identity.visited rows d → Identity.highest gt rows d →
  Identity.highest gt (rows ++ [flag]) (Identity.keep_highest_priority gt d flag).
Proof.
  intros Hv Hhi. unfold Identity.keep_highest_priority.
  destruct (PyDict.get d (FeatureState.feature_id flag)) as [cur|] eqn:Hd.
  - destruct (gt flag cur) eqn:Hgt.
    + apply highest_set; [done..|].
      intros cur' Hd'. rewrite Hd in Hd'. by injection Hd' as <-.
    + intros k v c Hget Hc Hk.
      apply elem_of_app in Hc as [Hc|Hc]; [by eapply Hhi|].
      apply list_elem_of_singleton in Hc as ->. rewrite <-Hk, Hd in Hget.
      by injection Hget as <-.
  - apply highest_set; [done..|]. intros cur' Hd'. by rewrite Hd in Hd'.
Qed.

Lemma highest_identity_flags rows :
  Identity.highest gt rows (Identity.identity_flags gt rows).
Proof.
  induction rows as [|flag rows IH] using rev_ind.
  - intros k v c _ Hc. by apply elem_of_nil in Hc.
  - rewrite identity_flags_snoc.
    apply highest_keep_highest_priority; [apply visited_identity_flags|done].
Qed.
End highest.
End resolver_facts.

(** ** The priority order *)

Lemma Priority_gt_irrefl (a : FeatureState.t) : Priority.gt a a = false.
Proof.
  unfold Priority.gt. destruct (Priority.override_of a) as [|fs|]; [done| |done].
  by rewrite !Z.ltb_irrefl, andb_false_r.
Qed.

Lemma Priority_gt_trans (a b c : FeatureState.t) :
  Priority.gt a b = true → Priority.gt b c = true → Priority.gt a c = true.
Proof.
  unfold Priority.gt.
  destruct (Priority.override_of a) as [|fa|],
           (Priority.override_of b) as [|fb|],
           (Priority.override_of c) as [|fc|]; try done.
  rewrite !orb_true_iff, !andb_true_iff, !Z.ltb_lt, !Z.eqb_eq. lia.
Qed.

Lemma Priority_outranks_gt (a b : FeatureState.t) :
  Priority.outranks a b → Priority.gt a b = true.
Proof.
  unfold Priority.outranks, Priority.gt, Priority.tier.
  intros [Htier|(fa & fb & -> & -> & Hprio)].
  - destruct (Priority.override_of a), (Priority.override_of b);
      try done; lia.
  - apply orb_true_iff; left. by apply Z.ltb_lt.
Qed.

Lemma Priority_not_gt_not_outranks (a b : FeatureState.t) :
  Priority.gt a b = false → ¬ Priority.outranks a b.
Proof. intros Hgt Hout%Priority_outranks_gt. congruence. Qed.

(** [outranks] is a strict order in which being unordered is transitive:
    a row that nothing outranks is a maximum, not merely maximal. *)
Lemma Priority_outranks_irrefl (a : FeatureState.t) : ¬ Priority.outranks a a.
Proof.
  unfold Priority.outranks. intros [?|(fa & fb & Ha & Hb & ?)]; [lia|].
  rewrite Ha in Hb. injection Hb as ->. lia.
Qed.

Lemma Priority_outranks_total (a b c : FeatureState.t) :
  Priority.outranks a c → Priority.outranks a b ∨ Priority.outranks b c.
Proof.
  unfold Priority.outranks, Priority.tier.
  intros [Htier|(fa & fc & Ha & Hc & Hprio)].
  - destruct (Priority.override_of a), (Priority.override_of b),
      (Priority.override_of c); try lia; (left; left; lia) || (right; left; lia).
  - rewrite Ha, Hc. destruct (Priority.override_of b) as [|fb|].
    + left; left; lia.
    + destruct (decide (FeatureSegment.priority fa < FeatureSegment.priority fb)).
      * left; right. by exists fa, fb.
      * right; right. exists fb, fc. split_and!; [done..|lia].
    + right; left; lia.
Qed.

(** ** The resolver *)

Example resolve_priority_ordering :
  Identity.get_all_feature_states Fixture.does_identity_match Priority.gt
    Fixture.identity Fixture.db Fixture.now None None
  = [Fixture.identity_override].
Proof. by vm_compute. Qed.

Example resolve_hides_disabled :
  Identity.all_flags Fixture.does_identity_match Fixture.identity_hiding
    Fixture.db_default_only Fixture.now None None
  = [Fixture.environment_default]
  ∧ Identity.get_all_feature_states Fixture.does_identity_match Priority.gt
      Fixture.identity_hiding Fixture.db_default_only Fixture.now None None
    = [].
Proof. by vm_compute. Qed.

Section resolver_theorems.
Context {D : Type}.
Variable does_identity_match : Segment.t → Identity.t → list (Trait.t D) → bool.
Variables (self : Identity.t) (db : Identity.Db D) (now : Z).
Variables (traits : option (list (Trait.t D))) (additional_filters : option Q).

Local Abbreviation candidates :=
  (Identity.all_flags does_identity_match self db now traits
     additional_filters).
Local Abbreviation hide :=
  (Environment.get_hide_disabled_flags (Identity.environment self)).

(** The states selected by the loop, before the disabled ones are hidden:
    one per feature that has a candidate, each a candidate that no
    candidate of its feature outranks. *)
Lemma selected_one_per_feature :
  let selected := PyDict.values (Identity.identity_flags Priority.gt candidates) in
  NoDup (FeatureState.feature_id <$> selected)
  ∧ (∀ c, c ∈ candidates →
       ∃ s, s ∈ selected
            ∧ FeatureState.feature_id s = FeatureState.feature_id c)
  ∧ (∀ s, s ∈ selected →
       s ∈ candidates
       ∧ ∀ c, c ∈ candidates →
              FeatureState.feature_id c = FeatureState.feature_id s →
              ¬ Priority.outranks c s).
Proof.
  intros selected. subst selected.
  pose proof (visited_identity_flags Priority.gt candidates) as Hv.
  pose proof (highest_identity_flags Priority.gt Priority_gt_irrefl
                Priority_gt_trans candidates) as Hhi.
  split_and!.
  - by apply (returned_flags_NoDup candidates _ false).
  - intros c Hc. destruct (Identity.visited_covered _ _ Hv c Hc) as [s Hs].
    exists s. split; [by eapply PyDict_get_Some_values|].
    by destruct (Identity.visited_entry _ _ Hv _ _ Hs).
  - intros s Hs. pose proof (visited_values_get _ _ _ Hv Hs) as Hget.
    split; [by destruct (Identity.visited_entry _ _ Hv _ _ Hget)|].
    intros c Hc Hfid. apply Priority_not_gt_not_outranks.
    by eapply Hhi.
Qed.

(** C1 (amended). [get_all_feature_states] returns at most one feature
    state per feature id. Every returned state is a candidate that no
    candidate of the same feature outranks in the order identity override
    > segment override > environment default, segment overrides ranked by
    ascending [FeatureSegment] priority. Every feature id that has a
    candidate has a returned state, unless [hide_disabled_flags] is in
    effect and the state selected for the feature is disabled: then the
    feature has none. *)
Theorem get_all_feature_states_highest_priority :
  let result :=
    Identity.get_all_feature_states does_identity_match Priority.gt self db
      now traits additional_filters in
  NoDup (FeatureState.feature_id <$> result)
  ∧ (∀ s, s ∈ result →
       s ∈ candidates
       ∧ ∀ c, c ∈ candidates →
              FeatureState.feature_id c = FeatureState.feature_id s →
              ¬ Priority.outranks c s)
  ∧ (∀ c, c ∈ candidates →
       (∃ s, s ∈ result
             ∧ FeatureState.feature_id s = FeatureState.feature_id c)
       ∨ (hide = true
          ∧ (∀ s, s ∈ result →
                  FeatureState.feature_id s ≠ FeatureState.feature_id c)
          ∧ ∃ s, s ∈ candidates
                 ∧ FeatureState.feature_id s = FeatureState.feature_id c
                 ∧ FeatureState.enabled s = false
                 ∧ ∀ c', c' ∈ candidates →
                         FeatureState.feature_id c' = FeatureState.feature_id s →
                         ¬ Priority.outranks c' s)).
Proof.
  intros result. subst result. unfold Identity.get_all_feature_states.
  pose proof (visited_identity_flags Priority.gt candidates) as Hv.
  destruct selected_one_per_feature as (Hnd & Hcov & Hmax).
  split_and!.
  - by eapply returned_flags_NoDup.
  - intros s [Hs _]%returned_flags_elem_of. by apply Hmax.
  - intros c Hc. destruct (Hcov c Hc) as (s & Hs & Hfid).
    destruct (decide (hide = true → FeatureState.enabled s = true))
      as [Hshown|Hhidden].
    + left. exists s. split; [|done]. by apply returned_flags_elem_of.
    + right. destruct hide eqn:Hhide; [|by destruct Hhidden].
      destruct (FeatureState.enabled s) eqn:Hen; [by destruct Hhidden|].
      split_and!; [done| |].
      * intros r [Hr Hr_en]%returned_flags_elem_of Hr_fid.
        apply (visited_values_get _ _ _ Hv) in Hr, Hs.
        rewrite Hr_fid, <-Hfid, Hs in Hr. injection Hr as ->.
        specialize (Hr_en eq_refl). congruence.
      * exists s. destruct (Hmax s) as [? ?];
          [by eapply PyDict_get_Some_values, visited_values_get|].
        done.
Qed.
End resolver_theorems.

Lemma get_all_feature_states_highest_priority_witness :
  Fixture.identity_override
    ∈ Identity.all_flags Fixture.does_identity_match Fixture.identity
        Fixture.db Fixture.now None None
  ∧ ¬ Priority.outranks Fixture.segment_override Fixture.identity_override.
Proof.
  destruct (get_all_feature_states_highest_priority
              Fixture.does_identity_match Fixture.identity Fixture.db
              Fixture.now None None) as (_ & Hmax & _).
  destruct (Hmax Fixture.identity_override) as [Hin Hno].
  { vm_compute. repeat constructor. }
  split; [exact Hin|]. apply Hno; [|reflexivity].
  vm_compute. repeat constructor.
Defined.

(** C1 as stated fails where disabled flags are hidden: the only
    candidate of feature 1 is its disabled environment default, and the
    call returns no state for feature 1. *)
Lemma get_all_feature_states_one_per_feature_counterexample :
  ¬ (∀ c,
       c ∈ Identity.all_flags Fixture.does_identity_match
             Fixture.identity_hiding Fixture.db_default_only Fixture.now
             None None →
       ∃ s,
         s ∈ Identity.get_all_feature_states Fixture.does_identity_match
               Priority.gt Fixture.identity_hiding Fixture.db_default_only
               Fixture.now None None
         ∧ FeatureState.feature_id s = FeatureState.feature_id c).
Proof.
  intros Hone. destruct (Hone Fixture.environment_default) as (s & Hs & _).
  - vm_compute. repeat constructor.
  - vm_compute in Hs. by apply elem_of_nil in Hs.
Qed.

(** C2. Two invocations of [get_all_feature_states] on the same candidate
    rows, in the same order, return the same list, whatever the comparison
    of feature states answers, ties included: the loop has exactly one
    run, which is the one that [get_all_feature_states] computes. *)
Theorem get_all_feature_states_deterministic {D : Type}
    (does_identity_match : Segment.t → Identity.t → list (Trait.t D) → bool)
    (gt : FeatureState.t → FeatureState.t → bool)
    (self : Identity.t) (db : Identity.Db D) (now : Z)
    (traits : option (list (Trait.t D))) (additional_filters : option Q) :
  let rows :=
    Identity.all_flags does_identity_match self db now traits
      additional_filters in
  let hide := Environment.get_hide_disabled_flags (Identity.environment self) in
  Identity.invocation gt hide rows
    (Identity.get_all_feature_states does_identity_match gt self db now
       traits additional_filters)
  ∧ ∀ output1 output2,
      Identity.invocation gt hide rows output1 →
      Identity.invocation gt hide rows output2 →
      output1 = output2.
Proof.
  intros rows hide. split.
  - exists (Identity.identity_flags gt rows). split; [apply loop_run|done].
  - intros output1 output2 (d1 & Hrun1 & ->) (d2 & Hrun2 & ->).
    apply loop_run_inv in Hrun1, Hrun2. by subst.
Qed.

(** Three candidates of one feature that compare equal: the row that the
    database yields first is returned, by every invocation. *)
Lemma get_all_feature_states_deterministic_witness :
  Identity.get_all_feature_states Fixture.does_identity_match
    Fixture.gt_never Fixture.identity Fixture.db Fixture.now None None
  = [Fixture.environment_default].
Proof.
  destruct (get_all_feature_states_deterministic Fixture.does_identity_match
              Fixture.gt_never Fixture.identity Fixture.db Fixture.now
              None None) as [Hrun Hdet].
  apply Hdet; [exact Hrun|].
  exists [(1, Fixture.environment_default)]. split; [|reflexivity].
  change (Identity.all_flags Fixture.does_identity_match Fixture.identity
            Fixture.db Fixture.now None None)
    with [Fixture.environment_default; Fixture.segment_override;
          Fixture.identity_override].
  eapply rtc_l; [by apply Identity.step_first_flag|].
  eapply rtc_l;
    [by apply (Identity.step_not_higher_flag _ _ _
                 Fixture.environment_default)|].
  eapply rtc_l;
    [by apply (Identity.step_not_higher_flag _ _ _
                 Fixture.environment_default)|].
  apply rtc_refl.
Defined.

(** ** Hiding disabled flags *)

Lemma get_hide_disabled_flags_override (self : Environment.t) (b : bool) :
  Environment.hide_disabled_flags self = Some b →
  Environment.get_hide_disabled_flags self = b.
Proof. unfold Environment.get_hide_disabled_flags. by intros ->. Qed.

Lemma get_hide_disabled_flags_fallback (self : Environment.t) :
  Environment.hide_disabled_flags self = None →
  Environment.get_hide_disabled_flags self
  = Project.hide_disabled_flags (Environment.project self).
Proof. unfold Environment.get_hide_disabled_flags. by intros ->. Qed.

(** C3. The effective [hide_disabled_flags] is the environment's value
    when that is not null and the project's otherwise. When it is true, a
    state that the loop of [get_all_feature_states] selected and whose
    [enabled] is false is not in the returned list, which holds no state of
    that feature at all; the selected states that are enabled are all
    returned, and (see [returned_flags]) in the same order. *)
Theorem hide_disabled_flags_drops_disabled {D : Type}
    (does_identity_match : Segment.t → Identity.t → list (Trait.t D) → bool)
    (gt : FeatureState.t → FeatureState.t → bool)
    (self : Identity.t) (db : Identity.Db D) (now : Z)
    (traits : option (list (Trait.t D))) (additional_filters : option Q) :
  let environment := Identity.environment self in
  let selected :=
    PyDict.values
      (Identity.identity_flags gt
         (Identity.all_flags does_identity_match self db now traits
            additional_filters)) in
  let result :=
    Identity.get_all_feature_states does_identity_match gt self db now
      traits additional_filters in
  (∀ b, Environment.hide_disabled_flags environment = Some b →
        Environment.get_hide_disabled_flags environment = b)
  ∧ (Environment.hide_disabled_flags environment = None →
     Environment.get_hide_disabled_flags environment
     = Project.hide_disabled_flags (Environment.project environment))
  ∧ (Environment.get_hide_disabled_flags environment = true →
     (∀ s, s ∈ selected → FeatureState.enabled s = false →
           (s ∉ result)
           ∧ ∀ r, r ∈ result →
                  FeatureState.feature_id r ≠ FeatureState.feature_id s)
     ∧ (∀ s, s ∈ selected → FeatureState.enabled s = true → s ∈ result)
     ∧ (∀ r, r ∈ result →
             r ∈ selected ∧ FeatureState.enabled r = true)).
Proof.
  intros environment selected result. split_and!.
  - intros b. apply get_hide_disabled_flags_override.
  - apply get_hide_disabled_flags_fallback.
  - intros Hhide. subst result. unfold Identity.get_all_feature_states.
    fold environment. rewrite Hhide. fold selected.
    pose proof (visited_identity_flags gt
      (Identity.all_flags does_identity_match self db now traits
         additional_filters)) as Hv.
    split_and!.
    + intros s Hs Hen. split.
      * intros [Hen' _]%list_elem_of_filter. congruence.
      * intros r [Hr_en Hr]%list_elem_of_filter Hfid.
        apply (visited_values_get _ _ _ Hv) in Hr, Hs.
        rewrite Hfid, Hs in Hr. injection Hr as ->. congruence.
    + intros s Hs Hen. by apply list_elem_of_filter.
    + intros r [Hen Hr]%list_elem_of_filter. done.
Qed.

Lemma hide_disabled_flags_drops_disabled_witness :
  Fixture.environment_default
    ∉ Identity.get_all_feature_states Fixture.does_identity_match Priority.gt
        Fixture.identity_hiding Fixture.db_default_only Fixture.now None None.
Proof.
  destruct (hide_disabled_flags_drops_disabled Fixture.does_identity_match
              Priority.gt Fixture.identity_hiding Fixture.db_default_only
              Fixture.now None None) as (_ & _ & Hdrop).
  destruct (Hdrop eq_refl) as (Habsent & _ & _).
  apply (Habsent Fixture.environment_default); [|reflexivity].
  vm_compute. repeat constructor.
Defined.

(** ** The candidate rows *)

Section candidates.
Context {D : Type}.
Variable does_identity_match : Segment.t → Identity.t → list (Trait.t D) → bool.
Variables (self : Identity.t) (db : Identity.Db D) (now : Z).
Variable traits : option (list (Trait.t D)).

(** The matching segments are the segments with an override in the
    environment that the identity, with the given traits or else its
    stored ones, matches. *)
Lemma get_segments_overrides_only (segment : Segment.t) :
  segment ∈ Identity.get_segments does_identity_match self db traits true
  ↔ segment ∈ Identity.environment_segments db
    ∧ does_identity_match segment self
        (default (Identity.identity_traits_all self (Identity.identity_traits db))
                 traits)
      = true.
Proof.
  unfold Identity.get_segments. rewrite list_elem_of_filter.
  destruct traits; simpl; tauto.
Qed.

Lemma only_live_versions_query_true (row : FeatureState.t) :
  Identity.only_live_versions_query now row = true
  ↔ (∃ live_from,
       FeatureState.live_from row = Some live_from ∧ live_from ≤ now)
    ∧ FeatureState.version row ≠ None.
Proof.
  unfold Identity.only_live_versions_query.
  rewrite andb_true_iff, bool_decide_eq_true.
  destruct (FeatureState.live_from row) as [live_from|].
  - rewrite bool_decide_eq_true. split.
    + intros [? ?]. split; [by exists live_from|done].
    + intros [(? & [= <-] & ?) ?]. done.
  - split; [by intros [? _]|by intros [(? & ? & _) _]].
Qed.

Lemma overridden_for_segment_query_true (row : FeatureState.t) :
  Identity.overridden_for_segment_query self
    (Identity.get_segments does_identity_match self db traits true) row
  = true
  ↔ ∃ feature_segment segment,
      FeatureState.feature_segment row = Some feature_segment
      ∧ segment ∈ Identity.get_segments does_identity_match self db traits true
      ∧ Segment.id segment = FeatureSegment.segment_id feature_segment
      ∧ FeatureSegment.environment_id feature_segment
        = Environment.id (Identity.environment self).
Proof.
  unfold Identity.overridden_for_segment_query.
  destruct (FeatureState.feature_segment row) as [feature_segment|].
  - rewrite andb_true_iff, !bool_decide_eq_true, list_elem_of_fmap. split.
    + intros [(segment & ? & ?) ?]. by exists feature_segment, segment.
    + intros (? & segment & [= <-] & ? & ? & ?). split; [by exists segment|done].
  - split; [done|by intros (? & ? & ? & _)].
Qed.

Lemma full_query_true (additional_filters : option Q) (row : FeatureState.t) :
  Identity.full_query self
    (Identity.get_segments does_identity_match self db traits true) now
    additional_filters row = true
  ↔ ((∃ live_from,
        FeatureState.live_from row = Some live_from ∧ live_from ≤ now)
     ∧ FeatureState.version row ≠ None)
    ∧ FeatureState.environment_id row
      = Environment.id (Identity.environment self)
    ∧ (FeatureState.identity_id row = Some (Identity.id self)
       ∨ (∃ feature_segment segment,
            FeatureState.feature_segment row = Some feature_segment
            ∧ segment
                ∈ Identity.get_segments does_identity_match self db traits true
            ∧ Segment.id segment = FeatureSegment.segment_id feature_segment
            ∧ FeatureSegment.environment_id feature_segment
              = Environment.id (Identity.environment self))
       ∨ (FeatureState.identity_id row = None
          ∧ FeatureState.feature_segment row = None))
    ∧ (∀ q, additional_filters = Some q → q row = true).
Proof.
  assert ((Identity.only_live_versions_query now
           &&& Identity.belongs_to_environment_query self
           &&& (Identity.overridden_for_identity_query self
                ||| Identity.overridden_for_segment_query self
                      (Identity.get_segments does_identity_match self db
                         traits true)
                ||| Identity.environment_default_query)) row = true
          ↔ ((∃ live_from,
                FeatureState.live_from row = Some live_from ∧ live_from ≤ now)
             ∧ FeatureState.version row ≠ None)
            ∧ FeatureState.environment_id row
              = Environment.id (Identity.environment self)
            ∧ (FeatureState.identity_id row = Some (Identity.id self)
               ∨ (∃ feature_segment segment,
                    FeatureState.feature_segment row = Some feature_segment
                    ∧ segment
                        ∈ Identity.get_segments does_identity_match self db
                            traits true
                    ∧ Segment.id segment
                      = FeatureSegment.segment_id feature_segment
                    ∧ FeatureSegment.environment_id feature_segment
                      = Environment.id (Identity.environment self))
               ∨ (FeatureState.identity_id row = None
                  ∧ FeatureState.feature_segment row = None))) as Hbase.
  { unfold Q_and, Q_or. rewrite !andb_true_iff, !orb_true_iff.
    rewrite only_live_versions_query_true, overridden_for_segment_query_true.
    unfold Identity.belongs_to_environment_query,
      Identity.overridden_for_identity_query,
      Identity.environment_default_query.
    rewrite andb_true_iff, !bool_decide_eq_true. tauto. }
  unfold Identity.full_query. destruct additional_filters as [q|].
  - unfold Q_and at 1. rewrite andb_true_iff, Hbase. split.
    + intros [Hb Hq]. split; [tauto|]. split; [tauto|]. split; [tauto|].
      by intros ? [= <-].
    + intros (? & ? & ? & Hq). split; [tauto|]. by apply Hq.
  - rewrite Hbase. split; [|tauto].
    intros Hb. split; [tauto|]. split; [tauto|]. split; [tauto|].
    by intros ? [=].
Qed.

(** C4 (amended). The rows that [get_all_feature_states] considers are
    exactly the rows of the table that are live at [now], have a version,
    belong to the identity's environment and are an override for this
    identity, an override for a matching segment whose feature segment is
    of this environment, or an environment default, and that also satisfy
    [additional_filters] when the caller passes one. *)
Theorem all_flags_candidate_rows (additional_filters : option Q)
    (row : FeatureState.t) :
  row ∈ Identity.all_flags does_identity_match self db now traits
          additional_filters
  ↔ Identity.candidate does_identity_match self db now traits row
    ∧ (∀ q, additional_filters = Some q → q row = true).
Proof.
  unfold Identity.all_flags, Identity.candidate.
  rewrite list_elem_of_filter, full_query_true. tauto.
Qed.
End candidates.

Lemma all_flags_candidate_rows_witness :
  Identity.candidate Fixture.does_identity_match Fixture.identity Fixture.db
    Fixture.now None Fixture.segment_override.
Proof.
  apply (all_flags_candidate_rows Fixture.does_identity_match Fixture.identity
           Fixture.db Fixture.now None None Fixture.segment_override).
  vm_compute. repeat constructor.
Defined.

(** C4 as stated fails when the caller passes [additional_filters]: the
    environment default of feature 1 meets every condition of the claim
    and is not among the rows considered. *)
Lemma all_flags_candidate_rows_counterexample :
  ¬ (∀ row,
       row ∈ Identity.all_flags Fixture.does_identity_match Fixture.identity
               Fixture.db Fixture.now None (Some Fixture.additional_filters)
       ↔ Identity.candidate Fixture.does_identity_match Fixture.identity
           Fixture.db Fixture.now None row).
Proof.
  intros Hexact.
  assert (Fixture.environment_default
            ∈ Identity.all_flags Fixture.does_identity_match Fixture.identity
                Fixture.db Fixture.now None (Some Fixture.additional_filters))
    as Hin.
  { apply Hexact. unfold Identity.candidate. split_and!.
    - vm_compute. repeat constructor.
    - by exists 0.
    - done.
    - done.
    - right; right. done. }
  vm_compute in Hin. by apply elem_of_nil in Hin.
Qed.

(** ** Writes to the trait table *)

Section trait_table_facts.
Context {D : Type}.
Implicit Types (table : gmap string D) (objs : list (Trait.t D)).
Implicit Types (k : string) (keys : list string).

Lemma bulk_create_ignore_conflicts_total objs table :
  ∃ table', Identity.bulk_create true objs table = inr table'.
Proof.
  revert table. induction objs as [|obj objs IH]; intros table; simpl.
  - by eexists.
  - destruct (table !! Trait.trait_key obj); apply IH.
Qed.

Lemma bulk_create_lookup_other ignore_conflicts objs table table' k :
  Identity.bulk_create ignore_conflicts objs table = inr table' →
  (∀ obj, obj ∈ objs → Trait.trait_key obj ≠ k) →
  table' !! k = table !! k.
Proof.
  revert table. induction objs as [|obj objs IH]; intros table; simpl.
  - by intros [= ->].
  - intros Hcreate Hother.
    assert (Trait.trait_key obj ≠ k) as Hne by (apply Hother; by left).
    assert (∀ obj', obj' ∈ objs → Trait.trait_key obj' ≠ k) as Hother'
      by (intros obj' ?; apply Hother; by right).
    destruct (table !! Trait.trait_key obj) eqn:Hrow.
    + destruct ignore_conflicts; [by apply IH|done].
    + rewrite (IH _ Hcreate Hother'). by apply lookup_insert_ne.
Qed.

Lemma bulk_create_lookup_old ignore_conflicts objs table table' k (d : D) :
  Identity.bulk_create ignore_conflicts objs table = inr table' →
  table !! k = Some d → table' !! k = Some d.
Proof.
  revert table. induction objs as [|obj objs IH]; intros table; simpl.
  - by intros [= ->].
  - intros Hcreate Hk. destruct (table !! Trait.trait_key obj) eqn:Hrow.
    + destruct ignore_conflicts; [by eapply IH|done].
    + eapply IH; [done|]. rewrite lookup_insert_ne; [done|].
      intros Heq. rewrite Heq in Hrow. congruence.
Qed.

Lemma bulk_create_lookup_new ignore_conflicts objs table table' k (d : D) :
  Identity.bulk_create ignore_conflicts objs table = inr table' →
  table' !! k = Some d →
  table !! k = Some d
  ∨ ∃ obj, obj ∈ objs ∧ Trait.trait_key obj = k ∧ Trait.value_data obj = d.
Proof.
  revert table. induction objs as [|obj objs IH]; intros table; simpl.
  - intros [= ->]. by left.
  - intros Hcreate Hk. destruct (table !! Trait.trait_key obj) eqn:Hrow.
    + destruct ignore_conflicts; [|done].
      destruct (IH _ Hcreate Hk) as [?|(obj' & ? & ?)]; [by left|].
      right. exists obj'. split; [by right|done].
    + destruct (IH _ Hcreate Hk) as [Hins|(obj' & ? & ?)].
      * destruct (decide (Trait.trait_key obj = k)) as [<-|Hne].
        -- rewrite lookup_insert_eq in Hins. injection Hins as <-.
           right. exists obj. split; [by left|done].
        -- rewrite lookup_insert_ne in Hins by done. by left.
      * right. exists obj'. split; [by right|done].
Qed.

Lemma bulk_create_raises objs table e :
  Identity.bulk_create false objs table = inl e →
  ∃ obj, obj ∈ objs ∧ e = IntegrityError (Trait.trait_key obj).
Proof.
  revert table. induction objs as [|obj objs IH]; intros table; simpl; [done|].
  destruct (table !! Trait.trait_key obj) eqn:Hrow.
  - intros [= <-]. exists obj. split; [by left|done].
  - intros (obj' & ? & ?)%IH. exists obj'. split; [by right|done].
Qed.

Lemma delete_keys_lookup keys table k :
  Identity.delete_keys keys table !! k
  = if decide (k ∈ keys) then None else table !! k.
Proof.
  unfold Identity.delete_keys. apply option_eq. intros d.
  rewrite map_lookup_filter_Some. simpl. case_decide as Hin.
  - split; [by intros [_ ?]|done].
  - split; [by intros [? _]|done].
Qed.

Lemma delete_keys_nil table : Identity.delete_keys [] table = table.
Proof.
  apply map_eq. intros k. rewrite delete_keys_lookup.
  rewrite decide_False; [done|]. apply not_elem_of_nil.
Qed.

(** The guard [if keys_to_delete:] only saves a query. *)
Lemma delete_keys_guarded keys table :
  (if decide (keys = []) then table else Identity.delete_keys keys table)
  = Identity.delete_keys keys table.
Proof. case_decide as Hnil; [|done]. by rewrite Hnil, delete_keys_nil. Qed.

Section bulk_update.
Variable write_bulk_update_fields : D → D → D.

Lemma bulk_update_lookup_other (objects : gmap string D) keys table k :
  k ∉ keys →
  Identity.bulk_update write_bulk_update_fields objects keys table !! k
  = table !! k.
Proof.
  unfold Identity.bulk_update. revert table.
  induction keys as [|key keys IH]; intros table Hk; simpl; [done|].
  apply not_elem_of_cons in Hk as [Hne Hk]. rewrite IH by done.
  destruct (objects !! key), (table !! key); try done.
  by rewrite lookup_insert_ne.
Qed.

Lemma bulk_update_lookup_None (objects : gmap string D) keys table k :
  table !! k = None →
  Identity.bulk_update write_bulk_update_fields objects keys table !! k = None.
Proof.
  unfold Identity.bulk_update. revert table.
  induction keys as [|key keys IH]; intros table Hk; simpl; [done|].
  apply IH. destruct (objects !! key), (table !! key) eqn:Hrow; try done.
  rewrite lookup_insert_ne; [done|]. intros Heq. rewrite Heq in Hrow.
  congruence.
Qed.
End bulk_update.
End trait_table_facts.

(** ** [generate_traits] *)

Section generate_traits_facts.
Context {V D : Type}.
Variable generate_trait_value_data : option V → D.

(** C9. [generate_traits] drops every item whose [trait_value] is null
    before it builds the trait models: the returned list holds one model
    per item with a value, in order, and nothing else; with [persist] the
    rows added to the table are rows of these models only. The call
    returns unless [persist] is set and the insert hits a taken key. *)
Theorem generate_traits_drops_null (self : Identity.t)
    (trait_data_items : list (TraitDataItem.t V)) (persist : bool)
    (table : gmap string D) :
  let trait_models :=
    (λ item,
       Trait.mk (TraitDataItem.trait_key item) (Identity.id self)
         (generate_trait_value_data (TraitDataItem.trait_value item)))
    <$> filter (λ item, TraitDataItem.trait_value item ≠ None)
               trait_data_items in
  (∀ trait, trait ∈ trait_models →
     ∃ value,
       TraitDataItem.mk (Trait.trait_key trait) (Some value) ∈ trait_data_items
       ∧ trait = Trait.mk (Trait.trait_key trait) (Identity.id self)
                   (generate_trait_value_data (Some value)))
  ∧ (∀ key value,
       TraitDataItem.mk key (Some value) ∈ trait_data_items →
       Trait.mk key (Identity.id self) (generate_trait_value_data (Some value))
         ∈ trait_models)
  ∧ (persist = false →
     Identity.generate_traits generate_trait_value_data self trait_data_items
       persist table
     = inr (trait_models, table))
  ∧ (∀ models table',
       Identity.generate_traits generate_trait_value_data self
         trait_data_items persist table
       = inr (models, table') →
       models = trait_models
       ∧ ∀ k d, table' !! k = Some d →
                table !! k = Some d
                ∨ ∃ trait, trait ∈ trait_models ∧ Trait.trait_key trait = k
                           ∧ Trait.value_data trait = d)
  ∧ (∀ e,
       Identity.generate_traits generate_trait_value_data self
         trait_data_items persist table
       = inl e →
       persist = true
       ∧ ∃ trait, trait ∈ trait_models
                  ∧ e = IntegrityError (Trait.trait_key trait)).
Proof.
  intros trait_models. split_and!.
  - intros trait ([key [value|]] & -> & [Hvalue Hin]%list_elem_of_filter)
      %list_elem_of_fmap; [|done].
    by exists value.
  - intros key value Hin. apply list_elem_of_fmap.
    exists (TraitDataItem.mk key (Some value)). split; [done|].
    by apply list_elem_of_filter.
  - intros ->. done.
  - unfold Identity.generate_traits. fold trait_models.
    intros models table'. destruct persist; simpl.
    + destruct (Identity.bulk_create false trait_models table)
        as [e|table''] eqn:Hcreate; simpl; [done|].
      intros [= <- <-]. split; [done|]. intros k d.
      by eapply bulk_create_lookup_new.
    + intros [= <- <-]. split; [done|]. intros k d ?. by left.
  - unfold Identity.generate_traits. fold trait_models.
    intros e. destruct persist; simpl; [|done].
    destruct (Identity.bulk_create false trait_models table)
      as [e'|table''] eqn:Hcreate; simpl; [|done].
    intros [= <-]. split; [done|]. by eapply bulk_create_raises.
Qed.
End generate_traits_facts.

Lemma generate_traits_drops_null_witness :
  Identity.generate_traits (λ value : option Z, value) Fixture.identity
    [TraitDataItem.mk "my_trait" (Some 123);
     TraitDataItem.mk "trait_that_does_not_exists" None]
    false ∅
  = inr ([Trait.mk "my_trait" 7 (Some 123)], ∅).
Proof.
  apply (generate_traits_drops_null (λ value : option Z, value)
           Fixture.identity
           [TraitDataItem.mk "my_trait" (Some 123);
            TraitDataItem.mk "trait_that_does_not_exists" None]
           false ∅).
  reflexivity.
Defined.

(** ** [update_traits] *)

Section update_traits_facts.
Context {V D : Type}.
Variable generate_trait_value_data : option V → D.
Variable trait_value_eq : D → option V → bool.
Variable setattrs : D → D → D.
Variable write_bulk_update_fields : D → D → D.
Variable self : Identity.t.

Local Abbreviation update_traits_item :=
  (Identity.update_traits_item generate_trait_value_data trait_value_eq
     setattrs self).
Local Abbreviation update_traits_loop :=
  (Identity.update_traits_loop generate_trait_value_data trait_value_eq
     setattrs self).
Local Abbreviation update_traits :=
  (Identity.update_traits generate_trait_value_data trait_value_eq setattrs
     write_bulk_update_fields self).

Implicit Types (st : Identity.update_state (D:=D)).
Implicit Types (item : TraitDataItem.t V) (items : list (TraitDataItem.t V)).

Local Abbreviation nulled_keys := (Identity.nulled_keys (V:=V)).

(** One iteration never raises: the lookup [current_traits[trait_key]] is
    guarded by [trait_key in current_traits]. It keeps the keys of
    [current_traits], appends the item's key to [keys_to_delete] when the
    value is null, and otherwise touches [new_traits] or [updated_traits]
    for the item's key only. *)
Lemma update_traits_item_spec st item :
  ∃ st',
    update_traits_item st item = inr st'
    ∧ (∀ k, Identity.current_traits st' !! k = None
            ↔ Identity.current_traits st !! k = None)
    ∧ Identity.keys_to_delete st'
      = Identity.keys_to_delete st ++ nulled_keys [item]
    ∧ (∀ t, t ∈ Identity.new_traits st' →
            t ∈ Identity.new_traits st
            ∨ (Trait.trait_key t = TraitDataItem.trait_key item
               ∧ Identity.current_traits st !! Trait.trait_key t = None))
    ∧ (∀ k, k ∈ Identity.updated_traits st' →
            k ∈ Identity.updated_traits st
            ∨ k = TraitDataItem.trait_key item).
Proof.
  unfold Identity.update_traits_item, Identity.nulled_keys.
  destruct item as [key [value|]]; simpl.
  - rewrite app_nil_r. case_decide as Hin.
    + destruct Hin as [current_trait Hcur]. unfold Identity.getitem.
      rewrite Hcur. simpl.
      destruct (trait_value_eq current_trait (Some value)).
      * eexists. split_and!; [done..| |]; intros ? ?; by left.
      * eexists. split; [done|]. simpl. split_and!; [|done| |].
        -- intros k. destruct (decide (key = k)) as [<-|Hne].
           ++ rewrite lookup_insert_eq, Hcur. done.
           ++ by rewrite lookup_insert_ne.
        -- intros ? ?; by left.
        -- intros k [?|Hk%list_elem_of_singleton]%elem_of_app; auto.
    + eexists. split; [done|]. simpl. split_and!; [done..| |].
      * intros t [?|Ht%list_elem_of_singleton]%elem_of_app; [by left|].
        subst t. right. simpl. split; [done|].
        by apply eq_None_not_Some.
      * intros ? ?; by left.
  - eexists. split; [done|]. simpl. split_and!; [done..| |]; intros ? ?; by left.
Qed.

Lemma nulled_keys_cons item items :
  nulled_keys (item :: items) = nulled_keys [item] ++ nulled_keys items.
Proof.
  unfold Identity.nulled_keys. rewrite !filter_cons, filter_nil.
  by case_decide.
Qed.

Lemma nulled_keys_app items1 items2 :
  nulled_keys (items1 ++ items2) = nulled_keys items1 ++ nulled_keys items2.
Proof. unfold Identity.nulled_keys. by rewrite filter_app, fmap_app. Qed.

Lemma elem_of_nulled_keys k items :
  k ∈ nulled_keys items ↔ TraitDataItem.mk k None ∈ items.
Proof.
  unfold Identity.nulled_keys. rewrite list_elem_of_fmap. split.
  - intros ([key value] & -> & [Hnull Hin]%list_elem_of_filter).
    simpl in *. by subst.
  - intros Hin. exists (TraitDataItem.mk k None). split; [done|].
    by apply list_elem_of_filter.
Qed.

(** The loop never raises either. *)
Lemma update_traits_loop_spec items st :
  ∃ st',
    update_traits_loop st items = inr st'
    ∧ (∀ k, Identity.current_traits st' !! k = None
            ↔ Identity.current_traits st !! k = None)
    ∧ Identity.keys_to_delete st'
      = Identity.keys_to_delete st ++ nulled_keys items
    ∧ (∀ t, t ∈ Identity.new_traits st' →
            t ∈ Identity.new_traits st
            ∨ (Trait.trait_key t ∈ TraitDataItem.trait_key <$> items
               ∧ Identity.current_traits st !! Trait.trait_key t = None))
    ∧ (∀ k, k ∈ Identity.updated_traits st' →
            k ∈ Identity.updated_traits st
            ∨ k ∈ TraitDataItem.trait_key <$> items).
Proof.
  revert st. induction items as [|item items IH]; intros st; simpl.
  - exists st. split_and!; [done..|by rewrite app_nil_r| |];
      intros ? ?; by left.
  - destruct (update_traits_item_spec st item)
      as (st1 & -> & Hdom1 & Hkeys1 & Hnew1 & Hupd1). simpl.
    destruct (IH st1) as (st' & -> & Hdom & Hkeys & Hnew & Hupd).
    exists st'. split; [done|]. split_and!.
    + intros k. by rewrite Hdom, Hdom1.
    + by rewrite Hkeys, Hkeys1, <-app_assoc, <-nulled_keys_cons.
    + intros t [Ht|[Hkey Hcur]]%Hnew.
      * apply Hnew1 in Ht as [?|[Hkey Hcur]]; [by left|].
        right. split; [|done]. rewrite Hkey. by left.
      * right. split; [by right|]. by apply Hdom1.
    + intros k [Hk|Hk]%Hupd.
      * apply Hupd1 in Hk as [?|Hk]; [by left|]. subst k. right. by left.
      * right. by right.
Qed.

Lemma update_traits_loop_app items1 items2 st :
  update_traits_loop st (items1 ++ items2)
  = update_traits_loop st items1 ≫= λ st1, update_traits_loop st1 items2.
Proof.
  revert st. induction items1 as [|item items1 IH]; intros st; simpl; [done|].
  destruct (update_traits_item st item) as [e|st1]; simpl; [done|]. apply IH.
Qed.

(** [keys_to_delete] is written and never read by the loop. *)
Lemma update_traits_item_keys_to_delete st item keys :
  update_traits_item
    (Identity.mkUpdate (Identity.current_traits st) keys
       (Identity.new_traits st) (Identity.updated_traits st)) item
  = update_traits_item st item ≫= λ st',
      mret (Identity.mkUpdate (Identity.current_traits st')
              (keys ++ nulled_keys [item])
              (Identity.new_traits st') (Identity.updated_traits st')).
Proof.
  unfold Identity.update_traits_item, Identity.nulled_keys.
  destruct item as [key [value|]]; simpl; [|done].
  rewrite app_nil_r. case_decide as Hin; [|done].
  destruct Hin as [current_trait Hcur]. unfold Identity.getitem.
  rewrite Hcur. simpl. by destruct (trait_value_eq current_trait (Some value)).
Qed.

Lemma update_traits_loop_keys_to_delete items st keys :
  update_traits_loop
    (Identity.mkUpdate (Identity.current_traits st) keys
       (Identity.new_traits st) (Identity.updated_traits st)) items
  = update_traits_loop st items ≫= λ st',
      mret (Identity.mkUpdate (Identity.current_traits st')
              (keys ++ nulled_keys items)
              (Identity.new_traits st') (Identity.updated_traits st')).
Proof.
  revert st keys. induction items as [|item items IH]; intros st keys; simpl.
  - by rewrite app_nil_r.
  - rewrite update_traits_item_keys_to_delete.
    destruct (update_traits_item st item) as [e|st1]; simpl; [done|].
    rewrite IH. destruct (update_traits_loop st1 items) as [e|st']; simpl;
      [done|].
    by rewrite <-app_assoc, <-nulled_keys_cons.
Qed.

(** [self.identity_traits.all()] lists the rows of the table. *)
Lemma elem_of_identity_traits_all (table : gmap string D) k (d : D) :
  Trait.mk k (Identity.id self) d ∈ Identity.identity_traits_all self table
  ↔ table !! k = Some d.
Proof.
  unfold Identity.identity_traits_all. rewrite list_elem_of_fmap. split.
  - intros ([k' d'] & [= -> ->] & Hin). by apply elem_of_map_to_list.
  - intros Hk. exists (k, d). split; [done|]. by apply elem_of_map_to_list.
Qed.

(** The table after [update_traits]: the three writes applied to the
    stored rows, with the lists that the loop built. *)
Lemma update_traits_table items (table : gmap string D) :
  ∃ st table',
    update_traits_loop (Identity.mkUpdate table [] [] []) items = inr st
    ∧ Identity.bulk_create true (Identity.new_traits st)
        (Identity.bulk_update write_bulk_update_fields
           (Identity.current_traits st) (Identity.updated_traits st)
           (Identity.delete_keys (Identity.keys_to_delete st) table))
      = inr table'
    ∧ update_traits items table
      = inr (Identity.identity_traits_all self table', table').
Proof.
  destruct (update_traits_loop_spec items (Identity.mkUpdate table [] [] []))
    as (st & Hloop & _).
  destruct (bulk_create_ignore_conflicts_total (Identity.new_traits st)
              (Identity.bulk_update write_bulk_update_fields
                 (Identity.current_traits st) (Identity.updated_traits st)
                 (Identity.delete_keys (Identity.keys_to_delete st) table)))
    as [table' Hcreate].
  exists st, table'. split_and!; [done..|].
  unfold Identity.update_traits. rewrite Hloop. simpl.
  rewrite delete_keys_guarded, Hcreate. done.
Qed.

Lemma update_traits_deleted items (table table' : gmap string D) k :
  update_traits items table
  = inr (Identity.identity_traits_all self table', table') →
  is_Some (table !! k) → TraitDataItem.mk k None ∈ items →
  table' !! k = None.
Proof.
  destruct (update_traits_table items table)
    as (st & table'' & Hloop & Hcreate & ->).
  intros [= _ <-] Hstored Hnull.
  destruct (update_traits_loop_spec items (Identity.mkUpdate table [] [] []))
    as (st' & Hloop' & _ & Hkeys & Hnew & _).
  rewrite Hloop in Hloop'. injection Hloop' as <-. simpl in *.
  rewrite (bulk_create_lookup_other _ _ _ _ k Hcreate).
  - apply bulk_update_lookup_None. rewrite delete_keys_lookup, Hkeys.
    rewrite decide_True; [done|]. by apply elem_of_nulled_keys.
  - intros obj [Hobj|[_ Hfresh]]%Hnew Hkey;
      [by apply elem_of_nil in Hobj|].
    rewrite Hkey in Hfresh. rewrite Hfresh in Hstored.
    by destruct Hstored.
Qed.

Lemma update_traits_untouched items (table table' : gmap string D) k :
  update_traits items table
  = inr (Identity.identity_traits_all self table', table') →
  k ∉ TraitDataItem.trait_key <$> items →
  table' !! k = table !! k.
Proof.
  destruct (update_traits_table items table)
    as (st & table'' & Hloop & Hcreate & ->).
  intros [= _ <-] Hk.
  destruct (update_traits_loop_spec items (Identity.mkUpdate table [] [] []))
    as (st' & Hloop' & _ & Hkeys & Hnew & Hupd).
  rewrite Hloop in Hloop'. injection Hloop' as <-. simpl in *.
  rewrite (bulk_create_lookup_other _ _ _ _ k Hcreate).
  - rewrite bulk_update_lookup_other.
    + rewrite delete_keys_lookup, Hkeys. rewrite decide_False; [done|].
      intros Hin%elem_of_nulled_keys. apply Hk.
      apply list_elem_of_fmap. by exists (TraitDataItem.mk k None).
    + intros [Hin|Hin]%Hupd; [by apply elem_of_nil in Hin|done].
  - intros obj [Hobj|[Hin _]]%Hnew Hkey;
      [by apply elem_of_nil in Hobj|].
    by rewrite Hkey in Hin.
Qed.

Lemma update_traits_null_absent items1 items2 (table : gmap string D) k :
  table !! k = None →
  update_traits (items1 ++ TraitDataItem.mk k None :: items2) table
  = update_traits (items1 ++ items2) table.
Proof.
  intros Habsent. unfold Identity.update_traits.
  rewrite !update_traits_loop_app.
  destruct (update_traits_loop (Identity.mkUpdate table [] [] []) items1)
    as [e|st1]; simpl; [done|].
  rewrite (update_traits_loop_keys_to_delete items2 st1
             (Identity.keys_to_delete st1 ++ [k])).
  destruct (update_traits_loop_spec items2 st1)
    as (st2 & -> & _ & Hkeys & _). simpl.
  rewrite !delete_keys_guarded, Hkeys.
  assert (Identity.delete_keys
            ((Identity.keys_to_delete st1 ++ [k]) ++ nulled_keys items2) table
          = Identity.delete_keys
              (Identity.keys_to_delete st1 ++ nulled_keys items2) table)
    as ->; [|done].
  apply map_eq. intros k'. rewrite !delete_keys_lookup.
  destruct (decide (k' = k)) as [->|Hne].
  - rewrite Habsent. by repeat case_decide.
  - apply decide_ext. rewrite !elem_of_app, list_elem_of_singleton. tauto.
Qed.

(** C5. [update_traits] never raises and returns the rows of the trait
    table as it stands after the merge. A stored trait whose key comes
    with a null value in the incoming list is deleted; a null value for a
    key that the identity does not have changes nothing, wherever the item
    stands in the list; a stored trait whose key is not in the incoming
    list is left as it is. *)
Theorem update_traits_null_deletes items (table : gmap string D) :
  ∃ table',
    update_traits items table
    = inr (Identity.identity_traits_all self table', table')
    ∧ (∀ k d, Trait.mk k (Identity.id self) d
                ∈ Identity.identity_traits_all self table'
              ↔ table' !! k = Some d)
    ∧ (∀ k, is_Some (table !! k) → TraitDataItem.mk k None ∈ items →
            table' !! k = None)
    ∧ (∀ k items1 items2,
         items = items1 ++ TraitDataItem.mk k None :: items2 →
         table !! k = None →
         update_traits items table = update_traits (items1 ++ items2) table)
    ∧ (∀ k, k ∉ TraitDataItem.trait_key <$> items →
            table' !! k = table !! k).
Proof.
  destruct (update_traits_table items table)
    as (st & table' & _ & _ & Hreturn).
  exists table'. split_and!.
  - done.
  - intros k d. apply elem_of_identity_traits_all.
  - intros k. by apply update_traits_deleted.
  - intros k items1 items2 -> Habsent. by apply update_traits_null_absent.
  - intros k. by apply update_traits_untouched.
Qed.
End update_traits_facts.

Lemma update_traits_null_deletes_witness :
  ∃ table',
    Identity.update_traits (λ value : option Z, value) Fixture.trait_value_eq
      (λ _ new, new) (λ _ obj, obj) Fixture.identity
      [TraitDataItem.mk "trait_key_1" None;
       TraitDataItem.mk "trait_that_does_not_exists" None]
      Fixture.identity_traits
    = inr (Identity.identity_traits_all Fixture.identity table', table')
    ∧ table' !! "trait_key_1" = None
    ∧ table' !! "trait_key_2" = Some (Some 2).
Proof.
  destruct (update_traits_null_deletes (λ value : option Z, value)
              Fixture.trait_value_eq (λ _ new, new) (λ _ obj, obj)
              Fixture.identity
              [TraitDataItem.mk "trait_key_1" None;
               TraitDataItem.mk "trait_that_does_not_exists" None]
              Fixture.identity_traits)
    as (table' & Hreturn & _ & Hdeleted & _ & Huntouched).
  exists table'. split; [exact Hreturn|]. split.
  - apply Hdeleted; [|repeat constructor]. exists (Some 1). by vm_compute.
  - rewrite Huntouched; [by vm_compute|].
    apply (bool_decide_unpack _). by vm_compute.
Defined.

Example update_traits_null_values :
  Identity.update_traits (λ value : option Z, value) Fixture.trait_value_eq
    (λ _ new, new) (λ _ obj, obj) Fixture.identity
    [TraitDataItem.mk "trait_key_1" None;
     TraitDataItem.mk "trait_that_does_not_exists" None]
    Fixture.identity_traits
  = inr ([Trait.mk "trait_key_2" 7 (Some 2)], {["trait_key_2" := Some 2]}).
Proof. by vm_compute. Qed.

Lemma trait_persistence_allowed_by_origin_witness :
  Environment.trait_persistence_allowed Fixture.environment_server_traits_only
    (Request.mk (Some RequestOrigin.SERVER))
  = true.
Proof.
  apply (trait_persistence_allowed_by_origin
           Fixture.environment_server_traits_only
           (Request.mk (Some RequestOrigin.SERVER))).
  reflexivity.
Defined.

(** ** [Environment.clone] *)

Lemma fresh_id_above (ids : list Z) (x : Z) :
  x ∈ ids → x < Environment.fresh_id ids.
Proof.
  unfold Environment.fresh_id. induction ids as [|y ids IH]; simpl.
  - intros Hin. by apply elem_of_nil in Hin.
  - intros [->|Hin]%elem_of_cons; [lia|]. specialize (IH Hin). lia.
Qed.

Lemma Forall2_elem_of_l {A B : Type} (R : A → B → Prop) (l : list A)
    (k : list B) (x : A) :
  Forall2 R l k → x ∈ l → ∃ y, y ∈ k ∧ R x y.
Proof.
  induction 1 as [|x' y' l k HR _ IH]; intros Hin.
  - by apply elem_of_nil in Hin.
  - apply elem_of_cons in Hin as [->|Hin].
    + exists y'. split; [by left|done].
    + destruct (IH Hin) as (y & ? & ?). exists y. split; [by right|done].
Qed.

Lemma Forall2_elem_of_r {A B : Type} (R : A → B → Prop) (l : list A)
    (k : list B) (y : B) :
  Forall2 R l k → y ∈ k → ∃ x, x ∈ l ∧ R x y.
Proof.
  induction 1 as [|x' y' l k HR _ IH]; intros Hin.
  - by apply elem_of_nil in Hin.
  - apply elem_of_cons in Hin as [->|Hin].
    + exists x'. split; [by left|done].
    + destruct (IH Hin) as (x & ? & ?). exists x. split; [by right|done].
Qed.

Section clone_facts.
Variable create_hash : string.
Variable FeatureSegment_clone
  : Environment.Db → FeatureSegment.t → Environment.t → FeatureSegment.t.
Variable FeatureState_clone
  : Environment.Db → FeatureState.t → Environment.t → option Z
    → FeatureState.t.
Variable clone : Environment.t.

(** The first loop saves one clone per feature segment it visits, in
    order, and writes no other table. *)
Lemma clone_feature_segments_loop (sources : list FeatureSegment.t)
    (db : Environment.Db) :
  let db' :=
    foldl (λ db feature_segment,
             Environment.save_feature_segment
               (FeatureSegment_clone db feature_segment clone) db)
          db sources in
  Environment.environments db' = Environment.environments db
  ∧ Environment.feature_states db' = Environment.feature_states db
  ∧ ∃ clones,
      Environment.feature_segments db'
      = Environment.feature_segments db ++ clones
      ∧ Forall2 (Environment.cloned_feature_segment FeatureSegment_clone clone)
          sources clones.
Proof.
  revert db. induction sources as [|source sources IH]; intros db; simpl.
  - split_and!; [done..|]. exists []. by rewrite app_nil_r.
  - destruct (IH (Environment.save_feature_segment
                    (FeatureSegment_clone db source clone) db))
      as (Henv & Hstates & clones & Hsegments & Hclones).
    split_and!; [done..|]. eexists (_ :: clones). split.
    + rewrite Hsegments. simpl. by rewrite <-app_assoc.
    + constructor; [|done]. by eexists _, _.
Qed.

(** So does the second loop for the feature states it visits. *)
Lemma clone_feature_states_loop (sources : list FeatureState.t)
    (db : Environment.Db) :
  let db' :=
    foldl (λ db feature_state,
             Environment.save_feature_state
               (FeatureState_clone db feature_state clone
                  (FeatureState.live_from feature_state)) db)
          db sources in
  Environment.environments db' = Environment.environments db
  ∧ Environment.feature_segments db' = Environment.feature_segments db
  ∧ ∃ clones,
      Environment.feature_states db'
      = Environment.feature_states db ++ clones
      ∧ Forall2 (Environment.cloned_feature_state FeatureState_clone clone)
          sources clones.
Proof.
  revert db. induction sources as [|source sources IH]; intros db; simpl.
  - split_and!; [done..|]. exists []. by rewrite app_nil_r.
  - destruct (IH (Environment.save_feature_state
                    (FeatureState_clone db source clone
                       (FeatureState.live_from source)) db))
      as (Henv & Hsegments & clones & Hstates & Hclones).
    split_and!; [done..|]. eexists (_ :: clones). split.
    + rewrite Hstates. simpl. by rewrite <-app_assoc.
    + constructor; [|done]. by eexists _, _.
Qed.
End clone_facts.

(** C8. [clone] saves a new environment, with a fresh id and the given
    name, and adds to the tables exactly one clone per feature segment of
    the source environment and one clone per feature state of the source
    environment whose identity is null, in order. Every feature state it
    adds is the clone of a source state without identity: no
    identity-scoped feature state is cloned. *)
Theorem clone_feature_states_without_identity (create_hash : string)
    (FeatureSegment_clone
      : Environment.Db → FeatureSegment.t → Environment.t → FeatureSegment.t)
    (FeatureState_clone
      : Environment.Db → FeatureState.t → Environment.t → option Z
        → FeatureState.t)
    (self : Environment.t) (name : string) (api_key : option string)
    (db : Environment.Db) :
  let result :=
    Environment.clone create_hash FeatureSegment_clone FeatureState_clone
      self name api_key db in
  let clone := result.1 in
  let db' := result.2 in
  Environment.environments db' = Environment.environments db ++ [clone]
  ∧ Environment.name clone = name
  ∧ (∀ environment, environment ∈ Environment.environments db →
       Environment.id environment ≠ Environment.id clone)
  ∧ ∃ segment_clones state_clones,
      Environment.feature_segments db'
      = Environment.feature_segments db ++ segment_clones
      ∧ Forall2 (Environment.cloned_feature_segment FeatureSegment_clone clone)
          (Environment.self_feature_segments self db) segment_clones
      ∧ Environment.feature_states db'
        = Environment.feature_states db ++ state_clones
      ∧ Forall2 (Environment.cloned_feature_state FeatureState_clone clone)
          (filter (λ row, FeatureState.identity_id row = None)
                  (Environment.self_feature_states self db))
          state_clones
      ∧ (∀ source, source ∈ Environment.feature_segments db →
           FeatureSegment.environment_id source = Environment.id self →
           ∃ row, row ∈ segment_clones
                  ∧ Environment.cloned_feature_segment FeatureSegment_clone
                      clone source row)
      ∧ (∀ source, source ∈ Environment.feature_states db →
           FeatureState.environment_id source = Environment.id self →
           FeatureState.identity_id source = None →
           ∃ row, row ∈ state_clones
                  ∧ Environment.cloned_feature_state FeatureState_clone
                      clone source row)
      ∧ (∀ row, row ∈ state_clones →
           ∃ source, source ∈ Environment.feature_states db
                     ∧ FeatureState.environment_id source = Environment.id self
                     ∧ FeatureState.identity_id source = None
                     ∧ Environment.cloned_feature_state FeatureState_clone
                         clone source row).
Proof.
  intros result clone db'. subst db' clone result.
  unfold Environment.clone, Environment.save_environment.
  set (clone := Environment.with_id _ _).
  set (db1 := Environment.mkDb _ _ _).
  destruct (clone_feature_segments_loop FeatureSegment_clone clone
              (Environment.self_feature_segments self db1) db1)
    as (Henv2 & Hstates2 & segment_clones & Hsegments2 & Hsegment_clones).
  set (db2 := foldl _ db1 (Environment.self_feature_segments self db1)) in *.
  destruct (clone_feature_states_loop FeatureState_clone clone
              (filter (λ row, FeatureState.identity_id row = None)
                 (Environment.self_feature_states self db2)) db2)
    as (Henv3 & Hsegments3 & state_clones & Hstates3 & Hstate_clones).
  cbn [fst snd].
  assert (Environment.self_feature_states self db2
          = Environment.self_feature_states self db) as Hsame.
  { unfold Environment.self_feature_states. by rewrite Hstates2. }
  rewrite Hsame in Hstate_clones.
  split_and!.
  - by rewrite Henv3, Henv2.
  - done.
  - intros environment Hin. apply Z.lt_neq. apply fresh_id_above.
    by apply list_elem_of_fmap_2.
  - exists segment_clones, state_clones. split_and!.
    + by rewrite Hsegments3, Hsegments2.
    + done.
    + by rewrite Hstates3, Hstates2.
    + done.
    + intros source Hin Henv.
      eapply Forall2_elem_of_l; [exact Hsegment_clones|].
      by apply list_elem_of_filter.
    + intros source Hin Henv Hidentity.
      eapply Forall2_elem_of_l; [exact Hstate_clones|].
      apply list_elem_of_filter. split; [done|].
      by apply list_elem_of_filter.
    + intros row Hrow.
      destruct (Forall2_elem_of_r _ _ _ _ Hstate_clones Hrow)
        as (source & [Hidentity [Henv Hin]%list_elem_of_filter]
                       %list_elem_of_filter & Hclone).
      by exists source.
Qed.

Lemma clone_feature_states_without_identity_witness :
  ∃ row,
    row ∈ Environment.feature_states
            (Environment.clone "hash" Fixture.FeatureSegment_clone
               Fixture.FeatureState_clone Fixture.environment "Clone" None
               Fixture.environment_db).2
    ∧ Environment.cloned_feature_state Fixture.FeatureState_clone
        (Environment.clone "hash" Fixture.FeatureSegment_clone
           Fixture.FeatureState_clone Fixture.environment "Clone" None
           Fixture.environment_db).1
        Fixture.segment_override row.
Proof.
  destruct (clone_feature_states_without_identity "hash"
              Fixture.FeatureSegment_clone Fixture.FeatureState_clone
              Fixture.environment "Clone" None Fixture.environment_db)
    as (_ & _ & _ & segment_clones & state_clones & _ & _ & Hstates & _ & _
        & Hcloned & _).
  destruct (Hcloned Fixture.segment_override) as (row & Hrow & Hclone).
  - vm_compute. repeat constructor.
  - reflexivity.
  - reflexivity.
  - exists row. split; [|exact Hclone].
    rewrite Hstates. apply elem_of_app. by right.
Defined.

Example clone_fixture :
  Environment.feature_states
    (Environment.clone "hash" Fixture.FeatureSegment_clone
       Fixture.FeatureState_clone Fixture.environment "Clone" None
       Fixture.environment_db).2
  = [Fixture.environment_default; Fixture.segment_override;
     Fixture.identity_override;
     FeatureState.mk 103 1 2 None None false (Some "default") (Some 0)
       (Some 1);
     FeatureState.mk 104 1 2 None (Some (FeatureSegment.mk 12 1 3 2 2)) true
       (Some "segment") (Some 0) (Some 1)].
Proof. by vm_compute. Qed.

(** ** Trait persistence policy on the edge identities view *)

Section edge_update_traits_facts.
Context {Document IdentityModel TraitModel Data : Type}.
Variable build_identity_model : Document → IdentityModel.
Variable build_identity_dict : IdentityModel → Document.
Variable trait_schema_load : Data → option TraitModel.
Variable trait_schema_dump : TraitModel → Data.
Variable identity_update_traits
  : IdentityModel → list TraitModel → IdentityModel * bool.

Local Abbreviation update_traits :=
  (EdgeIdentityViewSet.update_traits build_identity_model build_identity_dict
     trait_schema_load trait_schema_dump identity_update_traits).

(** C7 (amended). When the organisation's trait-persistence flag is
    false, [EdgeIdentityViewSet.update_traits] raises
    [TraitPersistenceError] and writes nothing, and
    [TraitPersistencePermissions.has_permission] denies the request. Both
    decide on that flag alone: neither reads [allow_client_traits] or the
    origin of the request. *)
Theorem update_traits_rejected_without_persistence
    (environment : Environment.t) (request : Request.t) (request_data : Data)
    (object : exn + Document) (dynamo : list Document) :
  (Organisation.persist_trait_data
     (Project.organisation (Environment.project environment)) = false →
   update_traits environment request request_data object dynamo
   = (inl TraitPersistenceError, dynamo)
   ∧ TraitPersistencePermissions.has_permission environment = false)
  ∧ (∀ environment' request',
       Organisation.persist_trait_data
         (Project.organisation (Environment.project environment'))
       = Organisation.persist_trait_data
           (Project.organisation (Environment.project environment)) →
       update_traits environment' request' request_data object dynamo
       = update_traits environment request request_data object dynamo
       ∧ TraitPersistencePermissions.has_permission environment'
         = TraitPersistencePermissions.has_permission environment).
Proof.
  unfold EdgeIdentityViewSet.update_traits,
    TraitPersistencePermissions.has_permission. split.
  - by intros ->.
  - by intros environment' request' ->.
Qed.
End edge_update_traits_facts.

Lemma update_traits_rejected_without_persistence_witness :
  EdgeIdentityViewSet.update_traits (λ document, document)
    (λ identity_model, identity_model) Some (λ trait, trait)
    Fixture.identity_update_traits Fixture.environment_without_persistence
    (Request.mk None) ("foo", 2) (inr Fixture.edge_document) []
  = (inl TraitPersistenceError, [])
  ∧ TraitPersistencePermissions.has_permission
      Fixture.environment_without_persistence
    = false.
Proof.
  apply (update_traits_rejected_without_persistence (λ document, document)
           (λ identity_model, identity_model) Some (λ trait, trait)
           Fixture.identity_update_traits
           Fixture.environment_without_persistence (Request.mk None)
           ("foo", 2) (inr Fixture.edge_document) []).
  reflexivity.
Defined.

(** C7 as stated fails where only client traits are disallowed: in an
    environment with [allow_client_traits] off, a request that does not
    carry a server key is answered with 200 and the trait is written. *)
Lemma update_traits_client_traits_disallowed_counterexample :
  ¬ (∀ environment request,
       EdgeIdentityViewSet.trait_persistence_disallowed environment request →
       ∃ e,
         (EdgeIdentityViewSet.update_traits (λ document, document)
            (λ identity_model, identity_model) Some (λ trait, trait)
            Fixture.identity_update_traits environment request ("foo", 2)
            (inr Fixture.edge_document) []).1
         = inl e).
Proof.
  intros Hrejected.
  destruct (Hrejected Fixture.environment_server_traits_only (Request.mk None))
    as [e He].
  - right. reflexivity.
  - vm_compute in He. discriminate He.
Qed.

Example update_traits_client_traits_disallowed :
  EdgeIdentityViewSet.update_traits (λ document, document)
    (λ identity_model, identity_model) Some (λ trait, trait)
    Fixture.identity_update_traits Fixture.environment_server_traits_only
    (Request.mk None) ("foo", 2) (inr Fixture.edge_document) []
  = (inr (EdgeIdentityViewSet.mkResponse ("foo", 2) 200),
     [[("foo", 2); ("plan", 1)]]).
Proof. reflexivity. Qed.

(** * Further properties *)

(** ** Server keys *)

(** X1. A server key is valid exactly while it is active and not yet at its
    expiry: validity at a later time implies validity at every earlier
    time, a key is already invalid at the instant [expires_at], and an
    inactive key is never valid. *)
Theorem is_valid_until_expiry (self : EnvironmentAPIKey.t) :
  (∀ earlier later,
     earlier ≤ later →
     EnvironmentAPIKey.is_valid self later = true →
     EnvironmentAPIKey.is_valid self earlier = true)
  ∧ (∀ expires_at,
       EnvironmentAPIKey.expires_at self = Some expires_at →
       EnvironmentAPIKey.is_valid self expires_at = false)
  ∧ (EnvironmentAPIKey.active self = false →
     ∀ now, EnvironmentAPIKey.is_valid self now = false)
  ∧ (EnvironmentAPIKey.active self = true →
     EnvironmentAPIKey.expires_at self = None →
     ∀ now, EnvironmentAPIKey.is_valid self now = true).
Proof.
  unfold EnvironmentAPIKey.is_valid. split_and!.
  - intros earlier later Hle.
    destruct (EnvironmentAPIKey.active self); [|done]. simpl.
    destruct (EnvironmentAPIKey.expires_at self) as [e|]; [|done].
    rewrite !bool_decide_eq_true. lia.
  - intros e ->. rewrite andb_false_iff. right.
    apply bool_decide_eq_false. lia.
  - by intros ->.
  - by intros -> ->.
Qed.

Lemma is_valid_until_expiry_witness :
  EnvironmentAPIKey.is_valid
    (EnvironmentAPIKey.mk 1 1 "ser.key" "server" (Some 20) true) 5
  = true.
Proof.
  destruct (is_valid_until_expiry
              (EnvironmentAPIKey.mk 1 1 "ser.key" "server" (Some 20) true))
    as (Hearlier & _).
  apply (Hearlier 5 10); [lia|reflexivity].
Defined.

(** ** The environment cache *)

Lemma queryset_get_inr {A : Type} (rows : list A) (row : A) :
  queryset_get rows = inr row ↔ rows = [row].
Proof.
  destruct rows as [|row' [|row'' rows]]; simpl; split; try done.
  - by intros [= ->].
  - by intros [= ->].
Qed.

Lemma queryset_get_inl {A : Type} (rows : list A) (e : error) :
  queryset_get rows = inl e →
  (e = DoesNotExist ∧ rows = [])
  ∨ (e = MultipleObjectsReturned ∧ (1 < length rows)%nat).
Proof.
  destruct rows as [|row' [|row'' rows]]; simpl; try done.
  - intros [= <-]. by left.
  - intros [= <-]. right. split; [done|lia].
Qed.

Lemma get_from_cache_outcomes (key : option string)
    (environment_cache : gmap string Environment.t)
    (environments : list Environment.t)
    (api_keys : list EnvironmentAPIKey.t) :
  let result :=
    Environment.get_from_cache key environment_cache environments api_keys in
  (∀ environment,
     result.1 = inr (Some environment) →
     ∃ key', key = Some key' ∧ key' ≠ ""
             ∧ result.2 !! key' = Some environment
             ∧ ∀ other, other ≠ key' →
                        result.2 !! other = environment_cache !! other)
  ∧ (result.1 = inr None → result.2 = environment_cache)
  ∧ (∀ e, result.1 = inl e →
          e = MultipleObjectsReturned ∧ result.2 = environment_cache).
Proof.
  intros result. subst result. unfold Environment.get_from_cache.
  destruct key as [key|]; [|by split_and!].
  case_decide as Hkey; [by split_and!|].
  destruct (environment_cache !! key) as [cached|] eqn:Hcache; simpl.
  - split_and!; [|done..]. intros environment [= <-].
    exists key. by split_and!.
  - destruct (queryset_get _) as [e|found] eqn:Hget; simpl.
    + apply queryset_get_inl in Hget as [[-> _]|[-> _]]; simpl.
      * by split_and!.
      * split_and!; [done..|]. by intros e [= <-].
    + split_and!; [|done..]. intros environment [= <-].
      exists key. split_and!; [done..|apply lookup_insert_eq|].
      intros other Hne. by apply lookup_insert_ne.
Qed.

(** X2. Whatever [get_from_cache] returns for a key is in the cache under
    that key afterwards, and a call that returns nothing or raises leaves
    the cache as it was; no other key's entry is touched. The only
    exception it lets through is [MultipleObjectsReturned]. *)
Theorem get_from_cache_postcondition (key : option string)
    (environment_cache : gmap string Environment.t)
    (environments : list Environment.t)
    (api_keys : list EnvironmentAPIKey.t) :
  let result :=
    Environment.get_from_cache key environment_cache environments api_keys in
  (∀ environment,
     result.1 = inr (Some environment) →
     ∃ key', key = Some key' ∧ key' ≠ ""
             ∧ result.2 !! key' = Some environment
             ∧ ∀ other, other ≠ key' →
                        result.2 !! other = environment_cache !! other)
  ∧ (result.1 = inr None → result.2 = environment_cache)
  ∧ (∀ e, result.1 = inl e →
          e = MultipleObjectsReturned ∧ result.2 = environment_cache).
Proof. apply get_from_cache_outcomes. Qed.

Lemma get_from_cache_postcondition_witness :
  ∃ key',
    Some "env-key" = Some key' ∧ key' ≠ ""
    ∧ (Environment.get_from_cache (Some "env-key") ∅ [Fixture.environment]
         []).2 !! key'
      = Some Fixture.environment
    ∧ ∀ other,
        other ≠ key' →
        (Environment.get_from_cache (Some "env-key") ∅ [Fixture.environment]
           []).2 !! other
        = (∅ : gmap string Environment.t) !! other.
Proof.
  apply (get_from_cache_postcondition (Some "env-key") ∅
           [Fixture.environment] []).
  reflexivity.
Defined.



Lemma with_api_key_pairs (key : string) (environments : list Environment.t)
    (api_keys api_keys' : list EnvironmentAPIKey.t) :
  (λ k, (EnvironmentAPIKey.environment_id k, EnvironmentAPIKey.key k))
    <$> api_keys
  = (λ k, (EnvironmentAPIKey.environment_id k, EnvironmentAPIKey.key k))
      <$> api_keys' →
  Environment.with_api_key key environments api_keys
  = Environment.with_api_key key environments api_keys'.
Proof.
  intros Hpairs. unfold Environment.with_api_key.
  apply list_filter_iff. intros row.
  assert (∀ l : list EnvironmentAPIKey.t,
    Exists (λ k, EnvironmentAPIKey.environment_id k = Environment.id row
                 ∧ EnvironmentAPIKey.key k = key) l
    ↔ (Environment.id row, key)
        ∈ (λ k, (EnvironmentAPIKey.environment_id k, EnvironmentAPIKey.key k))
            <$> l) as Hex.
  { intros l. rewrite Exists_exists, list_elem_of_fmap. split.
    - intros (k & Hin & <- & <-). by exists k.
    - intros (k & [= -> ->] & Hin). by exists k. }
  by rewrite !Hex, Hpairs.
Qed.

(** X4. [get_from_cache] looks at the environment and the key of a server
    key and at nothing else: it resolves an environment through a server
    key that is inactive or expired just as through a valid one. *)
Theorem get_from_cache_ignores_key_validity (key : option string)
    (environment_cache : gmap string Environment.t)
    (environments : list Environment.t)
    (api_keys api_keys' : list EnvironmentAPIKey.t) :
  (λ k, (EnvironmentAPIKey.environment_id k, EnvironmentAPIKey.key k))
    <$> api_keys
  = (λ k, (EnvironmentAPIKey.environment_id k, EnvironmentAPIKey.key k))
      <$> api_keys' →
  Environment.get_from_cache key environment_cache environments api_keys
  = Environment.get_from_cache key environment_cache environments api_keys'.
Proof.
  intros Hpairs. unfold Environment.get_from_cache.
  destruct key as [key|]; [|done].
  by rewrite (with_api_key_pairs key environments api_keys api_keys' Hpairs).
Qed.

Lemma get_from_cache_ignores_key_validity_witness :
  Environment.get_from_cache (Some "ser.key") ∅ [Fixture.environment]
    [EnvironmentAPIKey.mk 1 1 "ser.key" "server" None true]
  = Environment.get_from_cache (Some "ser.key") ∅ [Fixture.environment]
      [EnvironmentAPIKey.mk 1 1 "ser.key" "server" (Some 0) false].
Proof.
  apply (get_from_cache_ignores_key_validity (Some "ser.key") ∅
           [Fixture.environment]
           [EnvironmentAPIKey.mk 1 1 "ser.key" "server" None true]
           [EnvironmentAPIKey.mk 1 1 "ser.key" "server" (Some 0) false]).
  reflexivity.
Defined.

Example get_from_cache_expired_server_key :
  (Environment.get_from_cache (Some "ser.key") ∅ [Fixture.environment]
     [EnvironmentAPIKey.mk 1 1 "ser.key" "server" (Some 0) false]).1
  = inr (Some Fixture.environment).
Proof. reflexivity. Qed.

(** ** The cache of overridden segments *)

Lemma get_segments_from_cache_cases (self : Environment.t)
    (environment_segments_cache : gmap Z (list Segment.t))
    (overridden_segments : list Segment.t) :
  (∃ segment segments,
     environment_segments_cache !! Environment.id self
     = Some (segment :: segments)
     ∧ Environment.get_segments_from_cache self environment_segments_cache
         overridden_segments
       = (segment :: segments, environment_segments_cache))
  ∨ ((environment_segments_cache !! Environment.id self = None
      ∨ environment_segments_cache !! Environment.id self = Some [])
     ∧ Environment.get_segments_from_cache self environment_segments_cache
         overridden_segments
       = (overridden_segments,
          <[Environment.id self := overridden_segments]>
            environment_segments_cache)).
Proof.
  unfold Environment.get_segments_from_cache.
  destruct (environment_segments_cache !! Environment.id self)
    as [[|segment segments]|].
  - right. split; [by right|done].
  - left. by exists segment, segments.
  - right. split; [by left|done].
Qed.

(** X5. After a call the cache holds what the call returned. A list that is
    not empty is served from then on, whatever the database yields later;
    an empty list is stored but never served, so an environment without
    overridden segments queries the database on every call. *)
Theorem get_segments_from_cache_twice (self : Environment.t)
    (environment_segments_cache : gmap Z (list Segment.t))
    (overridden_segments overridden_segments' : list Segment.t) :
  let first :=
    Environment.get_segments_from_cache self environment_segments_cache
      overridden_segments in
  let second :=
    Environment.get_segments_from_cache self first.2 overridden_segments' in
  first.2 !! Environment.id self = Some first.1
  ∧ (first.1 ≠ [] → second = first)
  ∧ (first.1 = [] → second.1 = overridden_segments')
  ∧ (environment_segments_cache !! Environment.id self = Some [] →
     first.1 = overridden_segments).
Proof.
  intros first second. subst second first.
  destruct (get_segments_from_cache_cases self environment_segments_cache
              overridden_segments)
    as [(segment & segments & Hcache & ->)|[Hcache ->]]; simpl.
  - split_and!; [done| |done|by rewrite Hcache].
    intros _.
    destruct (get_segments_from_cache_cases self environment_segments_cache
                overridden_segments')
      as [(? & ? & Hcache' & ->)|[[Hcache'|Hcache'] _]]; congruence.
  - assert (<[Environment.id self := overridden_segments]>
              environment_segments_cache !! Environment.id self
            = Some overridden_segments) as Hnew by apply lookup_insert_eq.
    split_and!; [done| | |done].
    + intros Hne.
      destruct (get_segments_from_cache_cases self
                  (<[Environment.id self := overridden_segments]>
                     environment_segments_cache) overridden_segments')
        as [(? & ? & Hcache' & ->)|[[Hcache'|Hcache'] _]]; congruence.
    + intros ->.
      destruct (get_segments_from_cache_cases self
                  (<[Environment.id self := []]> environment_segments_cache)
                  overridden_segments')
        as [(? & ? & Hcache' & _)|[_ ->]]; [congruence|done].
Qed.

Lemma get_segments_from_cache_twice_witness :
  Environment.get_segments_from_cache Fixture.environment
    (Environment.get_segments_from_cache Fixture.environment ∅
       [Fixture.segment]).2
    []
  = Environment.get_segments_from_cache Fixture.environment ∅
      [Fixture.segment].
Proof.
  apply (get_segments_from_cache_twice Fixture.environment ∅
           [Fixture.segment] []).
  discriminate.
Defined.

(** ** [get_feature_state] *)

Lemma filter_first {A : Type} (P : A → Prop) `{∀ x, Decision (P x)}
    (l : list A) (x : A) :
  head (filter P l) = Some x
  ↔ ∃ before after,
      l = before ++ x :: after ∧ P x ∧ ∀ r, r ∈ before → ¬ P r.
Proof.
  induction l as [|a l IH].
  - split; [done|]. intros ([|??] & ? & ? & _); done.
  - rewrite filter_cons. destruct (decide (P a)) as [Ha|Ha]; simpl.
    + split.
      * intros [= ->]. exists [], l. split_and!; [done..|].
        intros r Hr. by apply elem_of_nil in Hr.
      * intros ([|b before] & after & Heq & Hx & Hbefore).
        -- by injection Heq as -> _.
        -- injection Heq as -> _. destruct (Hbefore b); [by left|done].
    + rewrite IH. split.
      * intros (before & after & -> & Hx & Hbefore).
        exists (a :: before), after. split_and!; [done..|].
        intros r [->|Hr]%elem_of_cons; [done|by apply Hbefore].
      * intros ([|b before] & after & Heq & Hx & Hbefore).
        -- injection Heq as -> _. done.
        -- injection Heq as -> ->. exists before, after.
           split_and!; [done..|]. intros r Hr. apply Hbefore. by right.
Qed.

Lemma filter_none {A : Type} (P : A → Prop) `{∀ x, Decision (P x)}
    (l : list A) :
  filter P l = [] ↔ ∀ r, r ∈ l → ¬ P r.
Proof.
  split.
  - intros Hnil r Hr HP.
    assert (r ∈ filter P l) as Hin by (by apply list_elem_of_filter).
    rewrite Hnil in Hin. by apply elem_of_nil in Hin.
  - intros Hnone. induction l as [|a l IH]; [done|].
    rewrite filter_cons_False; [|apply Hnone; by left].
    apply IH. intros r Hr. apply Hnone. by right.
Qed.

(** The rows that [get_feature_state] chooses from, as one filter. *)
Lemma get_feature_state_head (self : Environment.t) (feature_id : Z)
    (filter_kwargs : option (list Environment.lookup))
    (feature_states : list FeatureState.t) :
  let lookups :=
    match filter_kwargs with
    | None | Some [] =>
        [Environment.feature_segment_id None; Environment.identity_id None]
    | Some lookups => lookups
    end in
  Environment.get_feature_state self feature_id filter_kwargs feature_states
  = match
      head (filter (λ row,
                      FeatureState.feature_id row = feature_id
                      ∧ FeatureState.environment_id row = Environment.id self
                      ∧ Forall (Environment.lookup_holds row) lookups)
                   feature_states)
    with
    | Some fs => inr fs
    | None => inl StopIteration
    end.
Proof.
  intros lookups. unfold Environment.get_feature_state. fold lookups.
  rewrite list_filter_filter.
  by destruct (filter _ feature_states).
Qed.

(** X6. Called without [filter_kwargs], or with an empty dictionary,
    [get_feature_state] returns the first row of the table that is the
    environment default of the feature in this environment, and raises
    [StopIteration] (it does not return [None]) exactly when the
    environment has no such row. *)
Theorem get_feature_state_environment_default (self : Environment.t)
    (feature_id : Z) (filter_kwargs : option (list Environment.lookup))
    (feature_states : list FeatureState.t) :
  filter_kwargs = None ∨ filter_kwargs = Some [] →
  let is_default row :=
    FeatureState.feature_id row = feature_id
    ∧ FeatureState.environment_id row = Environment.id self
    ∧ FeatureState.feature_segment row = None
    ∧ FeatureState.identity_id row = None in
  (∀ fs,
     Environment.get_feature_state self feature_id filter_kwargs feature_states
     = inr fs
     ↔ ∃ before after,
         feature_states = before ++ fs :: after
         ∧ is_default fs ∧ ∀ row, row ∈ before → ¬ is_default row)
  ∧ (∀ e,
       Environment.get_feature_state self feature_id filter_kwargs
         feature_states
       = inl e
       ↔ e = StopIteration ∧ ∀ row, row ∈ feature_states → ¬ is_default row).
Proof.
  intros Hkwargs is_default.
  assert (∀ row,
    (FeatureState.feature_id row = feature_id
     ∧ FeatureState.environment_id row = Environment.id self
     ∧ Forall (Environment.lookup_holds row)
         [Environment.feature_segment_id None; Environment.identity_id None])
    ↔ is_default row) as Hdefault.
  { intros row. unfold is_default.
    rewrite !Forall_cons, Forall_nil. simpl. rewrite fmap_None. tauto. }
  rewrite get_feature_state_head.
  assert (match filter_kwargs with
          | None | Some [] =>
              [Environment.feature_segment_id None; Environment.identity_id None]
          | Some lookups => lookups
          end
          = [Environment.feature_segment_id None; Environment.identity_id None])
    as -> by (by destruct Hkwargs as [->| ->]).
  rewrite (list_filter_iff _ is_default) by done.
  split.
  - intros fs. rewrite <-(filter_first is_default).
    destruct (head (filter is_default feature_states)) as [fs'|].
    + split; by intros [= ->].
    + by split.
  - intros e. rewrite <-(filter_none is_default).
    destruct (filter is_default feature_states) eqn:Hfilter; simpl.
    + split; [by intros [= <-]|by intros [-> _]].
    + split; [done|by intros [_ ?]].
Qed.

Lemma get_feature_state_environment_default_witness :
  Environment.get_feature_state Fixture.environment 1 (Some [])
    (Environment.feature_states Fixture.environment_db)
  = inr Fixture.environment_default.
Proof.
  destruct (get_feature_state_environment_default Fixture.environment 1
              (Some []) (Environment.feature_states Fixture.environment_db))
    as [Hfound _]; [by right|].
  apply Hfound. exists [], [Fixture.segment_override; Fixture.identity_override].
  split_and!; [done..|]. intros row Hrow. by apply elem_of_nil in Hrow.
Defined.

Example get_feature_state_missing_feature :
  Environment.get_feature_state Fixture.environment 2 None
    (Environment.feature_states Fixture.environment_db)
  = inl StopIteration.
Proof. reflexivity. Qed.

Example get_feature_state_identity_override :
  Environment.get_feature_state Fixture.environment 1
    (Some [Environment.identity_id (Some 7)])
    (Environment.feature_states Fixture.environment_db)
  = inr Fixture.identity_override.
Proof. reflexivity. Qed.

(** ** [write_environments_to_dynamodb] *)

Lemma filter_unique_key {A : Type} (f : A → Z) (n : Z) (l : list A) :
  NoDup (f <$> l) →
  filter (λ row, Some (f row) = Some n) l = []
  ∨ ∃ row, filter (λ row, Some (f row) = Some n) l = [row].
Proof.
  induction l as [|a l IH]; [by left|].
  rewrite fmap_cons, NoDup_cons. intros [Ha Hnd].
  rewrite filter_cons. destruct (decide (Some (f a) = Some n)) as [Heq|Hne].
  - right. exists a. f_equal. apply filter_none.
    intros r Hr Hrn. apply Ha. apply list_elem_of_fmap. exists r.
    split; [congruence|done].
  - by apply IH.
Qed.

(** X7. Where primary keys are unique, [write_environments_to_dynamodb] never
    raises: the environments it selects, by id or else by project, belong
    to one project. It writes at most once: all the selected environments
    in one call, and only when there are some, the project of the first
    has [enable_dynamo_db] set and the wrapper is enabled. *)
Theorem write_environments_to_dynamodb_one_project
    (environment_id project_id : option Z)
    (environments : list Environment.t) (is_enabled : bool)
    (written : list (list Environment.t)) :
  NoDup (Environment.id <$> environments) →
  let result :=
    Environment.write_environments_to_dynamodb environment_id project_id
      environments is_enabled written in
  let selected environment :=
    environment ∈ environments
    ∧ if truthy_int environment_id
      then Some (Environment.id environment) = environment_id
      else Some (Project.id (Environment.project environment)) = project_id in
  result.1 = inr ()
  ∧ (result.2 = written
     ∨ ∃ first rest,
         result.2 = written ++ [first :: rest]
         ∧ is_enabled = true
         ∧ Project.enable_dynamo_db (Environment.project first) = true
         ∧ ∀ environment,
             environment ∈ first :: rest ↔ selected environment)
  ∧ (result.2 = written →
     is_enabled = false
     ∨ ∀ environment,
         selected environment →
         ∃ first,
           selected first
           ∧ Project.enable_dynamo_db (Environment.project first) = false).
Proof.
  intros Hnd result selected. subst result.
  unfold Environment.write_environments_to_dynamodb.
  set (rows := if truthy_int environment_id then _ else _).
  assert (∀ environment, environment ∈ rows ↔ selected environment) as Hrows.
  { intros environment. unfold rows, selected.
    destruct (truthy_int environment_id); rewrite list_elem_of_filter; tauto. }
  assert (∀ first rest, rows = first :: rest →
    Forall (λ environment,
              Project.id (Environment.project environment)
              = Project.id (Environment.project first)) rest) as Hsame.
  { intros first rest Hrows'. unfold rows in Hrows'.
    destruct (truthy_int environment_id) eqn:Htruthy.
    - destruct environment_id as [n|]; [|done].
      destruct (filter_unique_key Environment.id n environments Hnd)
        as [Hnil|[row Hone]]; [congruence|].
      rewrite Hone in Hrows'. injection Hrows' as _ <-. constructor.
    - assert (Forall (λ row, Some (Project.id (Environment.project row))
                             = project_id) (first :: rest)) as Hall.
      { rewrite <-Hrows'. apply Forall_forall.
        by intros r [? _]%list_elem_of_filter. }
      apply Forall_cons in Hall as [Hfirst Hrest].
      eapply Forall_impl; [exact Hrest|]. simpl. intros r Hr. congruence. }
  destruct rows as [|first rest] eqn:Hsel.
  - simpl. split_and!; [done|by left|]. intros _. right.
    intros environment Hselected%Hrows. by apply elem_of_nil in Hselected.
  - rewrite bool_decide_eq_true_2 by (by apply Hsame).
    destruct (Project.enable_dynamo_db (Environment.project first)) eqn:Hdb;
      destruct is_enabled; simpl.
    + split_and!; [done| |].
      * right. by exists first, rest.
      * intros Heq. exfalso.
        apply (f_equal length) in Heq. rewrite length_app in Heq.
        simpl in Heq. lia.
    + split_and!; [done|by left|]. intros _. by left.
    + split_and!; [done|by left|]. intros _. right. intros _ _.
      exists first. split; [|done]. apply Hrows. by left.
    + split_and!; [done|by left|]. intros _. by left.
Qed.

Lemma write_environments_to_dynamodb_one_project_witness :
  (Environment.write_environments_to_dynamodb None (Some 1)
     [Fixture.environment; Fixture.environment_without_persistence]
     true []).1
  = inr ().
Proof.
  apply (write_environments_to_dynamodb_one_project None (Some 1)
           [Fixture.environment; Fixture.environment_without_persistence]
           true []).
  apply (bool_decide_unpack _). by vm_compute.
Defined.

Example write_environments_to_dynamodb_by_project :
  Environment.write_environments_to_dynamodb None (Some 1)
    [Fixture.environment; Fixture.environment_without_persistence] true []
  = (inr (), [[Fixture.environment]]).
Proof. reflexivity. Qed.

(** ** The order of the returned flags *)

Example first_occurrences_example :
  first_occurrences [3; 1; 3; 2; 1] = [3; 1; 2].
Proof. reflexivity. Qed.

Lemma filter_all {A : Type} (P : A → Prop) `{∀ x, Decision (P x)}
    (l : list A) :
  (∀ x, x ∈ l → P x) → filter P l = l.
Proof.
  induction l as [|a l IH]; intros Hall; [done|].
  rewrite filter_cons_True by (apply Hall; by left).
  f_equal. apply IH. intros x Hx. apply Hall. by right.
Qed.

Section order_facts.
Variable gt : FeatureState.t → FeatureState.t → bool.

Lemma keep_highest_priority_keys (d : PyDict.t FeatureState.t)
    (flag : FeatureState.t) :
  PyDict.keys (Identity.keep_highest_priority gt d flag)
  = if decide (FeatureState.feature_id flag ∈ PyDict.keys d)
    then PyDict.keys d
    else PyDict.keys d ++ [FeatureState.feature_id flag].
Proof.
  unfold Identity.keep_highest_priority.
  destruct (PyDict.get d (FeatureState.feature_id flag)) as [cur|] eqn:Hget.
  - assert (FeatureState.feature_id flag ∈ PyDict.keys d) as Hin.
    { destruct (decide (FeatureState.feature_id flag ∈ PyDict.keys d))
        as [?|Hnin]; [done|].
      apply PyDict_get_None in Hnin. congruence. }
    rewrite decide_True by done.
    destruct (gt flag cur); [by apply PyDict_keys_set_present|done].
  - apply PyDict_get_None in Hget. rewrite decide_False by done.
    by apply PyDict_keys_set_absent.
Qed.

Lemma foldl_keep_highest_priority_keys (rows : list FeatureState.t)
    (d : PyDict.t FeatureState.t) :
  PyDict.keys (foldl (Identity.keep_highest_priority gt) d rows)
  = PyDict.keys d
    ++ filter (λ y, y ∉ PyDict.keys d)
         (first_occurrences (FeatureState.feature_id <$> rows)).
Proof.
  revert d. induction rows as [|flag rows IH]; intros d; simpl.
  - by rewrite app_nil_r.
  - rewrite IH, keep_highest_priority_keys. rewrite filter_cons.
    set (l := first_occurrences (FeatureState.feature_id <$> rows)).
    destruct (decide (FeatureState.feature_id flag ∈ PyDict.keys d))
      as [Hin|Hnin].
    + rewrite decide_False by (by intros ?). f_equal.
      rewrite list_filter_filter. apply list_filter_iff.
      intros y. split; [|by intros [? _]].
      intros Hy. split; [done|]. by intros ->.
    + rewrite decide_True by done. rewrite <-app_assoc. simpl. do 2 f_equal.
      rewrite list_filter_filter. apply list_filter_iff.
      intros y. rewrite not_elem_of_app, list_elem_of_singleton. tauto.
Qed.

Lemma identity_flags_keys (rows : list FeatureState.t) :
  PyDict.keys (Identity.identity_flags gt rows)
  = first_occurrences (FeatureState.feature_id <$> rows).
Proof.
  unfold Identity.identity_flags. rewrite foldl_keep_highest_priority_keys.
  simpl. apply filter_all. intros y _. apply not_elem_of_nil.
Qed.
End order_facts.

(** X8. The flags come in the order in which the features occur first among
    the candidate rows: when disabled flags are not hidden, the features
    of the returned list are exactly the distinct features of the
    candidates in that order; when they are hidden, the list is that one
    with the disabled states left out. This holds for any comparison of
    feature states. *)
Theorem get_all_feature_states_in_candidate_order {D : Type}
    (does_identity_match : Segment.t → Identity.t → list (Trait.t D) → bool)
    (gt : FeatureState.t → FeatureState.t → bool)
    (self : Identity.t) (db : Identity.Db D) (now : Z)
    (traits : option (list (Trait.t D))) (additional_filters : option Q) :
  let candidates :=
    Identity.all_flags does_identity_match self db now traits
      additional_filters in
  let result :=
    Identity.get_all_feature_states does_identity_match gt self db now traits
      additional_filters in
  ∃ selected,
    FeatureState.feature_id <$> selected
    = first_occurrences (FeatureState.feature_id <$> candidates)
    ∧ (Environment.get_hide_disabled_flags (Identity.environment self) = false →
       result = selected)
    ∧ (Environment.get_hide_disabled_flags (Identity.environment self) = true →
       result = filter (λ s, FeatureState.enabled s = true) selected).
Proof.
  intros candidates result.
  exists (PyDict.values (Identity.identity_flags gt candidates)).
  split_and!.
  - erewrite visited_feature_ids by apply visited_identity_flags.
    apply identity_flags_keys.
  - intros Hhide. subst result. unfold Identity.get_all_feature_states.
    by rewrite Hhide.
  - intros Hhide. subst result. unfold Identity.get_all_feature_states.
    by rewrite Hhide.
Qed.

Lemma get_all_feature_states_in_candidate_order_witness :
  ∃ selected,
    FeatureState.feature_id <$> selected = [1]
    ∧ Identity.get_all_feature_states Fixture.does_identity_match Priority.gt
        Fixture.identity Fixture.db Fixture.now None None
      = selected.
Proof.
  destruct (get_all_feature_states_in_candidate_order
              Fixture.does_identity_match Priority.gt Fixture.identity
              Fixture.db Fixture.now None None)
    as (selected & Hfeatures & Hshown & _).
  exists selected. split; [exact Hfeatures|]. apply Hshown. reflexivity.
Defined.

(** ** What [update_traits] stores *)

Section update_traits_values.
Context {V D : Type}.
Variable generate_trait_value_data : option V → D.
Variable trait_value_eq : D → option V → bool.
Variable setattrs : D → D → D.
Variable write_bulk_update_fields : D → D → D.
Variable self : Identity.t.

Local Abbreviation update_traits_item :=
  (Identity.update_traits_item generate_trait_value_data trait_value_eq
     setattrs self).
Local Abbreviation update_traits_loop :=
  (Identity.update_traits_loop generate_trait_value_data trait_value_eq
     setattrs self).
Local Abbreviation update_traits :=
  (Identity.update_traits generate_trait_value_data trait_value_eq setattrs
     write_bulk_update_fields self).
Local Abbreviation build :=
  (λ item : TraitDataItem.t V,
     Trait.mk (TraitDataItem.trait_key item) (Identity.id self)
       (generate_trait_value_data (TraitDataItem.trait_value item))).

Implicit Types (st : Identity.update_state (D:=D)).
Implicit Types (item : TraitDataItem.t V) (items : list (TraitDataItem.t V)).
Implicit Types (table : gmap string D) (k : string).

Lemma update_traits_item_new_traits item st st' :
  update_traits_item st item = inr st' →
  Identity.new_traits st'
  = Identity.new_traits st
    ++ (build
        <$> filter (λ item,
                      TraitDataItem.trait_value item ≠ None
                      ∧ Identity.current_traits st
                        !! TraitDataItem.trait_key item = None) [item]).
Proof.
  unfold Identity.update_traits_item. rewrite filter_cons, filter_nil.
  destruct item as [key [value|]]; simpl.
  - destruct (decide (is_Some (Identity.current_traits st !! key)))
      as [[current_trait Hcur]|Hfresh].
    + unfold Identity.getitem. rewrite Hcur. simpl.
      rewrite app_nil_r.
      destruct (trait_value_eq current_trait (Some value));
        by intros [= <-].
    + apply eq_None_not_Some in Hfresh. rewrite decide_True by (by split).
      by intros [= <-].
  - rewrite app_nil_r. by intros [= <-].
Qed.

(** The traits staged as new are the items with a value whose key has
    no trait object, in order. *)
Lemma update_traits_loop_new_traits items st st' :
  update_traits_loop st items = inr st' →
  Identity.new_traits st'
  = Identity.new_traits st
    ++ (build
        <$> filter (λ item,
                      TraitDataItem.trait_value item ≠ None
                      ∧ Identity.current_traits st
                        !! TraitDataItem.trait_key item = None) items).
Proof.
  revert st. induction items as [|item items IH]; intros st; simpl.
  - intros [= <-]. by rewrite app_nil_r.
  - destruct (update_traits_item_spec generate_trait_value_data trait_value_eq
                setattrs self st item) as (st1 & Hstep & Hdom & _).
    rewrite Hstep. simpl. intros Hloop. rewrite (IH _ Hloop).
    rewrite (update_traits_item_new_traits _ _ _ Hstep).
    rewrite (list_filter_iff
               (λ item, TraitDataItem.trait_value item ≠ None
                        ∧ Identity.current_traits st1
                          !! TraitDataItem.trait_key item = None)
               (λ item, TraitDataItem.trait_value item ≠ None
                        ∧ Identity.current_traits st
                          !! TraitDataItem.trait_key item = None))
      by (intros ?; by rewrite Hdom).
    change (item :: items) with ([item] ++ items).
    by rewrite filter_app, fmap_app, app_assoc.
Qed.

(** With conflicts ignored, the first object of a free key is the one
    inserted. *)
Lemma bulk_create_first (objs : list (Trait.t D)) table table' k :
  table !! k = None →
  Identity.bulk_create true objs table = inr table' →
  table' !! k
  = Trait.value_data <$> head (filter (λ obj, Trait.trait_key obj = k) objs).
Proof.
  revert table. induction objs as [|obj objs IH]; intros table Hk; simpl.
  - by intros [= <-].
  - rewrite filter_cons.
    destruct (table !! Trait.trait_key obj) as [d|] eqn:Hrow.
    + rewrite decide_False by (intros Heq; rewrite Heq in Hrow; congruence).
      by apply IH.
    + destruct (decide (Trait.trait_key obj = k)) as [Heq|Hne]; simpl.
      * intros Hcreate.
        apply (bulk_create_lookup_old _ _ _ _ k (Trait.value_data obj)
                 Hcreate).
        rewrite Heq. apply lookup_insert_eq.
      * apply IH. by rewrite lookup_insert_ne.
Qed.

Lemma head_filter_build items table k :
  table !! k = None →
  Trait.value_data
  <$> head (filter (λ obj, Trait.trait_key obj = k)
              (build
               <$> filter (λ item,
                             TraitDataItem.trait_value item ≠ None
                             ∧ table !! TraitDataItem.trait_key item = None)
                          items))
  = (λ item, generate_trait_value_data (TraitDataItem.trait_value item))
    <$> head (filter (λ item,
                        TraitDataItem.trait_key item = k
                        ∧ TraitDataItem.trait_value item ≠ None) items).
Proof.
  intros Hk. induction items as [|item items IH]; [done|].
  rewrite !filter_cons.
  destruct (decide (TraitDataItem.trait_key item = k
                    ∧ TraitDataItem.trait_value item ≠ None))
    as [[Heq Hval]|Hno].
  - rewrite (decide_True
               (P:=TraitDataItem.trait_value item ≠ None
                   ∧ table !! TraitDataItem.trait_key item = None))
      by (by rewrite Heq).
    rewrite fmap_cons, filter_cons. simpl. by rewrite decide_True.
  - destruct (decide (TraitDataItem.trait_value item ≠ None
                      ∧ table !! TraitDataItem.trait_key item = None))
      as [[Hval Hfree]|Hno'];
      [|exact IH].
    rewrite fmap_cons, filter_cons. simpl.
    rewrite decide_False; [exact IH|]. intros Heq. by apply Hno.
Qed.

(** X9. For a key that the identity does not have, the value stored by
    [update_traits] is generated from the first incoming item of that key
    that has a value: later values of the key in the same list are
    dropped, null items of the key change nothing, and without an item
    with a value the key stays absent. *)
Theorem update_traits_new_key_first_value items table k :
  table !! k = None →
  ∃ table',
    update_traits items table
    = inr (Identity.identity_traits_all self table', table')
    ∧ table' !! k
      = (λ item, generate_trait_value_data (TraitDataItem.trait_value item))
        <$> head (filter (λ item,
                            TraitDataItem.trait_key item = k
                            ∧ TraitDataItem.trait_value item ≠ None) items).
Proof.
  intros Hk.
  destruct (update_traits_table generate_trait_value_data trait_value_eq
              setattrs write_bulk_update_fields self items table)
    as (st & table' & Hloop & Hcreate & Hreturn).
  exists table'. split; [done|].
  rewrite (bulk_create_first _ _ _ k
             ltac:(apply bulk_update_lookup_None;
                   rewrite delete_keys_lookup; by case_decide) Hcreate).
  rewrite (update_traits_loop_new_traits _ _ _ Hloop). simpl.
  by apply head_filter_build.
Qed.

(** An item leaves the trait object of another key alone and does not
    stage that key for an update. *)
Lemma update_traits_item_other_key item st st' k :
  update_traits_item st item = inr st' →
  TraitDataItem.trait_key item ≠ k →
  Identity.current_traits st' !! k = Identity.current_traits st !! k
  ∧ filter (λ x, x = k) (Identity.updated_traits st')
    = filter (λ x, x = k) (Identity.updated_traits st).
Proof.
  unfold Identity.update_traits_item.
  destruct item as [key [value|]]; simpl; intros Hstep Hne.
  - destruct (decide (is_Some (Identity.current_traits st !! key)))
      as [[current_trait Hcur]|Hfresh].
    + unfold Identity.getitem in Hstep. rewrite Hcur in Hstep.
      simpl in Hstep.
      destruct (trait_value_eq current_trait (Some value));
        injection Hstep as <-; [done|]. simpl.
      rewrite lookup_insert_ne by done. split; [done|].
      rewrite filter_app, filter_cons, filter_nil.
      rewrite decide_False by done. by rewrite app_nil_r.
    + by injection Hstep as <-.
  - by injection Hstep as <-.
Qed.

Lemma update_traits_loop_other_key items st st' k :
  update_traits_loop st items = inr st' →
  k ∉ TraitDataItem.trait_key <$> items →
  Identity.current_traits st' !! k = Identity.current_traits st !! k
  ∧ filter (λ x, x = k) (Identity.updated_traits st')
    = filter (λ x, x = k) (Identity.updated_traits st).
Proof.
  revert st. induction items as [|item items IH]; intros st; simpl.
  - by intros [= <-].
  - rewrite not_elem_of_cons. intros Hloop [Hne Hnin].
    destruct (update_traits_item st item) as [e|st1] eqn:Hstep;
      simpl in Hloop; [done|].
    destruct (update_traits_item_other_key _ _ _ k Hstep) as [Hcur Hupd];
      [done|].
    destruct (IH _ Hloop Hnin) as [Hcur' Hupd'].
    by rewrite Hcur', Hupd'.
Qed.

(** [bulk_update] with the key staged once writes the row once. *)
Lemma bulk_update_lookup_once (objects : gmap string D) (keys : list string)
    table k (obj row : D) :
  filter (λ x, x = k) keys = [k] →
  objects !! k = Some obj → table !! k = Some row →
  Identity.bulk_update write_bulk_update_fields objects keys table !! k
  = Some (write_bulk_update_fields row obj).
Proof.
  unfold Identity.bulk_update. revert table.
  induction keys as [|key keys IH]; intros table; simpl; [done|].
  rewrite filter_cons. destruct (decide (key = k)) as [->|Hne].
  - intros [= Hrest] Hobj Hrow. rewrite Hobj, Hrow.
    assert (k ∉ keys) as Hnin.
    { intros Hin. eapply (filter_none (λ x, x = k)); [exact Hrest|exact Hin|].
      done. }
    pose proof (bulk_update_lookup_other write_bulk_update_fields objects
                  keys (<[k := write_bulk_update_fields row obj]> table) k
                  Hnin) as Hother.
    unfold Identity.bulk_update in Hother. rewrite Hother.
    apply lookup_insert_eq.
  - intros Hrest Hobj Hrow. apply IH; [done..|].
    destruct (objects !! key), (table !! key); try done.
    by rewrite lookup_insert_ne.
Qed.

(** X10. For a key that the identity has and that comes once in the incoming
    list, with a value: the stored row is left as it is when the value
    compares equal to the stored one, and otherwise it is the row written
    from the trait object after the new value data was set on it. *)
Theorem update_traits_existing_key before after table k (value : V)
    (row : D) :
  k ∉ TraitDataItem.trait_key <$> before →
  k ∉ TraitDataItem.trait_key <$> after →
  table !! k = Some row →
  ∃ table',
    update_traits (before ++ TraitDataItem.mk k (Some value) :: after) table
    = inr (Identity.identity_traits_all self table', table')
    ∧ table' !! k
      = Some (if trait_value_eq row (Some value) then row
              else write_bulk_update_fields row
                     (setattrs row (generate_trait_value_data (Some value)))).
Proof.
  intros Hbefore Hafter Hrow.
  set (items := before ++ TraitDataItem.mk k (Some value) :: after).
  destruct (update_traits_table generate_trait_value_data trait_value_eq
              setattrs write_bulk_update_fields self items table)
    as (st & table' & Hloop & Hcreate & Hreturn).
  exists table'. split; [done|].
  destruct (update_traits_loop_spec generate_trait_value_data trait_value_eq
              setattrs self items (Identity.mkUpdate table [] [] []))
    as (st' & Hloop' & _ & Hkeys & Hnew & _).
  rewrite Hloop in Hloop'. injection Hloop' as <-. simpl in Hkeys, Hnew.
  (* the loop, item by item *)
  unfold items in Hloop. rewrite update_traits_loop_app in Hloop.
  destruct (update_traits_loop (Identity.mkUpdate table [] [] []) before)
    as [e|st1] eqn:Hloop1; simpl in Hloop; [done|].
  destruct (update_traits_loop_other_key _ _ _ k Hloop1 Hbefore)
    as [Hcur1 Hupd1]. simpl in Hcur1, Hupd1.
  destruct (update_traits_item st1 (TraitDataItem.mk k (Some value)))
    as [e|st2] eqn:Hstep; simpl in Hloop; [done|].
  destruct (update_traits_loop_other_key _ _ _ k Hloop Hafter)
    as [Hcur3 Hupd3].
  (* the key is not deleted and not created *)
  assert (Identity.delete_keys (Identity.keys_to_delete st) table !! k
          = Some row) as Hdeleted.
  { rewrite delete_keys_lookup, Hkeys. rewrite decide_False; [done|].
    intros Hin%elem_of_nulled_keys. unfold items in Hin.
    apply elem_of_app in Hin as [Hin|Hin].
    - apply Hbefore. apply list_elem_of_fmap.
      by exists (TraitDataItem.mk k None).
    - apply elem_of_cons in Hin as [[=]|Hin].
      apply Hafter. apply list_elem_of_fmap.
      by exists (TraitDataItem.mk k None). }
  rewrite (bulk_create_lookup_other _ _ _ _ k Hcreate).
  2: { intros obj [Hobj|[_ Hfresh]]%Hnew Hkey;
         [by apply elem_of_nil in Hobj|].
       rewrite Hkey in Hfresh. congruence. }
  (* the step on the key's item *)
  unfold Identity.update_traits_item in Hstep. simpl in Hstep.
  rewrite decide_True in Hstep by (rewrite Hcur1, Hrow; by eexists).
  unfold Identity.getitem in Hstep. rewrite Hcur1, Hrow in Hstep.
  simpl in Hstep.
  destruct (trait_value_eq row (Some value)).
  - injection Hstep as <-.
    rewrite bulk_update_lookup_other; [done|].
    intros Hin. eapply (filter_none (λ x, x = k));
      [by rewrite Hupd3, Hupd1|exact Hin|done].
  - injection Hstep as <-. simpl in Hcur3, Hupd3.
    apply bulk_update_lookup_once; [|by rewrite Hcur3, lookup_insert_eq|done].
    rewrite Hupd3, filter_app, Hupd1, filter_cons, filter_nil.
    by rewrite decide_True.
Qed.
End update_traits_values.

Lemma update_traits_new_key_first_value_witness :
  ∃ table',
    Identity.update_traits (λ value : option Z, value) Fixture.trait_value_eq
      (λ _ new, new) (λ _ obj, obj) Fixture.identity
      [TraitDataItem.mk "foo" None; TraitDataItem.mk "foo" (Some 1);
       TraitDataItem.mk "foo" (Some 2)]
      Fixture.identity_traits
    = inr (Identity.identity_traits_all Fixture.identity table', table')
    ∧ table' !! "foo" = Some (Some 1).
Proof.
  apply (update_traits_new_key_first_value (λ value : option Z, value)
           Fixture.trait_value_eq (λ _ new, new) (λ _ obj, obj)
           Fixture.identity
           [TraitDataItem.mk "foo" None; TraitDataItem.mk "foo" (Some 1);
            TraitDataItem.mk "foo" (Some 2)]
           Fixture.identity_traits "foo").
  by vm_compute.
Defined.

Lemma update_traits_existing_key_witness :
  ∃ table',
    Identity.update_traits (λ value : option Z, value) Fixture.trait_value_eq
      (λ _ new, new) (λ _ obj, obj) Fixture.identity
      ([TraitDataItem.mk "foo" (Some 1)]
       ++ TraitDataItem.mk "trait_key_1" (Some 5) :: [])
      Fixture.identity_traits
    = inr (Identity.identity_traits_all Fixture.identity table', table')
    ∧ table' !! "trait_key_1"
      = Some (if Fixture.trait_value_eq (Some 1) (Some 5) then Some 1
              else Some 5).
Proof.
  apply (update_traits_existing_key (λ value : option Z, value)
           Fixture.trait_value_eq (λ _ new, new) (λ _ obj, obj)
           Fixture.identity [TraitDataItem.mk "foo" (Some 1)] []
           Fixture.identity_traits "trait_key_1" 5 (Some 1)).
  - apply (bool_decide_unpack _). by vm_compute.
  - apply not_elem_of_nil.
  - by vm_compute.
Defined.

(** ** Persisting generated traits *)

Section generate_traits_persist.
Context {V D : Type}.
Variable generate_trait_value_data : option V → D.

Lemma bulk_create_strict_succeeds (objs : list (Trait.t D))
    (table : gmap string D) :
  (∃ table', Identity.bulk_create false objs table = inr table')
  ↔ NoDup (Trait.trait_key <$> objs)
    ∧ ∀ obj, obj ∈ objs → table !! Trait.trait_key obj = None.
Proof.
  revert table. induction objs as [|obj objs IH]; intros table; simpl.
  - split; [|by eexists]. intros _. split; [apply NoDup_nil_2|].
    intros obj Hobj. by apply elem_of_nil in Hobj.
  - rewrite NoDup_cons. destruct (table !! Trait.trait_key obj) eqn:Hrow.
    + split; [by intros [? ?]|]. intros [_ Hfree].
      rewrite Hfree in Hrow by (by left). done.
    + rewrite IH. split.
      * intros [Hnd Hfree]. split_and!; [|done|].
        -- intros (obj' & Hkey & Hin)%list_elem_of_fmap.
           specialize (Hfree obj' Hin). rewrite <-Hkey in Hfree.
           by rewrite lookup_insert_eq in Hfree.
        -- intros obj' [->|Hin]%elem_of_cons; [done|].
           specialize (Hfree obj' Hin).
           destruct (decide (Trait.trait_key obj = Trait.trait_key obj'))
             as [Heq|Hne].
           ++ rewrite <-Heq in Hfree. by rewrite lookup_insert_eq in Hfree.
           ++ by rewrite lookup_insert_ne in Hfree.
      * intros [[Hfresh Hnd] Hfree]. split; [done|].
        intros obj' Hin. rewrite lookup_insert_ne; [apply Hfree; by right|].
        intros Heq. apply Hfresh. apply list_elem_of_fmap. by exists obj'.
Qed.

Lemma bulk_create_strict_inserted (objs : list (Trait.t D))
    (table table' : gmap string D) (obj : Trait.t D) :
  Identity.bulk_create false objs table = inr table' →
  obj ∈ objs →
  table' !! Trait.trait_key obj = Some (Trait.value_data obj).
Proof.
  revert table. induction objs as [|obj' objs IH]; intros table; simpl.
  - intros _ Hin. by apply elem_of_nil in Hin.
  - destruct (table !! Trait.trait_key obj') eqn:Hrow; [done|].
    intros Hcreate [->|Hin]%elem_of_cons; [|by eapply IH].
    eapply bulk_create_lookup_old; [exact Hcreate|]. apply lookup_insert_eq.
Qed.

(** X11. With [persist], [generate_traits] returns exactly when the keys of
    the items that have a value are pairwise distinct and none of them is
    a key of a stored trait; every such item is then stored with its
    generated value. In every other case it raises [IntegrityError]. *)
Theorem generate_traits_persist_unique_keys (self : Identity.t)
    (trait_data_items : list (TraitDataItem.t V)) (table : gmap string D) :
  let keys :=
    TraitDataItem.trait_key
    <$> filter (λ item, TraitDataItem.trait_value item ≠ None)
               trait_data_items in
  ((∃ result,
      Identity.generate_traits generate_trait_value_data self
        trait_data_items true table
      = inr result)
   ↔ NoDup keys ∧ ∀ k, k ∈ keys → table !! k = None)
  ∧ (∀ models table',
       Identity.generate_traits generate_trait_value_data self
         trait_data_items true table
       = inr (models, table') →
       ∀ key value,
         TraitDataItem.mk key (Some value) ∈ trait_data_items →
         table' !! key = Some (generate_trait_value_data (Some value)))
  ∧ (∀ e,
       Identity.generate_traits generate_trait_value_data self
         trait_data_items true table
       = inl e →
       ∃ key, key ∈ keys ∧ e = IntegrityError key).
Proof.
  intros keys. unfold Identity.generate_traits.
  set (trait_models := _ <$> filter _ trait_data_items).
  assert (Trait.trait_key <$> trait_models = keys) as Hkeys.
  { unfold trait_models, keys. by rewrite <-list_fmap_compose. }
  split_and!.
  - rewrite <-Hkeys.
    transitivity (∃ table', Identity.bulk_create false trait_models table
                            = inr table').
    + destruct (Identity.bulk_create false trait_models table)
        as [e|table']; simpl.
      * split; by intros [? ?].
      * split; by eexists.
    + rewrite bulk_create_strict_succeeds. split.
      * intros [Hnd Hfree]. split; [done|].
        intros k (obj & -> & Hobj)%list_elem_of_fmap. by apply Hfree.
      * intros [Hnd Hfree]. split; [done|].
        intros obj Hobj. apply Hfree. by apply list_elem_of_fmap_2.
  - intros models table'.
    destruct (Identity.bulk_create false trait_models table)
      as [e|table''] eqn:Hcreate; simpl; [done|].
    intros [= <- <-] key value Hin.
    apply (bulk_create_strict_inserted _ _ _
             (Trait.mk key (Identity.id self)
                (generate_trait_value_data (Some value))) Hcreate).
    unfold trait_models. apply list_elem_of_fmap.
    exists (TraitDataItem.mk key (Some value)). split; [done|].
    by apply list_elem_of_filter.
  - intros e.
    destruct (Identity.bulk_create false trait_models table)
      as [e'|table''] eqn:Hcreate; simpl; [|done].
    intros [= <-].
    destruct (bulk_create_raises _ _ _ Hcreate) as (obj & Hobj & ->).
    exists (Trait.trait_key obj). split; [|done].
    rewrite <-Hkeys. by apply list_elem_of_fmap_2.
Qed.
End generate_traits_persist.

Lemma generate_traits_persist_unique_keys_witness :
  ∃ result,
    Identity.generate_traits (λ value : option Z, value) Fixture.identity
      [TraitDataItem.mk "my_trait" (Some 123);
       TraitDataItem.mk "my_other_trait" (Some 4)]
      true Fixture.identity_traits
    = inr result.
Proof.
  apply (generate_traits_persist_unique_keys (λ value : option Z, value)
           Fixture.identity
           [TraitDataItem.mk "my_trait" (Some 123);
            TraitDataItem.mk "my_other_trait" (Some 4)]
           Fixture.identity_traits).
  split.
  - apply (bool_decide_unpack _). by vm_compute.
  - intros k Hk. vm_compute in Hk.
    repeat (apply elem_of_cons in Hk as [->|Hk]; [by vm_compute|]).
    by apply elem_of_nil in Hk.
Defined.

Example generate_traits_persist_duplicate_key :
  Identity.generate_traits (λ value : option Z, value) Fixture.identity
    [TraitDataItem.mk "my_trait" (Some 1); TraitDataItem.mk "my_trait" (Some 2)]
    true ∅
  = inl (IntegrityError "my_trait").
Proof. reflexivity. Qed.

(** ** Administrators and permissions *)

Lemma queryset_exists_filter {A : Type} (P : A → Prop)
    `{!∀ x, Decision (P x)} (rows : list A) :
  queryset_exists (filter P rows) = true ↔ ∃ row, row ∈ rows ∧ P row.
Proof.
  split.
  - destruct (filter P rows) as [|row rest] eqn:Hrows; [done|].
    intros _. exists row. apply and_comm, (list_elem_of_filter P).
    rewrite Hrows. apply elem_of_cons. by left.
  - intros (row & Hin & Hrow).
    assert (Hfiltered : row ∈ filter P rows) by by apply list_elem_of_filter.
    destruct (filter P rows); [by apply elem_of_nil in Hfiltered|done].
Qed.

Lemma queryset_exists_filter_impl {A : Type} (P Q : A → Prop)
    `{!∀ x, Decision (P x)} `{!∀ x, Decision (Q x)} (rows : list A) :
  (∀ row, P row → Q row) →
  queryset_exists (filter P rows) = true →
  queryset_exists (filter Q rows) = true.
Proof.
  intros Himpl. rewrite !queryset_exists_filter.
  intros (row & Hin & Hrow). exists row. split; [done|]. by apply Himpl.
Qed.

Local Abbreviation memberships_in self organisation_id db :=
  (filter (λ row, UserOrganisation.organisation_id row = organisation_id)
          (FFAdminUser.userorganisation_set self db)).

Lemma is_organisation_admin_by_object self organisation db :
  FFAdminUser.is_organisation_admin self (Some organisation) None db
  = match memberships_in self (Organisation.id organisation) db with
    | [] => inr false
    | [row] => inr (bool_decide (UserOrganisation.role row = "ADMIN"))
    | _ => inl MultipleObjectsReturned
    end.
Proof.
  unfold FFAdminUser.is_organisation_admin, FFAdminUser.get_organisation_role,
    FFAdminUser.get_user_organisation, FFAdminUser.get_user_organisation_by_id.
  simpl.
  destruct (filter _ _) as [|row [|row' rest]]; simpl; try done.
  f_equal. unfold OrganisationRole.ADMIN.
  destruct (decide (UserOrganisation.role row = "ADMIN")) as [Hrole|Hrole].
  - rewrite Hrole. done.
  - rewrite (bool_decide_eq_false_2 _ Hrole). apply andb_false_r.
Qed.

Lemma is_project_admin_of_organisation_admin self project db :
  FFAdminUser.is_organisation_admin self (Some (Project.organisation project))
    None db = inr true →
  FFAdminUser.is_project_admin self project true db = inr true.
Proof. intros Hadmin. unfold FFAdminUser.is_project_admin. by rewrite Hadmin. Qed.

Lemma is_environment_admin_of_project_admin self environment db :
  FFAdminUser.is_project_admin self (Environment.project environment) true db
  = inr true →
  FFAdminUser.is_environment_admin self environment true true db = inr true.
Proof.
  unfold FFAdminUser.is_environment_admin, FFAdminUser.is_project_admin.
  destruct (FFAdminUser.is_organisation_admin _ _ _ _) as [e|[|]]; simpl;
    [done|done|].
  intros [= Hrows]. by rewrite Hrows.
Qed.

Lemma has_environment_permission_of_environment_admin self environment db
    permission :
  FFAdminUser.is_environment_admin self environment true true db = inr true →
  FFAdminUser.has_environment_permission self permission environment db
  = inr true.
Proof.
  unfold FFAdminUser.is_environment_admin,
    FFAdminUser.has_environment_permission, FFAdminUser.is_project_admin,
    FFAdminUser._is_environment_admin_or_has_permission.
  destruct (FFAdminUser.is_organisation_admin _ _ _ _) as [e|[|]]; simpl;
    [done|done|].
  destruct (queryset_exists _ || queryset_exists _); simpl; [done|].
  intros [= Hrows]. f_equal.
  apply orb_true_iff in Hrows as [Hrows|Hrows]; apply orb_true_iff;
    [left|right];
    (eapply queryset_exists_filter_impl; [|exact Hrows]); simpl; tauto.
Qed.

(** X12. Administration rights nest: an administrator of the organisation
    is an administrator of each of its projects, an administrator of a
    project is an administrator of each of its environments, and an
    administrator of an environment holds every permission on it. *)
Theorem admin_rights_nest (self : FFAdminUser.t)
    (environment : Environment.t) (db : FFAdminUser.Db) :
  let project := Environment.project environment in
  (FFAdminUser.is_organisation_admin self (Some (Project.organisation project))
     None db = inr true →
   FFAdminUser.is_project_admin self project true db = inr true)
  ∧ (FFAdminUser.is_project_admin self project true db = inr true →
     FFAdminUser.is_environment_admin self environment true true db
     = inr true)
  ∧ (FFAdminUser.is_environment_admin self environment true true db
     = inr true →
     ∀ permission,
       FFAdminUser.has_environment_permission self permission environment db
       = inr true).
Proof.
  simpl. split; [|split].
  - apply is_project_admin_of_organisation_admin.
  - apply is_environment_admin_of_project_admin.
  - intros Hadmin permission.
    by apply has_environment_permission_of_environment_admin.
Qed.

Lemma admin_rights_nest_witness :
  FFAdminUser.has_environment_permission Fixture.admin_user "MANAGE_IDENTITIES"
    Fixture.environment Fixture.permissions_db
  = inr true.
Proof.
  destruct (admin_rights_nest Fixture.admin_user Fixture.environment
              Fixture.permissions_db) as (Hproject & Henvironment & Hall).
  apply Hall, Henvironment, Hproject. reflexivity.
Defined.

(** X13. [is_organisation_admin] raises [ValueError] unless exactly one of
    its two arguments is given. Given the organisation it answers true
    exactly when the user has one membership of it and that has the role
    of an administrator, and then the user belongs to the organisation.
    Given the id of the organisation it never answers true. *)
Theorem is_organisation_admin_arguments (self : FFAdminUser.t)
    (db : FFAdminUser.Db) :
  (∀ organisation organisation_id,
     organisation_id ≠ 0 →
     FFAdminUser.is_organisation_admin self (Some organisation)
       (Some organisation_id) db
     = inl (ValueError
              "Must provide exactly one of organisation or organisation_id"))
  ∧ (∀ organisation_id,
       organisation_id = None ∨ organisation_id = Some 0 →
       FFAdminUser.is_organisation_admin self None organisation_id db
       = inl (ValueError
                "Must provide exactly one of organisation or organisation_id"))
  ∧ (∀ organisation,
       FFAdminUser.is_organisation_admin self (Some organisation) None db
       = inr true
       ↔ ∃ row,
           memberships_in self (Organisation.id organisation) db = [row]
           ∧ UserOrganisation.role row = "ADMIN")
  ∧ (∀ organisation,
       FFAdminUser.is_organisation_admin self (Some organisation) None db
       = inr true →
       FFAdminUser.belongs_to self (Organisation.id organisation) db = true)
  ∧ (∀ organisation_id,
       FFAdminUser.is_organisation_admin self None organisation_id db
       ≠ inr true).
Proof.
  assert (Hobject : ∀ organisation,
    FFAdminUser.is_organisation_admin self (Some organisation) None db
    = inr true
    ↔ ∃ row,
        memberships_in self (Organisation.id organisation) db = [row]
        ∧ UserOrganisation.role row = "ADMIN").
  { intros organisation. rewrite is_organisation_admin_by_object.
    destruct (filter _ _) as [|row [|row' rest]].
    - split; [done|]. by intros (row & ? & _).
    - split.
      + intros [= Hrole]. exists row. split; [done|].
        by apply bool_decide_eq_true in Hrole.
      + intros (row' & [= <-] & Hrole). f_equal.
        by apply bool_decide_eq_true.
    - split; [done|]. by intros (? & ? & _). }
  split; [|split; [|split; [|split]]].
  - intros organisation organisation_id Hid.
    unfold FFAdminUser.is_organisation_admin. simpl.
    by rewrite (bool_decide_eq_true_2 _ Hid).
  - by intros organisation_id [->| ->].
  - exact Hobject.
  - intros organisation Hadmin.
    apply Hobject in Hadmin as (row & Hrows & _).
    apply bool_decide_eq_true, list_elem_of_fmap.
    assert (Hrow : row ∈ memberships_in self (Organisation.id organisation) db).
    { rewrite Hrows. apply elem_of_cons. by left. }
    apply list_elem_of_filter in Hrow as (Horganisation & Hin).
    by exists row.
  - intros organisation_id. unfold FFAdminUser.is_organisation_admin.
    destruct organisation_id as [organisation_id|]; simpl; [|done].
    destruct (bool_decide (organisation_id ≠ 0)); simpl; [|done].
    by destruct (FFAdminUser.get_user_organisation_by_id _ _ _).
Qed.

Lemma is_organisation_admin_arguments_witness :
  FFAdminUser.is_organisation_admin Fixture.admin_user
    (Some Fixture.organisation) (Some 1) Fixture.permissions_db
  = inl (ValueError
           "Must provide exactly one of organisation or organisation_id")
  ∧ FFAdminUser.belongs_to Fixture.admin_user 1 Fixture.permissions_db = true.
Proof.
  destruct (is_organisation_admin_arguments Fixture.admin_user
              Fixture.permissions_db) as (Hboth & _ & _ & Hbelongs & _).
  split.
  - by apply Hboth.
  - apply (Hbelongs Fixture.organisation). reflexivity.
Defined.

(** The administrator of the fixture, asked by the id of the
    organisation. *)
Example is_organisation_admin_by_id :
  FFAdminUser.is_organisation_admin Fixture.admin_user
    (Some Fixture.organisation) None Fixture.permissions_db = inr true
  ∧ FFAdminUser.is_organisation_admin Fixture.admin_user None (Some 1)
      Fixture.permissions_db = inr false.
Proof. by split. Qed.

(** X14. [IdentityPermissions.has_object_permission] answers, and fails,
    exactly as [is_environment_admin] does for the environment of the
    identity: the check for an administrator of the organisation that
    comes first decides nothing of its own. *)
Theorem identity_object_permission_is_environment_admin
    (user : FFAdminUser.t) (environment : Environment.t)
    (db : FFAdminUser.Db) :
  IdentityPermissions.has_object_permission user environment db
  = FFAdminUser.is_environment_admin user environment true true db.
Proof.
  unfold IdentityPermissions.has_object_permission,
    FFAdminUser.is_environment_admin.
  by destruct (FFAdminUser.is_organisation_admin _ _ _ _) as [e|[|]].
Qed.

Lemma is_environment_admin_outcome self environment db :
  match
    memberships_in self
      (Organisation.id
         (Project.organisation (Environment.project environment))) db
  with
  | _ :: _ :: _ =>
      FFAdminUser.is_environment_admin self environment true true db
      = inl MultipleObjectsReturned
  | _ =>
      ∃ answer,
        FFAdminUser.is_environment_admin self environment true true db
        = inr answer
  end.
Proof.
  unfold FFAdminUser.is_environment_admin.
  rewrite is_organisation_admin_by_object.
  destruct (filter _ _) as [|row [|row' rest]]; simpl; [| |done].
  - destruct (queryset_exists _ || queryset_exists _); by eexists.
  - destruct (bool_decide _); [by eexists|].
    destruct (queryset_exists _ || queryset_exists _); by eexists.
Qed.

(** X15. [EnvironmentPermissions.has_object_permission] refuses an
    anonymous user whatever the action. For the action
    [user_permissions] it admits every other user, with or without a
    right on the environment, provided the user has at most one
    membership of the organisation; with several the membership query
    fails. *)
Theorem environment_object_permission_user_permissions
    (user : FFAdminUser.t) (view : View.t) (obj : Environment.t)
    (db : FFAdminUser.Db) :
  (FFAdminUser.is_anonymous user = true →
   EnvironmentPermissions.has_object_permission user view obj db = inr false)
  ∧ (FFAdminUser.is_anonymous user = false →
     View.action view = "user_permissions" →
     EnvironmentPermissions.has_object_permission user view obj db
     = if decide
            (length
               (memberships_in user
                  (Organisation.id
                     (Project.organisation (Environment.project obj))) db)
             ≤ 1)%nat
       then inr true
       else inl MultipleObjectsReturned).
Proof.
  unfold EnvironmentPermissions.has_object_permission. split.
  - by intros ->.
  - intros -> ->. simpl.
    pose proof (is_environment_admin_outcome user obj db) as Houtcome.
    destruct (filter _ _) as [|row [|row' rest]]; simpl.
    + destruct Houtcome as (answer & ->). simpl. by rewrite orb_true_r.
    + destruct Houtcome as (answer & ->). simpl. by rewrite orb_true_r.
    + by rewrite Houtcome.
Qed.

Lemma environment_object_permission_user_permissions_witness :
  EnvironmentPermissions.has_object_permission Fixture.plain_user
    (View.mk "user_permissions" true (Some "env-key")) Fixture.environment
    Fixture.permissions_db
  = inr true
  ∧ FFAdminUser.is_environment_admin Fixture.plain_user Fixture.environment
      true true Fixture.permissions_db
    = inr false.
Proof.
  split; [|reflexivity].
  destruct (environment_object_permission_user_permissions Fixture.plain_user
              (View.mk "user_permissions" true (Some "env-key"))
              Fixture.environment Fixture.permissions_db) as (_ & Hadmitted).
  by rewrite Hadmitted.
Defined.

Lemma get_environment_by_api_key_unknown api_key environments :
  (∀ environment,
     environment ∈ environments →
     Some (Environment.api_key environment) ≠ api_key) →
  get_environment_by_api_key api_key environments = inl DoesNotExist.
Proof.
  intros Hunknown. unfold get_environment_by_api_key.
  destruct (filter _ environments) as [|row rest] eqn:Hrows; [done|].
  assert (Hrow : row ∈ filter
                   (λ row, Some (Environment.api_key row) = api_key)
                   environments).
  { rewrite Hrows. apply elem_of_cons. by left. }
  apply list_elem_of_filter in Hrow as (Hkey & Hin).
  by destruct (Hunknown row Hin).
Qed.

(** X16. A request whose [environment_api_key] names no environment is
    refused, whoever the user is: by
    [NestedEnvironmentPermissions.has_permission] and
    [EnvironmentAdminPermission.has_permission] for every action, and by
    [IdentityPermissions.has_permission] for the action [create]. *)
Theorem unknown_environment_key_refused
    (action_permission_map : gmap string string) (user : FFAdminUser.t)
    (view : View.t) (environments : list Environment.t)
    (db : FFAdminUser.Db) :
  (∀ environment,
     environment ∈ environments →
     Some (Environment.api_key environment) ≠ View.environment_api_key view) →
  NestedEnvironmentPermissions.has_permission action_permission_map user view
    environments db = inr false
  ∧ EnvironmentAdminPermission.has_permission user view environments db
    = inr false
  ∧ (View.action view = "create" →
     IdentityPermissions.has_permission user view environments db
     = inr false).
Proof.
  intros Hunknown.
  apply get_environment_by_api_key_unknown in Hunknown.
  unfold NestedEnvironmentPermissions.has_permission,
    EnvironmentAdminPermission.has_permission,
    IdentityPermissions.has_permission.
  rewrite Hunknown. split; [done|]. split; [done|].
  by intros ->.
Qed.

Lemma unknown_environment_key_refused_witness :
  NestedEnvironmentPermissions.has_permission
    (NestedEnvironmentPermissions.init "VIEW_ENVIRONMENT" None)
    Fixture.admin_user (View.mk "list" false None) [Fixture.environment]
    Fixture.permissions_db
  = inr false.
Proof.
  destruct (unknown_environment_key_refused
              (NestedEnvironmentPermissions.init "VIEW_ENVIRONMENT" None)
              Fixture.admin_user (View.mk "list" false None)
              [Fixture.environment] Fixture.permissions_db)
    as (Hrefused & _).
  - intros environment Hin. discriminate.
  - exact Hrefused.
Defined.

(** X17. [NestedEnvironmentPermissions] lets an administrator of the
    environment through: [has_object_permission] for every action and
    every map of permissions, [has_permission] for every action of the
    map and for [create]. *)
Theorem nested_environment_permissions_admin
    (action_permission_map : gmap string string) (user : FFAdminUser.t)
    (view : View.t) (environments : list Environment.t)
    (environment : Environment.t) (db : FFAdminUser.Db) :
  FFAdminUser.is_environment_admin user environment true true db = inr true →
  NestedEnvironmentPermissions.has_object_permission action_permission_map
    user view environment db = inr true
  ∧ (get_environment_by_api_key (View.environment_api_key view) environments
     = inr environment →
     is_Some (action_permission_map !! View.action view)
     ∨ View.action view = "create" →
     NestedEnvironmentPermissions.has_permission action_permission_map user
       view environments db = inr true).
Proof.
  intros Hadmin.
  unfold NestedEnvironmentPermissions.has_object_permission,
    NestedEnvironmentPermissions.has_permission.
  split.
  - destruct (action_permission_map !! View.action view); [|done].
    by apply has_environment_permission_of_environment_admin.
  - intros -> Haction.
    destruct (action_permission_map !! View.action view) as [permission|].
    + by apply has_environment_permission_of_environment_admin.
    + destruct Haction as [[? [=]]|Hcreate].
      by rewrite decide_True.
Qed.

Lemma nested_environment_permissions_admin_witness :
  NestedEnvironmentPermissions.has_permission
    (NestedEnvironmentPermissions.init "VIEW_ENVIRONMENT" None)
    Fixture.admin_user (View.mk "create" false (Some "env-key"))
    [Fixture.environment] Fixture.permissions_db
  = inr true.
Proof.
  destruct (nested_environment_permissions_admin
              (NestedEnvironmentPermissions.init "VIEW_ENVIRONMENT" None)
              Fixture.admin_user (View.mk "create" false (Some "env-key"))
              [Fixture.environment] Fixture.environment
              Fixture.permissions_db) as (_ & Hpermission).
  - reflexivity.
  - apply Hpermission; [reflexivity|by right].
Defined.

(** X18. The map that [NestedEnvironmentPermissions] keeps always has an
    entry for [list]: the caller's when there is one, [VIEW_ENVIRONMENT]
    otherwise; the other entries are the caller's. So with a known
    environment a [list] request is always decided by a permission of the
    user on the environment, never by [view.detail]. *)
Theorem nested_environment_permissions_list (VIEW_ENVIRONMENT : string)
    (action_permission_map : option (gmap string string))
    (user : FFAdminUser.t) (view : View.t)
    (environments : list Environment.t) (environment : Environment.t)
    (db : FFAdminUser.Db) :
  let kept :=
    NestedEnvironmentPermissions.init VIEW_ENVIRONMENT action_permission_map in
  let permission :=
    default VIEW_ENVIRONMENT (action_permission_map ≫= (.!! "list")) in
  kept !! "list" = Some permission
  ∧ (∀ action,
       action ≠ "list" →
       kept !! action = action_permission_map ≫= (.!! action))
  ∧ (get_environment_by_api_key (View.environment_api_key view) environments
     = inr environment →
     View.action view = "list" →
     NestedEnvironmentPermissions.has_permission kept user view environments
       db
     = FFAdminUser.has_environment_permission user permission environment db).
Proof.
  simpl.
  assert (Hlist :
    NestedEnvironmentPermissions.init VIEW_ENVIRONMENT action_permission_map
      !! "list"
    = Some (default VIEW_ENVIRONMENT (action_permission_map ≫= (.!! "list")))).
  { unfold NestedEnvironmentPermissions.init.
    destruct action_permission_map as [m|]; simpl.
    - destruct (m !! "list") as [permission|] eqn:Hm; simpl.
      + done.
      + by rewrite lookup_insert_eq.
    - rewrite lookup_empty. by rewrite lookup_insert_eq. }
  split; [done|]. split.
  - intros action Haction. unfold NestedEnvironmentPermissions.init.
    destruct action_permission_map as [m|]; simpl.
    + destruct (m !! "list"); [done|]. by rewrite lookup_insert_ne.
    + rewrite lookup_empty. rewrite lookup_insert_ne by done.
      apply lookup_empty.
  - intros Henvironment Haction.
    unfold NestedEnvironmentPermissions.has_permission.
    by rewrite Henvironment, Haction, Hlist.
Qed.

Lemma nested_environment_permissions_list_witness :
  NestedEnvironmentPermissions.has_permission
    (NestedEnvironmentPermissions.init "VIEW_ENVIRONMENT"
       (Some {["retrieve" := "VIEW_IDENTITIES"]}))
    Fixture.group_user (View.mk "list" true (Some "env-key"))
    [Fixture.environment] Fixture.permissions_db
  = inr false.
Proof.
  destruct (nested_environment_permissions_list "VIEW_ENVIRONMENT"
              (Some {["retrieve" := "VIEW_IDENTITIES"]})
              Fixture.group_user (View.mk "list" true (Some "env-key"))
              [Fixture.environment] Fixture.environment
              Fixture.permissions_db) as (_ & _ & Hlist).
  rewrite Hlist; reflexivity.
Defined.

(** X19. [has_environment_permission] grants a permission on an
    environment only to a user who is an administrator of the
    organisation, or who has, directly or through a group, an
    administrator's row for the project, or a row for the environment
    that is an administrator's or lists the permission; and it grants it
    to each of these, as long as the user has at most one membership of
    the organisation. *)
Theorem has_environment_permission_sources (self : FFAdminUser.t)
    (permission : string) (environment : Environment.t)
    (db : FFAdminUser.Db) :
  let project := Environment.project environment in
  let memberships :=
    memberships_in self (Organisation.id (Project.organisation project)) db in
  FFAdminUser.has_environment_permission self permission environment db
  = inr true
  ↔ (length memberships ≤ 1)%nat
    ∧ ((∃ row, row ∈ memberships ∧ UserOrganisation.role row = "ADMIN")
       ∨ (∃ row,
            row ∈ FFAdminUser.user_project_permissions db
            ∧ PermissionRow.admin row = true
            ∧ PermissionRow.subject_id row = FFAdminUser.id self
            ∧ PermissionRow.object_id row = Project.id project)
       ∨ (∃ row,
            row ∈ FFAdminUser.group_project_permissions db
            ∧ FFAdminUser.in_group self db (PermissionRow.subject_id row)
            ∧ PermissionRow.admin row = true
            ∧ PermissionRow.object_id row = Project.id project)
       ∨ (∃ row,
            row ∈ FFAdminUser.user_environment_permissions db
            ∧ PermissionRow.object_id row = Environment.id environment
            ∧ PermissionRow.subject_id row = FFAdminUser.id self
            ∧ (permission ∈ PermissionRow.permissions row
               ∨ PermissionRow.admin row = true))
       ∨ (∃ row,
            row ∈ FFAdminUser.group_environment_permissions db
            ∧ PermissionRow.object_id row = Environment.id environment
            ∧ FFAdminUser.in_group self db (PermissionRow.subject_id row)
            ∧ (permission ∈ PermissionRow.permissions row
               ∨ PermissionRow.admin row = true))).
Proof.
  simpl.
  unfold FFAdminUser.has_environment_permission, FFAdminUser.is_project_admin,
    FFAdminUser._is_environment_admin_or_has_permission.
  rewrite is_organisation_admin_by_object.
  assert (Hrows : ∀ b1 b2 b3 b4 : bool,
    (if b1 || b2 then inr true else inr (b3 || b4)) = (inr true : error + bool)
    ↔ b1 = true ∨ b2 = true ∨ b3 = true ∨ b4 = true).
  { intros [|] [|] [|] [|]; simpl; split; intros Hs;
      first [done | tauto | by destruct Hs as [?|[?|[?|?]]]]. }
  unfold mret, error_ret.
  destruct (filter _ (FFAdminUser.userorganisation_set self db))
    as [|membership [|membership' rest]]; simpl.
  - rewrite Hrows, !queryset_exists_filter. split.
    + intros Hsource. split; [lia|]. right.
      destruct Hsource as [H|[H|[H|H]]]; destruct H as (row & Hin & Hrow);
        [left|right; left|right; right; left|right; right; right];
        exists row; tauto.
    + intros (_ & [(row & Hin & _)|Hsource]);
        [by apply elem_of_nil in Hin|].
      destruct Hsource as [H|[H|[H|H]]]; destruct H as (row & Hin & Hrow);
        [left|right; left|right; right; left|right; right; right];
        exists row; tauto.
  - destruct (decide (UserOrganisation.role membership = "ADMIN"))
      as [Hrole|Hrole].
    + rewrite (bool_decide_eq_true_2 _ Hrole). simpl. split; [|done].
      intros _. split; [lia|]. left. exists membership. split; [|done].
      apply elem_of_cons. by left.
    + rewrite (bool_decide_eq_false_2 _ Hrole). simpl.
      rewrite Hrows, !queryset_exists_filter. split.
      * intros Hsource. split; [lia|]. right.
        destruct Hsource as [H|[H|[H|H]]]; destruct H as (row & Hin & Hrow);
          [left|right; left|right; right; left|right; right; right];
          exists row; tauto.
      * intros (_ & [(row & Hin & Hadmin)|Hsource]).
        { apply list_elem_of_singleton in Hin. by subst. }
        destruct Hsource as [H|[H|[H|H]]]; destruct H as (row & Hin & Hrow);
          [left|right; left|right; right; left|right; right; right];
          exists row; tauto.
  - split; [done|]. intros (Hlength & _). simpl in Hlength. lia.
Qed.

Lemma has_environment_permission_sources_witness :
  FFAdminUser.has_environment_permission Fixture.group_user "VIEW_IDENTITIES"
    Fixture.environment Fixture.permissions_db
  = inr true.
Proof.
  apply (has_environment_permission_sources Fixture.group_user
           "VIEW_IDENTITIES" Fixture.environment Fixture.permissions_db).
  split; [vm_compute; lia|].
  do 4 right. exists (PermissionRow.mk 7 1 false ["VIEW_IDENTITIES"]).
  split; [apply elem_of_cons; by left|].
  split; [reflexivity|].
  split; [apply (bool_decide_unpack _); by vm_compute|].
  left. apply elem_of_cons. by left.
Defined.

(** ** Searching edge identities *)

Lemma endswith_app c s :
  EdgeIdentityViewSet.endswith c (s +:+ String c EmptyString) = true.
Proof.
  induction s as [|a s IH]; simpl.
  - by apply bool_decide_eq_true.
  - destruct (s +:+ String c EmptyString) eqn:Hs; [by destruct s|done].
Qed.

Lemma append_empty_r (s : string) : s +:+ EmptyString = s.
Proof.
  induction s as [|a s IH]; [done|].
  change (String a (s +:+ EmptyString) = String a s). by rewrite IH.
Qed.

Lemma remove_app c s1 s2 :
  EdgeIdentityViewSet.remove c (s1 +:+ s2)
  = EdgeIdentityViewSet.remove c s1 +:+ EdgeIdentityViewSet.remove c s2.
Proof.
  induction s1 as [|a s1 IH]; simpl; [done|].
  destruct (decide (a = c)); simpl; by rewrite IH.
Qed.

Lemma remove_absent c s :
  c ∉ String.list_ascii_of_string s → EdgeIdentityViewSet.remove c s = s.
Proof.
  induction s as [|a s IH]; simpl; [done|].
  intros Hc. apply not_elem_of_cons in Hc as (Hne & Hc).
  rewrite decide_False by done. by rewrite IH.
Qed.

Lemma remove_removes c s :
  c ∉ String.list_ascii_of_string (EdgeIdentityViewSet.remove c s).
Proof.
  induction s as [|a s IH]; simpl; [apply not_elem_of_nil|].
  destruct (decide (a = c)); simpl; [done|].
  apply not_elem_of_cons. by split.
Qed.

(** X20. A search query in double quotes asks for the identifier between
    them: when the identifier has no double quote, the search that
    [_get_search_function_and_value] sets up finds the identities with
    exactly this identifier. Every double quote of a quoted query is
    dropped, so an identifier that contains one is never found by an
    exact search. *)
Theorem search_by_quoted_identifier :
  (∀ identifier other,
     EdgeIdentityViewSet.quote ∉ String.list_ascii_of_string identifier →
     let '(function, value) :=
       EdgeIdentityViewSet._get_search_function_and_value
         (String EdgeIdentityViewSet.quote
            (identifier +:+ String EdgeIdentityViewSet.quote EmptyString)) in
     EdgeIdentityViewSet.search_condition function value other
     = bool_decide (other = identifier))
  ∧ (∀ search_query identifier,
       EdgeIdentityViewSet.quote ∈ String.list_ascii_of_string identifier →
       let '(function, value) :=
         EdgeIdentityViewSet._get_search_function_and_value search_query in
       function = EdgeIdentityViewSet.EQUAL →
       EdgeIdentityViewSet.search_condition function value identifier
       = false).
Proof.
  split.
  - intros identifier other Hquote.
    unfold EdgeIdentityViewSet._get_search_function_and_value.
    change (EdgeIdentityViewSet.startswith EdgeIdentityViewSet.quote
              (String EdgeIdentityViewSet.quote
                 (identifier +:+ String EdgeIdentityViewSet.quote EmptyString)))
      with true.
    change (String EdgeIdentityViewSet.quote
              (identifier +:+ String EdgeIdentityViewSet.quote EmptyString))
      with (String EdgeIdentityViewSet.quote identifier
            +:+ String EdgeIdentityViewSet.quote EmptyString) at 1.
    rewrite endswith_app. simpl andb. cbv iota.
    change (String EdgeIdentityViewSet.quote
              (identifier +:+ String EdgeIdentityViewSet.quote EmptyString))
      with (String EdgeIdentityViewSet.quote EmptyString
            +:+ (identifier +:+ String EdgeIdentityViewSet.quote EmptyString)).
    rewrite !remove_app, (remove_absent _ identifier) by done.
    change (EdgeIdentityViewSet.remove EdgeIdentityViewSet.quote
              (String EdgeIdentityViewSet.quote EmptyString))
      with EmptyString.
    simpl. by rewrite append_empty_r.
  - intros search_query identifier Hquote.
    unfold EdgeIdentityViewSet._get_search_function_and_value.
    destruct (_ && _); [|done].
    intros _. simpl. apply bool_decide_eq_false. intros ->.
    by apply (remove_removes EdgeIdentityViewSet.quote search_query).
Qed.

Lemma search_by_quoted_identifier_witness :
  EdgeIdentityViewSet.search_condition EdgeIdentityViewSet.EQUAL "user-1"
    "user-10"
  = false.
Proof.
  destruct search_by_quoted_identifier as (Hexact & _).
  apply (Hexact "user-1" "user-10").
  apply (bool_decide_unpack _). by vm_compute.
Defined.

(** An unquoted query finds by prefix, and one double quote alone is a
    quoted query for the empty identifier. *)
Example search_unquoted_and_lone_quote :
  EdgeIdentityViewSet._get_search_function_and_value "user-1"
  = (EdgeIdentityViewSet.BEGINS_WITH, "user-1")
  ∧ EdgeIdentityViewSet._get_search_function_and_value
      (String EdgeIdentityViewSet.quote EmptyString)
    = (EdgeIdentityViewSet.EQUAL, EmptyString).
Proof. by split. Qed.

(** ** Identity migration state *)

Section identity_migration.
Import ProjectIdentityMigrationStatus DynamoProjectMetadata.

Lemma truthy_str_Some (now : string) :
  now ≠ "" → truthy_str (Some now) = true.
Proof. intros Hnow. by apply bool_decide_eq_true. Qed.

(** X21. A project without an item in the metadata table has not started
    its migration. Triggering, starting and finishing the migration, each
    on the object read back from the table, go through: the statuses are
    scheduled, in progress and completed, and the table ends with the
    three times recorded for the project. *)
Theorem identity_migration_lifecycle (project_id : Z)
    (triggered started finished : string) (project_metadata_table : Table) :
  project_metadata_table !! project_id = None →
  triggered ≠ "" → started ≠ "" → finished ≠ "" →
  let new := get_or_new project_id project_metadata_table in
  let scheduled := mk project_id None None (Some triggered) in
  let in_progress := mk project_id (Some started) None (Some triggered) in
  let completed :=
    mk project_id (Some started) (Some finished) (Some triggered) in
  identity_migration_status
  <$> [new; scheduled; in_progress; completed]
  = [MIGRATION_NOT_STARTED; MIGRATION_SCHEDULED; MIGRATION_IN_PROGRESS;
     MIGRATION_COMPLETED]
  ∧ ∃ table1 table2,
      trigger_identity_migration new triggered project_metadata_table
      = inr (scheduled, table1)
      ∧ start_identity_migration (get_or_new project_id table1) started table1
        = inr (in_progress, table2)
      ∧ finish_identity_migration (get_or_new project_id table2) finished
          table2
        = inr (completed, <[project_id := completed]> project_metadata_table).
Proof.
  intros Habsent Htriggered Hstarted Hfinished. simpl.
  unfold get_or_new at 1 2. rewrite Habsent.
  unfold identity_migration_status. simpl.
  rewrite !(bool_decide_eq_true_2 _ Htriggered),
    !(bool_decide_eq_true_2 _ Hstarted), !(bool_decide_eq_true_2 _ Hfinished).
  split; [done|].
  eexists _, _. split; [reflexivity|].
  unfold get_or_new, _save. simpl. rewrite lookup_insert_eq.
  unfold start_identity_migration. simpl. split; [reflexivity|].
  unfold _save. simpl. rewrite lookup_insert_eq.
  unfold finish_identity_migration. simpl.
  unfold _save. simpl. by rewrite !insert_insert_eq.
Qed.

Lemma identity_migration_lifecycle_witness :
  ∃ table1 table2,
    trigger_identity_migration (get_or_new 7 ∅) "2023-01-01T10:00:00" ∅
    = inr (mk 7 None None (Some "2023-01-01T10:00:00"), table1)
    ∧ start_identity_migration (get_or_new 7 table1) "2023-01-01T11:00:00"
        table1
      = inr (mk 7 (Some "2023-01-01T11:00:00") None
               (Some "2023-01-01T10:00:00"), table2)
    ∧ finish_identity_migration (get_or_new 7 table2) "2023-01-01T12:00:00"
        table2
      = inr (mk 7 (Some "2023-01-01T11:00:00") (Some "2023-01-01T12:00:00")
               (Some "2023-01-01T10:00:00"),
             <[7 := mk 7 (Some "2023-01-01T11:00:00")
                     (Some "2023-01-01T12:00:00")
                     (Some "2023-01-01T10:00:00")]> ∅).
Proof.
  apply (identity_migration_lifecycle 7 "2023-01-01T10:00:00"
           "2023-01-01T11:00:00" "2023-01-01T12:00:00" ∅);
    [reflexivity|done|done|done].
Defined.

(** X22. Each of [trigger_identity_migration], [start_identity_migration]
    and [finish_identity_migration], when it goes through, never takes
    the status of the migration back, saves the object as the item of its
    project and leaves the other items alone; the same step on the object
    it gives raises [AttributeError]. *)
Theorem identity_migration_step (step : t → string → Table → error + t * Table)
    (self self' : t) (now : string) (project_metadata_table table' : Table) :
  step ∈ [trigger_identity_migration; start_identity_migration;
          finish_identity_migration] →
  now ≠ "" →
  step self now project_metadata_table = inr (self', table') →
  (progress (identity_migration_status self)
   ≤ progress (identity_migration_status self'))%nat
  ∧ identity_migration_status self' ≠ NOT_APPLICABLE
  ∧ id self' = id self
  ∧ get_or_new (id self) table' = self'
  ∧ (∀ project_id,
       project_id ≠ id self →
       table' !! project_id = project_metadata_table !! project_id)
  ∧ ∀ now' table'', ∃ message,
      step self' now' table'' = inl (AttributeError message).
Proof.
  intros Hstep Hnow. apply truthy_str_Some in Hnow.
  destruct self as [project_id start_time end_time triggered].
  assert (Hsaved : ∀ saved : t,
    get_or_new project_id (<[project_id := saved]> project_metadata_table)
    = saved
    ∧ ∀ other, other ≠ project_id →
        <[project_id := saved]> project_metadata_table !! other
        = project_metadata_table !! other).
  { intros saved. split.
    - unfold get_or_new. by rewrite lookup_insert_eq.
    - intros other Hother. by rewrite lookup_insert_ne. }
  repeat (apply elem_of_cons in Hstep as [->|Hstep]);
    [| | |by apply elem_of_nil in Hstep].
  - unfold trigger_identity_migration, _save. simpl.
    destruct (truthy_str triggered) eqn:Htriggered; [done|].
    intros [= <- <-]. unfold identity_migration_status. simpl.
    fold (truthy_str (Some now)). rewrite Htriggered, Hnow.
    destruct (Hsaved (mk project_id start_time end_time (Some now)))
      as (Hread & Hothers).
    split; [|split; [|split; [done|split; [done|split; [done|]]]]].
    + destruct (truthy_str start_time), (truthy_str end_time); simpl; lia.
    + by destruct (truthy_str start_time), (truthy_str end_time).
    + intros now' table''. by eexists.
  - unfold start_identity_migration, _save. simpl.
    destruct (truthy_str start_time) eqn:Hstart; [done|].
    intros [= <- <-]. unfold identity_migration_status. simpl.
    fold (truthy_str (Some now)). rewrite Hstart, Hnow.
    destruct (Hsaved (mk project_id (Some now) end_time triggered))
      as (Hread & Hothers).
    split; [|split; [|split; [done|split; [done|split; [done|]]]]].
    + destruct (truthy_str triggered), (truthy_str end_time); simpl; lia.
    + by destruct (truthy_str end_time).
    + intros now' table''. by eexists.
  - unfold finish_identity_migration, _save. simpl.
    destruct (truthy_str end_time) eqn:Hend; [done|].
    intros [= <- <-]. unfold identity_migration_status. simpl.
    fold (truthy_str (Some now)). rewrite Hend, Hnow.
    destruct (Hsaved (mk project_id start_time (Some now) triggered))
      as (Hread & Hothers).
    split; [|split; [|split; [done|split; [done|split; [done|]]]]].
    + destruct (truthy_str triggered), (truthy_str start_time); simpl; lia.
    + by destruct (truthy_str triggered), (truthy_str start_time).
    + intros now' table''. by eexists.
Qed.
End identity_migration.

Lemma identity_migration_step_witness :
  DynamoProjectMetadata.identity_migration_status
    (DynamoProjectMetadata.mk 7 None (Some "2023-01-01T12:00:00") None)
  = ProjectIdentityMigrationStatus.MIGRATION_NOT_STARTED
  ∧ ∃ message,
      DynamoProjectMetadata.finish_identity_migration
        (DynamoProjectMetadata.mk 7 None (Some "2023-01-01T12:00:00") None)
        "2023-01-02T12:00:00" ∅
      = inl (AttributeError message).
Proof.
  split; [reflexivity|].
  destruct (identity_migration_step
              DynamoProjectMetadata.finish_identity_migration
              (DynamoProjectMetadata.mk 7 None None None)
              (DynamoProjectMetadata.mk 7 None (Some "2023-01-01T12:00:00")
                 None)
              "2023-01-01T12:00:00" ∅
              (<[7 := DynamoProjectMetadata.mk 7 None
                        (Some "2023-01-01T12:00:00") None]> ∅))
    as (_ & _ & _ & _ & _ & Hagain).
  - do 2 (apply elem_of_cons; right). apply elem_of_cons. by left.
  - done.
  - reflexivity.
  - apply Hagain.
Defined.

(** ** The environment document *)

Section environment_document.
Context {V : Type}.
Variable map_environment_to_document : Environment.t → list (string * V).
Variable CACHE_ENVIRONMENT_DOCUMENT_SECONDS : Z.

Local Abbreviation get_environment_document :=
  (Environment.get_environment_document map_environment_to_document
     CACHE_ENVIRONMENT_DOCUMENT_SECONDS).

(** X23. With the cache of documents in use, a document that
    [get_environment_document] has returned, when it is not empty, is
    what every later call for the key returns, whatever has become of the
    environments, and these calls leave the cache as it is. A call that
    fails leaves the cache as it was. *)
Theorem get_environment_document_cached (key : string)
    (environment_document_cache cache' : gmap string (list (string * V)))
    (environments : list Environment.t)
    (outcome : error + list (string * V)) :
  CACHE_ENVIRONMENT_DOCUMENT_SECONDS > 0 →
  get_environment_document key environment_document_cache environments
  = (outcome, cache') →
  match outcome with
  | inr environment_document =>
      environment_document ≠ [] →
      ∀ environments',
        get_environment_document key cache' environments'
        = (inr environment_document, cache')
  | inl _ => cache' = environment_document_cache
  end.
Proof.
  intros Hseconds. unfold Environment.get_environment_document.
  rewrite (bool_decide_eq_true_2 _ Hseconds).
  unfold Environment._get_environment_document_from_cache.
  destruct (environment_document_cache !! key) as [[|item items]|] eqn:Hcached.
  - destruct (Environment._get_environment_document_from_db _ _ _)
      as [e|[|item items]]; intros [= <- <-]; [done|done|].
    intros _ environments'. by rewrite lookup_insert_eq.
  - intros [= <- <-] _ environments'. by rewrite Hcached.
  - destruct (Environment._get_environment_document_from_db _ _ _)
      as [e|[|item items]]; intros [= <- <-]; [done|done|].
    intros _ environments'. by rewrite lookup_insert_eq.
Qed.
End environment_document.

Lemma get_environment_document_cached_witness :
  Environment.get_environment_document
    (λ environment, [("api_key", Environment.api_key environment)]) 60
    "env-key" {["env-key" := [("api_key", "env-key")]]} []
  = (inr [("api_key", "env-key")],
     {["env-key" := [("api_key", "env-key")]]}).
Proof.
  apply (get_environment_document_cached
           (λ environment, [("api_key", Environment.api_key environment)]) 60
           "env-key" ∅ {["env-key" := [("api_key", "env-key")]]}
           [Fixture.environment] (inr [("api_key", "env-key")]));
    [lia|reflexivity|done].
Defined.

(** ** Names and GitHub responses *)

Lemma split_nonempty sep s : Str.split sep s ≠ [].
Proof.
  destruct s as [|c s]; simpl; [done|].
  destruct (decide (c = sep)); [done|]. by destruct (Str.split sep s).
Qed.

Lemma join_split sep s : Str.join sep (Str.split sep s) = s.
Proof.
  induction s as [|c s IH]; simpl; [done|].
  pose proof (split_nonempty sep s) as Hnonempty.
  destruct (decide (c = sep)) as [->|Hc].
  - destruct (Str.split sep s) as [|part parts]; [done|].
    simpl in *. by rewrite IH.
  - destruct (Str.split sep s) as [|part [|part' parts]]; [done|..];
      simpl in *; by rewrite <-IH.
Qed.

Lemma split_free sep s : Forall (λ part, sep ∉ part) (Str.split sep s).
Proof.
  induction s as [|c s IH]; simpl.
  - constructor; [apply not_elem_of_nil|constructor].
  - destruct (decide (c = sep)) as [->|Hc].
    + constructor; [apply not_elem_of_nil|done].
    + destruct (Str.split sep s) as [|part parts].
      * constructor; [|constructor].
        apply not_elem_of_cons. split; [done|apply not_elem_of_nil].
      * apply Forall_cons in IH as (Hpart & Hparts).
        constructor; [|done]. apply not_elem_of_cons. split; [congruence|done].
Qed.

Lemma split_free_id sep s : sep ∉ s → Str.split sep s = [s].
Proof.
  induction s as [|c s IH]; simpl; [done|].
  intros Hsep. apply not_elem_of_cons in Hsep as (Hc & Hsep).
  rewrite decide_False by congruence. by rewrite IH.
Qed.

Lemma split_app_sep sep s rest :
  sep ∉ s → Str.split sep (s ++ sep :: rest) = s :: Str.split sep rest.
Proof.
  induction s as [|c s IH]; simpl.
  - intros _. by rewrite decide_True.
  - intros Hsep. apply not_elem_of_cons in Hsep as (Hc & Hsep).
    rewrite decide_False by congruence. by rewrite IH.
Qed.

Lemma split_join sep parts :
  parts ≠ [] →
  Forall (λ part, sep ∉ part) parts →
  Str.split sep (Str.join sep parts) = parts.
Proof.
  induction parts as [|part parts IH]; [done|].
  intros _ Hfree. apply Forall_cons in Hfree as (Hpart & Hparts).
  destruct parts as [|part' parts].
  - simpl. by apply split_free_id.
  - change (Str.join sep (part :: part' :: parts))
      with (part ++ sep :: Str.join sep (part' :: parts)).
    rewrite split_app_sep by done. by rewrite IH.
Qed.

Lemma lstrip_head s c : head (Str.lstrip s) = Some c → Str.isspace c = false.
Proof.
  induction s as [|a s IH]; simpl; [done|].
  destruct (Str.isspace a) eqn:Ha; [done|]. by intros [= <-].
Qed.

Lemma lstrip_suffix s : ∃ spaces, s = spaces ++ Str.lstrip s.
Proof.
  induction s as [|a s (spaces & IH)]; simpl; [by exists []|].
  destruct (Str.isspace a).
  - exists (a :: spaces). simpl. by rewrite <-IH.
  - by exists [].
Qed.

Lemma lstrip_id s :
  (∀ c, head s = Some c → Str.isspace c = false) → Str.lstrip s = s.
Proof.
  destruct s as [|a s]; simpl; [done|].
  intros Hhead. by rewrite (Hhead a eq_refl).
Qed.

Lemma strip_last s c : last (Str.strip s) = Some c → Str.isspace c = false.
Proof.
  unfold Str.strip, Str.rstrip. rewrite last_reverse. apply lstrip_head.
Qed.

Lemma strip_head s c : head (Str.strip s) = Some c → Str.isspace c = false.
Proof.
  unfold Str.strip, Str.rstrip. intros Hhead.
  destruct (lstrip_suffix (reverse (Str.lstrip s))) as (spaces & Hsuffix).
  apply (f_equal reverse) in Hsuffix.
  rewrite reverse_involutive, reverse_app in Hsuffix.
  apply (lstrip_head s). rewrite Hsuffix, head_app. by rewrite Hhead.
Qed.

Lemma strip_id s :
  (∀ c, head s = Some c → Str.isspace c = false) →
  (∀ c, last s = Some c → Str.isspace c = false) →
  Str.strip s = s.
Proof.
  intros Hhead Hlast. unfold Str.strip, Str.rstrip.
  rewrite (lstrip_id s) by done.
  rewrite lstrip_id; [apply reverse_involutive|].
  intros c. rewrite head_reverse. apply Hlast.
Qed.

(** X24. [get_first_and_last_name] always gives two strings. Either they
    are the name as it was given and the empty string, or they are a
    first and a last name, both not empty and without a space, that make
    up the name once the white space around it is removed. *)
Theorem get_first_and_last_name_two_names (full_name : Str.t) :
  github_helpers.get_first_and_last_name full_name = [full_name; []]
  ∨ ∃ first last,
      github_helpers.get_first_and_last_name full_name = [first; last]
      ∧ Str.strip full_name = first ++ Str.SPACE :: last
      ∧ first ≠ [] ∧ last ≠ []
      ∧ (Str.SPACE ∉ first) ∧ (Str.SPACE ∉ last).
Proof.
  unfold github_helpers.get_first_and_last_name.
  destruct (decide (full_name = [])) as [->|Hname]; [by left|].
  destruct (decide (length _ = 2%nat)) as [Hlength|Hlength]; [|by left].
  right.
  pose proof (join_split Str.SPACE (Str.strip full_name)) as Hjoin.
  pose proof (split_free Str.SPACE (Str.strip full_name)) as Hfree.
  destruct (Str.split Str.SPACE (Str.strip full_name))
    as [|first [|last [|extra names]]]; try done.
  simpl in Hjoin.
  apply Forall_cons in Hfree as (Hfirst & Hfree).
  apply Forall_cons in Hfree as (Hlast & _).
  exists first, last. split; [done|]. split; [done|].
  split; [|split; [|done]].
  - intros ->.
    assert (Hspace : head (Str.strip full_name) = Some Str.SPACE).
    { by rewrite <-Hjoin. }
    by apply strip_head in Hspace.
  - intros ->.
    assert (Hspace : last (Str.strip full_name) = Some Str.SPACE).
    { rewrite <-Hjoin. apply last_snoc. }
    by apply strip_last in Hspace.
Qed.

(** A name of three words is not taken apart. *)
Example get_first_and_last_name_three_words :
  github_helpers.get_first_and_last_name (Str.of_string "Ada King Lovelace")
  = [Str.of_string "Ada King Lovelace"; []].
Proof. reflexivity. Qed.

(** X25. The full name of a user whose first and last names are not empty
    and have no white space is taken apart by [get_first_and_last_name]
    into these two names. *)
Theorem get_first_and_last_name_of_full_name (first_name last_name : Str.t) :
  first_name ≠ [] → last_name ≠ [] →
  Forall (λ c, Str.isspace c = false) first_name →
  Forall (λ c, Str.isspace c = false) last_name →
  ∃ full_name,
    FFAdminUser.get_full_name first_name last_name = Some full_name
    ∧ github_helpers.get_first_and_last_name full_name
      = [first_name; last_name].
Proof.
  intros Hfirst Hlast Hfirst_spaces Hlast_spaces.
  assert (Hfree : ∀ name,
    Forall (λ c, Str.isspace c = false) name → Str.SPACE ∉ name).
  { intros name Hname Hin. rewrite Forall_forall in Hname.
    by apply Hname in Hin. }
  unfold FFAdminUser.get_full_name. rewrite decide_False by done.
  eexists. split; [done|].
  change (Str.join Str.SPACE [first_name; last_name])
    with (first_name ++ Str.SPACE :: last_name).
  rewrite strip_id.
  - unfold github_helpers.get_first_and_last_name.
    rewrite decide_False by by destruct first_name.
    rewrite strip_id.
    + rewrite split_app_sep, split_free_id by auto. by rewrite decide_True.
    + intros c. destruct first_name as [|a first_name]; [done|].
      intros [= <-]. by apply Forall_cons in Hfirst_spaces as (? & _).
    + intros c. rewrite last_app_cons, last_cons.
      destruct (last last_name) as [a|] eqn:Ha.
      * intros [= <-]. rewrite Forall_forall in Hlast_spaces.
        apply Hlast_spaces. apply last_Some in Ha as (l' & ->).
        apply elem_of_app. right. apply elem_of_cons. by left.
      * apply last_None in Ha. done.
  - intros c. destruct first_name as [|a first_name]; [done|].
    intros [= <-]. by apply Forall_cons in Hfirst_spaces as (? & _).
  - intros c. rewrite last_app_cons, last_cons.
    destruct (last last_name) as [a|] eqn:Ha.
    + intros [= <-]. rewrite Forall_forall in Hlast_spaces.
      apply Hlast_spaces. apply last_Some in Ha as (l' & ->).
      apply elem_of_app. right. apply elem_of_cons. by left.
    + apply last_None in Ha. done.
Qed.

Lemma get_first_and_last_name_of_full_name_witness :
  ∃ full_name,
    FFAdminUser.get_full_name (Str.of_string "Ada") (Str.of_string "Lovelace")
    = Some full_name
    ∧ github_helpers.get_first_and_last_name full_name
      = [Str.of_string "Ada"; Str.of_string "Lovelace"].
Proof.
  apply (get_first_and_last_name_of_full_name (Str.of_string "Ada")
           (Str.of_string "Lovelace")); [done|done| |];
    apply (bool_decide_unpack _); by vm_compute.
Defined.

Local Abbreviation dict_insert :=
  (λ (d : gmap Str.t Str.t) (pair : Str.t * Str.t), <[pair.1 := pair.2]> d).

Lemma dict_pairs pairs d :
  github_helpers.dict ((λ pair : Str.t * Str.t, [pair.1; pair.2]) <$> pairs) d
  = Some (foldl dict_insert d pairs).
Proof.
  revert d. induction pairs as [|[key value] pairs IH]; intros d; simpl;
    [done|apply IH].
Qed.

Lemma dict_inv items d d' :
  github_helpers.dict items d = Some d' →
  ∃ pairs,
    items = (λ pair : Str.t * Str.t, [pair.1; pair.2]) <$> pairs
    ∧ d' = foldl dict_insert d pairs.
Proof.
  revert d. induction items as [|item items IH]; intros d; simpl.
  - intros [= <-]. by exists [].
  - destruct item as [|key [|value [|extra item]]]; try done.
    intros (pairs & -> & ->)%IH. by exists ((key, value) :: pairs).
Qed.

Lemma split_pairs parts pairs :
  Str.split Str.EQUALS <$> parts
  = (λ pair : Str.t * Str.t, [pair.1; pair.2]) <$> pairs →
  parts = (λ pair, pair.1 ++ Str.EQUALS :: pair.2) <$> pairs
  ∧ Forall (λ pair, (Str.EQUALS ∉ pair.1) ∧ (Str.EQUALS ∉ pair.2)) pairs.
Proof.
  revert pairs. induction parts as [|part parts IH];
    intros [|[key value] pairs]; simpl; try done.
  intros [= Hpart Hparts]. apply IH in Hparts as (-> & Hfree).
  pose proof (join_split Str.EQUALS part) as Hjoin.
  pose proof (split_free Str.EQUALS part) as Hpart_free.
  rewrite Hpart in Hjoin, Hpart_free. simpl in Hjoin.
  apply Forall_cons in Hpart_free as (Hkey & Hpart_free).
  apply Forall_cons in Hpart_free as (Hvalue & _).
  split; [by rewrite <-Hjoin|]. by constructor.
Qed.

(** X26. [convert_response_data_to_dictionary] returns a dictionary
    exactly for the texts that are one or more pairs [key=value] joined
    by [&], the keys and the values being free of [&] and [=]; the
    dictionary is then that of these pairs, a later pair taking the place
    of an earlier one of the same key. For every other text, the empty
    one included, it raises [GithubError]. *)
Theorem convert_response_data_to_dictionary_pairs (text : Str.t) :
  (∀ d,
     github_helpers.convert_response_data_to_dictionary text = inr d
     ↔ ∃ pairs,
         pairs ≠ []
         ∧ Forall (λ pair,
                     (Str.AMPERSAND ∉ pair.1) ∧ (Str.EQUALS ∉ pair.1)
                     ∧ (Str.AMPERSAND ∉ pair.2) ∧ (Str.EQUALS ∉ pair.2))
                  pairs
         ∧ text = github_helpers.encode pairs
         ∧ d = foldl dict_insert ∅ pairs)
  ∧ ∀ e,
      github_helpers.convert_response_data_to_dictionary text = inl e →
      e = GithubError "Malformed data received from Github".
Proof.
  unfold github_helpers.convert_response_data_to_dictionary. split.
  - intros d. split.
    + destruct (github_helpers.dict _ _) as [d'|] eqn:Hdict; [|done].
      intros [= <-].
      apply dict_inv in Hdict as (pairs & Hitems & ->).
      apply split_pairs in Hitems as (Hparts & Hequals).
      pose proof (join_split Str.AMPERSAND text) as Hjoin.
      pose proof (split_free Str.AMPERSAND text) as Hfree.
      pose proof (split_nonempty Str.AMPERSAND text) as Hnonempty.
      rewrite Hparts in Hjoin, Hfree, Hnonempty.
      exists pairs. split; [by destruct pairs|].
      split; [|by split].
      rewrite Forall_fmap in Hfree. rewrite Forall_forall in Hfree, Hequals.
      apply Forall_forall. intros pair Hin.
      specialize (Hfree pair Hin). specialize (Hequals pair Hin).
      simpl in Hfree. rewrite elem_of_app, elem_of_cons in Hfree.
      tauto.
    + intros (pairs & Hnonempty & Hfree & -> & ->).
      unfold github_helpers.encode. rewrite split_join.
      * rewrite <-list_fmap_compose.
        erewrite (list_fmap_ext _ (λ pair : Str.t * Str.t, [pair.1; pair.2]));
          [by rewrite dict_pairs|].
        intros i pair Hpair. simpl.
        apply list_elem_of_lookup_2 in Hpair.
        rewrite Forall_forall in Hfree.
        destruct (Hfree pair Hpair) as (_ & Hkey & _ & Hvalue).
        rewrite split_app_sep by done. by rewrite split_free_id.
      * by destruct pairs.
      * apply Forall_fmap, Forall_forall. intros pair Hpair. simpl.
        rewrite Forall_forall in Hfree.
        destruct (Hfree pair Hpair) as (Hkey & _ & Hvalue & _).
        rewrite elem_of_app, elem_of_cons. unfold Str.AMPERSAND, Str.EQUALS.
        intros [?|[?|?]]; done.
  - intros e. destruct (github_helpers.dict _ _); [done|]. by intros [= <-].
Qed.

(** A text with two pairs, and the empty text. *)
Example convert_response_data_to_dictionary_example :
  github_helpers.convert_response_data_to_dictionary
    (Str.of_string "access_token=abc&token_type=bearer")
  = inr (<[Str.of_string "token_type" := Str.of_string "bearer"]>
           {[Str.of_string "access_token" := Str.of_string "abc"]})
  ∧ github_helpers.convert_response_data_to_dictionary []
    = inl (GithubError "Malformed data received from Github").
Proof. by split. Qed.
